(** * Parcel matching and CGT engine: a shallow embedding

    The development follows the services of the tracker:
    [tracker/services/cgt.py] (tax calculator and financial-year summary),
    [tracker/services/matching.py] (allocation and commit engines) and
    [tracker/services/forecasting.py] (forecast engine), over the models of
    [tracker/models]. *)

From Stdlib Require Import ZArith Lia Bool List Sorting.Sorted Permutation.
From stdpp Require Import gmap strings list fin_maps pretty.
From Stdlib Require String.

Local Open Scope Z_scope.

(** ** Python's [decimal.Decimal] under the default context

    A finite decimal is a signed coefficient and an exponent; its value is
    [coef * 10 ^ expo].  Arithmetic results are rounded to the context
    precision (28 significant digits, ROUND_HALF_EVEN), as [Decimal._fix]
    does.  Comparisons are exact.  The sign of a zero and the exponent
    limits (Emin/Emax = -/+ 999999) are not represented; NaN and the
    infinities are outside the model. *)

Module Dec.

Record Decimal : Set := mkDec { coef : Z; expo : Z }.

Definition prec : Z := 28.

Fixpoint ndigits_aux (fuel : nat) (a : Z) : Z :=
  match fuel with
  | O => 0
  | S f => if a <=? 0 then 0 else 1 + ndigits_aux f (a / 10)
  end.

(** Number of decimal digits of [|a|] ([len(self._int)] for a nonzero
    coefficient). *)
Definition ndigits (a : Z) : Z :=
  ndigits_aux (S (Z.to_nat (Z.log2 (Z.abs a)))) (Z.abs a).

(** Drop the last [k] digits of [a >= 0], rounding half to even. *)
Definition round_half_even (a k : Z) : Z :=
  let p := 10 ^ k in
  let q := a / p in
  let r := a mod p in
  if (p <? 2 * r) || ((2 * r =? p) && Z.odd q) then q + 1 else q.

(** [Decimal._fix]: round to the context precision. *)
Definition Dfix (d : Decimal) : Decimal :=
  let c := coef d in
  if c =? 0 then d
  else
    let n := ndigits c in
    if n <=? prec then d
    else
      let k := n - prec in
      let q := round_half_even (Z.abs c) k in
      if 10 ^ prec <=? q
      then mkDec (Z.sgn c * (q / 10)) (expo d + k + 1)
      else mkDec (Z.sgn c * q) (expo d + k).

(** The coefficient of [d] written at the exponent [m <= expo d]. *)
Definition scaled (d : Decimal) (m : Z) : Z := coef d * 10 ^ (expo d - m).

Definition Dneg (a : Decimal) : Decimal := mkDec (- coef a) (expo a).

Definition Dadd (a b : Decimal) : Decimal :=
  let m := Z.min (expo a) (expo b) in
  Dfix (mkDec (scaled a m + scaled b m) m).

Definition Dsub (a b : Decimal) : Decimal := Dadd a (Dneg b).

Definition Dmul (a b : Decimal) : Decimal :=
  Dfix (mkDec (coef a * coef b) (expo a + expo b)).

Definition Dcompare (a b : Decimal) : comparison :=
  let m := Z.min (expo a) (expo b) in
  scaled a m ?= scaled b m.

Definition Deqb (a b : Decimal) : bool :=
  match Dcompare a b with Eq => true | _ => false end.
Definition Dltb (a b : Decimal) : bool :=
  match Dcompare a b with Lt => true | _ => false end.
Definition Dleb (a b : Decimal) : bool :=
  match Dcompare a b with Gt => false | _ => true end.

(** The builtin [min(a, b)]: the first argument unless the second is
    strictly smaller. *)
Definition Dmin (a b : Decimal) : Decimal := if Dltb b a then b else a.

(** Numeric equality, [==] on decimals. *)
Definition Deq (a b : Decimal) : Prop := Deqb a b = true.

(** Integer literals and [Decimal("0")], [Decimal("1")], [Decimal("0.5")]. *)
Definition of_Z (n : Z) : Decimal := mkDec n 0.
Definition D0 : Decimal := of_Z 0.
Definition D1 : Decimal := of_Z 1.
Definition Dhalf : Decimal := mkDec 5 (-1).

(** The exact (unrounded) product, sum and difference, and the decimals
    whose coefficient fits the context precision. *)
Definition exact_mul (a b : Decimal) : Decimal :=
  mkDec (coef a * coef b) (expo a + expo b).
Definition exact_add (a b : Decimal) : Decimal :=
  let m := Z.min (expo a) (expo b) in
  mkDec (scaled a m + scaled b m) m.
Definition exact_sub (a b : Decimal) : Decimal := exact_add a (Dneg b).
Definition fits (d : Decimal) : Prop := Z.abs (coef d) < 10 ^ prec.

(** Quantities on a common grid: [on_grid s d] says that [d] is a whole
    number of units of [10 ^ (- s)], and [units s d] is that number. *)
Definition on_grid (s : Z) (d : Decimal) : Prop := - s <= expo d.
Definition units (s : Z) (d : Decimal) : Z := scaled d (- s).

(** [sum(ds)] started from the integer [0]. *)
Definition Dsum (ds : list Decimal) : Decimal := fold_left Dadd ds D0.

End Dec.

Import Dec.

Declare Scope dec_scope.
Delimit Scope dec_scope with D.
Bind Scope dec_scope with Decimal.
Infix "+" := Dadd : dec_scope.
Infix "-" := Dsub : dec_scope.
Infix "*" := Dmul : dec_scope.
Infix "=?" := Deqb : dec_scope.
Infix "<?" := Dltb : dec_scope.
Infix "<=?" := Dleb : dec_scope.
Infix "==" := Deq (at level 70, no associativity) : dec_scope.

(** ** [datetime.date] *)

Module Date.

Record date : Set := mkDate { year : Z; month : Z; day : Z }.

Definition MINYEAR : Z := 1.
Definition MAXYEAR : Z := 9999.

Definition is_leap (y : Z) : bool :=
  (y mod 4 =? 0) && (negb (y mod 100 =? 0) || (y mod 400 =? 0)).

Definition DAYS_IN_MONTH : list Z :=
  [-1; 31; 28; 31; 30; 31; 30; 31; 31; 30; 31; 30; 31].
Definition DAYS_BEFORE_MONTH : list Z :=
  [-1; 0; 31; 59; 90; 120; 151; 181; 212; 243; 273; 304; 334].

Definition days_in_month (y m : Z) : Z :=
  if (m =? 2) && is_leap y then 29 else nth (Z.to_nat m) DAYS_IN_MONTH 0.

Definition days_before_year (y : Z) : Z :=
  let y := y - 1 in y * 365 + y / 4 - y / 100 + y / 400.

Definition days_before_month (y m : Z) : Z :=
  nth (Z.to_nat m) DAYS_BEFORE_MONTH 0
  + (if (2 <? m) && is_leap y then 1 else 0).

Definition ymd2ord (y m d : Z) : Z :=
  days_before_year y + days_before_month y m + d.

Definition toordinal (d : date) : Z := ymd2ord (year d) (month d) (day d).

(** [date(y, m, d)]: [None] stands for the [ValueError] of an out-of-range
    field. *)
Definition new (y m d : Z) : option date :=
  if (MINYEAR <=? y) && (y <=? MAXYEAR) && (1 <=? m) && (m <=? 12)
     && (1 <=? d) && (d <=? days_in_month y m)
  then Some (mkDate y m d) else None.

(** [(a - b).days] *)
Definition days_between (a b : date) : Z := toordinal a - toordinal b.

(** Dates compare as the tuples (year, month, day). *)
Definition compare (a b : date) : comparison :=
  match year a ?= year b with
  | Eq => match month a ?= month b with
          | Eq => day a ?= day b
          | c => c
          end
  | c => c
  end.

Definition leb (a b : date) : bool :=
  match compare a b with Gt => false | _ => true end.

End Date.

(** ** Models ([tracker/models]) *)

Module Security.
Record t : Set := mk { pk : Z; ticker : string }.
End Security.

Module Transaction.
Inductive TransactionType : Set := BUY | SELL.

Record t : Set := mk {
  pk : Z;
  security : Security.t;
  trade_date : Date.date;
  transaction_type : TransactionType;
  quantity : Decimal;
  unit_price : Decimal;
  brokerage : Decimal;
  total_value : Decimal;
  exchange_rate : Decimal
}.

Definition security_id (x : t) : Z := Security.pk (security x).

Definition is_sell (x : t) : bool :=
  match transaction_type x with SELL => true | BUY => false end.
End Transaction.

Module Parcel.
Record t : Set := mk {
  pk : Z;
  security : Security.t;
  acquisition_date : Date.date;
  original_quantity : Decimal;
  remaining_quantity : Decimal;
  cost_per_unit_aud : Decimal;
  total_cost_base_aud : Decimal;
  is_fully_matched : bool
}.

Definition security_id (p : t) : Z := Security.pk (security p).

Definition set_remaining_quantity (q : Decimal) (p : t) : t :=
  mk (pk p) (security p) (acquisition_date p) (original_quantity p) q
     (cost_per_unit_aud p) (total_cost_base_aud p) (is_fully_matched p).

Definition set_is_fully_matched (b : bool) (p : t) : t :=
  mk (pk p) (security p) (acquisition_date p) (original_quantity p)
     (remaining_quantity p) (cost_per_unit_aud p) (total_cost_base_aud p) b.
End Parcel.

Module ParcelMatch.
Record t : Set := mk {
  parcel : Parcel.t;
  sell_transaction : Transaction.t;
  matched_quantity : Decimal;
  cost_base_aud : Decimal;
  proceeds_aud : Decimal;
  capital_gain_loss : Decimal;
  holding_period_days : Z;
  cgt_discount_eligible : bool;
  discount_amount : Decimal;
  net_capital_gain : Decimal
}.

Definition parcel_id (m : t) : Z := Parcel.pk (parcel m).

Definition set_parcel (p : Parcel.t) (m : t) : t :=
  mk p (sell_transaction m) (matched_quantity m) (cost_base_aud m)
     (proceeds_aud m) (capital_gain_loss m) (holding_period_days m)
     (cgt_discount_eligible m) (discount_amount m) (net_capital_gain m).
End ParcelMatch.

(** What [calculate_cgt] reads of a sell: a [Transaction] and the
    forecast's stand-in both provide it. *)
Class SellLike (T : Type) : Type := {
  sell_trade_date : T -> Date.date;
  sell_unit_price : T -> Decimal;
  sell_exchange_rate : T -> Decimal
}.

#[export] Instance Transaction_SellLike : SellLike Transaction.t := {
  sell_trade_date := Transaction.trade_date;
  sell_unit_price := Transaction.unit_price;
  sell_exchange_rate := Transaction.exchange_rate
}.

(** ** Errors, the database and its monad *)

Inductive MatchingError : Set :=
  | MustBeSell
  | UnknownStrategy (strategy : string)
  | InsufficientParcels (need available : Decimal)
  | ManualRequiresParcels
  | LengthMismatch
  | CannotMatch (qty : Decimal) (parcel_id : Z) (remaining : Decimal)
  | DifferentSecurity (parcel_id : Z)
  | TotalMismatch (total_matched sell_qty : Decimal)
  | RaceCondition (parcel_id : Z) (remaining matched : Decimal).

Inductive ForecastError : Set :=
  | QuantityNotPositive
  | PriceNotPositive
  | NoAvailableParcels (ticker : string)
  | InsufficientForecast (need available : Decimal) (ticker : string).

Inductive exn : Set :=
  | EMatching (e : MatchingError)
  | EForecast (e : ForecastError)
  | DoesNotExist
  | DatabaseError
  | ValueError.

Inductive result (A : Type) : Type :=
  | Ok (a : A)
  | Raise (e : exn).
Arguments Ok {A} a.
Arguments Raise {A} e.

Definition is_ok {A} (r : result A) : bool :=
  match r with Ok _ => true | Raise _ => false end.

(** The two tables the services touch. *)
Record DB : Type := mkDB {
  parcel_table : gmap Z Parcel.t;
  parcel_match_table : list ParcelMatch.t
}.

Definition M (A : Type) : Type := DB -> result A * DB.

Definition ret {A} (a : A) : M A := fun db => (Ok a, db).
Definition raise {A} (e : exn) : M A := fun db => (Raise e, db).
Definition bind {A B} (m : M A) (k : A -> M B) : M B :=
  fun db => match m db with
            | (Ok a, db') => k a db'
            | (Raise e, db') => (Raise e, db')
            end.

Notation "'do' x <- m ; k" := (bind m (fun x => k))
  (at level 10, x name, m at level 100, k at level 200).
Notation "'do_' m ; k" := (bind m (fun _ => k))
  (at level 10, m at level 100, k at level 200).

(** [@transaction.atomic]: an exception leaving the block rolls the
    database back to its state at entry. *)
Definition atomic {A} (m : M A) : M A :=
  fun db => match m db with
            | (Ok a, db') => (Ok a, db')
            | (Raise e, _) => (Raise e, db)
            end.

(** A read-only query. *)
Definition query {A} (f : DB -> A) : M A := fun db => (Ok (f db), db).

(** Stable insertion sort, standing for [order_by]. *)
Fixpoint insert_by {A} (le : A -> A -> bool) (x : A) (l : list A) : list A :=
  match l with
  | [] => [x]
  | y :: l' => if le x y then x :: l else y :: insert_by le x l'
  end.

Fixpoint sort_by {A} (le : A -> A -> bool) (l : list A) : list A :=
  match l with
  | [] => []
  | x :: l' => insert_by le x (sort_by le l')
  end.

Module ParcelObjects.

Definition all (db : DB) : list Parcel.t :=
  List.map snd (map_to_list (parcel_table db)).

(** [Parcel.objects.filter(security=..., remaining_quantity__gt=0)] *)
Definition available (security : Security.t) (db : DB) : list Parcel.t :=
  List.filter
    (fun p => (Parcel.security_id p =? Security.pk security)
              && (D0 <? Parcel.remaining_quantity p)%D)
    (all db).

Definition by_acquisition_date (a b : Parcel.t) : bool :=
  Date.leb (Parcel.acquisition_date a) (Parcel.acquisition_date b).
Definition by_acquisition_date_desc (a b : Parcel.t) : bool :=
  Date.leb (Parcel.acquisition_date b) (Parcel.acquisition_date a).
Definition by_cost_per_unit_desc (a b : Parcel.t) : bool :=
  (Parcel.cost_per_unit_aud b <=? Parcel.cost_per_unit_aud a)%D.

(** [Parcel.objects.select_for_update().get(pk=...)] *)
Definition get (pk : Z) : M Parcel.t :=
  fun db => match parcel_table db !! pk with
            | Some p => (Ok p, db)
            | None => (Raise DoesNotExist, db)
            end.

(** [parcel.save(update_fields=["remaining_quantity", "is_fully_matched"])] *)
Definition save (p : Parcel.t) : M unit :=
  fun db => match parcel_table db !! Parcel.pk p with
            | Some row =>
                let row' :=
                  Parcel.set_is_fully_matched (Parcel.is_fully_matched p)
                    (Parcel.set_remaining_quantity
                       (Parcel.remaining_quantity p) row) in
                (Ok tt, mkDB (<[Parcel.pk p := row']> (parcel_table db))
                          (parcel_match_table db))
            | None => (Raise DatabaseError, db)
            end.

End ParcelObjects.

Module ParcelMatchObjects.

(** [match_obj.save()] of a new row. *)
Definition save (m : ParcelMatch.t) : M unit :=
  fun db => (Ok tt, mkDB (parcel_table db) (parcel_match_table db ++ [m])).

Definition by_parcel_acquisition_date (a b : ParcelMatch.t) : bool :=
  ParcelObjects.by_acquisition_date (ParcelMatch.parcel a) (ParcelMatch.parcel b).

End ParcelMatchObjects.

(** ** Tax calculator and financial-year summary ([services/cgt.py]) *)

Module cgt.

Record result_dict : Set := mkCgt {
  cost_base_aud : Decimal;
  proceeds_aud : Decimal;
  capital_gain_loss : Decimal;
  holding_period_days : Z;
  cgt_discount_eligible : bool;
  discount_amount : Decimal;
  net_capital_gain : Decimal
}.

Definition calculate_cgt {T} `{SellLike T}
    (parcel : Parcel.t) (sell_transaction : T) (matched_quantity : Decimal)
    : result_dict :=
  let cost_base_aud := (Parcel.cost_per_unit_aud parcel * matched_quantity)%D in
  let sell_rate := sell_exchange_rate sell_transaction in
  let proceeds_per_unit := (sell_unit_price sell_transaction * sell_rate)%D in
  let proceeds_aud := (proceeds_per_unit * matched_quantity)%D in
  let capital_gain_loss := (proceeds_aud - cost_base_aud)%D in
  let holding_period_days :=
    Date.days_between (sell_trade_date sell_transaction)
                      (Parcel.acquisition_date parcel) in
  let cgt_discount_eligible :=
    (365 <? holding_period_days) && (D0 <? capital_gain_loss)%D in
  let discount_amount :=
    if cgt_discount_eligible then (capital_gain_loss * Dhalf)%D else D0 in
  let net_capital_gain := (capital_gain_loss - discount_amount)%D in
  mkCgt cost_base_aud proceeds_aud capital_gain_loss holding_period_days
        cgt_discount_eligible discount_amount net_capital_gain.

Definition get_fy_range (financial_year : Z) : option (Date.date * Date.date) :=
  match Date.new (financial_year - 1) 7 1 with
  | Some start =>
      match Date.new financial_year 6 30 with
      | Some end_ => Some (start, end_)
      | None => None
      end
  | None => None
  end.

(** One entry of the per-security breakdown. *)
Record sec_dict : Set := mkSec {
  sec_ticker : string;
  sec_gains : Decimal;
  sec_losses : Decimal;
  sec_discounts : Decimal;
  sec_net : Decimal;
  sec_match_count : Z
}.

Record summary : Type := mkSummary {
  financial_year : Z;
  start_date : Date.date;
  end_date : Date.date;
  total_gains : Decimal;
  total_losses : Decimal;
  total_discounts : Decimal;
  net_capital_gain_total : Decimal;
  match_count : Z;
  per_security : list sec_dict
}.

(** The accumulators of the loop of [fy_summary]. *)
Record acc : Type := mkAcc {
  acc_gains : Decimal;
  acc_losses : Decimal;
  acc_discounts : Decimal;
  acc_net : Decimal;
  acc_per_security : gmap string sec_dict
}.

Definition acc0 : acc := mkAcc D0 D0 D0 D0 ∅.

Definition match_ticker (m : ParcelMatch.t) : string :=
  Security.ticker (Parcel.security (ParcelMatch.parcel m)).

Definition sec_add (m : ParcelMatch.t) (sec : sec_dict) : sec_dict :=
  let gl := ParcelMatch.capital_gain_loss m in
  mkSec (sec_ticker sec)
        (if (D0 <? gl)%D then (sec_gains sec + gl)%D else sec_gains sec)
        (if (D0 <? gl)%D then sec_losses sec else (sec_losses sec + gl)%D)
        (sec_discounts sec + ParcelMatch.discount_amount m)%D
        (sec_net sec + ParcelMatch.net_capital_gain m)%D
        (sec_match_count sec + 1).

Definition fy_step (a : acc) (m : ParcelMatch.t) : acc :=
  let ticker := match_ticker m in
  let gl := ParcelMatch.capital_gain_loss m in
  let total_gains := if (D0 <? gl)%D then (acc_gains a + gl)%D else acc_gains a in
  let total_losses := if (D0 <? gl)%D then acc_losses a else (acc_losses a + gl)%D in
  let total_discounts := (acc_discounts a + ParcelMatch.discount_amount m)%D in
  let total_net := (acc_net a + ParcelMatch.net_capital_gain m)%D in
  let per_security :=
    match acc_per_security a !! ticker with
    | Some _ => acc_per_security a
    | None => <[ticker := mkSec ticker D0 D0 D0 D0 0]> (acc_per_security a)
    end in
  let per_security :=
    match per_security !! ticker with
    | Some sec => <[ticker := sec_add m sec]> per_security
    | None => per_security
    end in
  mkAcc total_gains total_losses total_discounts total_net per_security.

Definition in_range (fy_start fy_end : Date.date) (m : ParcelMatch.t) : bool :=
  let d := Transaction.trade_date (ParcelMatch.sell_transaction m) in
  Date.leb fy_start d && Date.leb d fy_end.

(** [ParcelMatch.objects.filter(sell_transaction__trade_date__gte=fy_start,
    sell_transaction__trade_date__lte=fy_end)], in the model's default
    ordering. *)
Definition matches_in_range (fy_start fy_end : Date.date) (db : DB)
    : list ParcelMatch.t :=
  sort_by ParcelMatchObjects.by_parcel_acquisition_date
    (List.filter (in_range fy_start fy_end) (parcel_match_table db)).

Definition by_ticker (a b : sec_dict) : bool :=
  String.leb (sec_ticker a) (sec_ticker b).

Definition fy_summary (financial_year : Z) : M summary :=
  match get_fy_range financial_year with
  | None => raise ValueError
  | Some (fy_start, fy_end) =>
      do matches <- query (matches_in_range fy_start fy_end);
      let a := fold_left fy_step matches acc0 in
      ret (mkSummary financial_year fy_start fy_end
             (acc_gains a) (acc_losses a) (acc_discounts a) (acc_net a)
             (Z.of_nat (length matches))
             (sort_by by_ticker
                (List.map snd (map_to_list (acc_per_security a)))))
  end.

End cgt.

(** ** Allocation and commit engines ([services/matching.py]) *)

Module matching.

Definition _build_match (parcel : Parcel.t) (sell_transaction : Transaction.t)
    (qty : Decimal) : ParcelMatch.t :=
  let c := cgt.calculate_cgt parcel sell_transaction qty in
  ParcelMatch.mk parcel sell_transaction qty
    (cgt.cost_base_aud c) (cgt.proceeds_aud c) (cgt.capital_gain_loss c)
    (cgt.holding_period_days c) (cgt.cgt_discount_eligible c)
    (cgt.discount_amount c) (cgt.net_capital_gain c).

(** The [for parcel in available_parcels] loop of [_match_auto]. *)
Fixpoint auto_loop (sell_transaction : Transaction.t)
    (available_parcels : list Parcel.t)
    (matches : list ParcelMatch.t) (remaining : Decimal)
    : list ParcelMatch.t * Decimal :=
  match available_parcels with
  | [] => (matches, remaining)
  | parcel :: rest =>
      if (remaining <=? D0)%D then (matches, remaining)
      else
        let qty_from_parcel := Dmin (Parcel.remaining_quantity parcel) remaining in
        auto_loop sell_transaction rest
          (matches ++ [_build_match parcel sell_transaction qty_from_parcel])
          (remaining - qty_from_parcel)%D
  end.

Definition order_of (strategy : string) : Parcel.t -> Parcel.t -> bool :=
  if String.eqb strategy "fifo" then ParcelObjects.by_acquisition_date
  else ParcelObjects.by_acquisition_date_desc.

Definition available_parcels (sell_transaction : Transaction.t)
    (strategy : string) (db : DB) : list Parcel.t :=
  sort_by (order_of strategy)
    (ParcelObjects.available (Transaction.security sell_transaction) db).

Definition _match_auto (sell_transaction : Transaction.t) (sell_qty : Decimal)
    (strategy : string) : M (list ParcelMatch.t) :=
  do available <- query (available_parcels sell_transaction strategy);
  let '(matches, remaining) := auto_loop sell_transaction available [] sell_qty in
  if (D0 <? remaining)%D
  then raise (EMatching (InsufficientParcels sell_qty (sell_qty - remaining)%D))
  else ret matches.

(** The [for parcel, qty in zip(parcels, quantities)] loop of
    [_match_manual]. *)
Fixpoint manual_loop (sell_transaction : Transaction.t)
    (pairs : list (Parcel.t * Decimal))
    (matches : list ParcelMatch.t) (total_matched : Decimal)
    : result (list ParcelMatch.t * Decimal) :=
  match pairs with
  | [] => Ok (matches, total_matched)
  | (parcel, qty) :: rest =>
      if (qty <=? D0)%D then manual_loop sell_transaction rest matches total_matched
      else if (Parcel.remaining_quantity parcel <? qty)%D
      then Raise (EMatching (CannotMatch qty (Parcel.pk parcel)
                               (Parcel.remaining_quantity parcel)))
      else if negb (Parcel.security_id parcel
                    =? Transaction.security_id sell_transaction)
      then Raise (EMatching (DifferentSecurity (Parcel.pk parcel)))
      else manual_loop sell_transaction rest
             (matches ++ [_build_match parcel sell_transaction qty])
             (total_matched + qty)%D
  end.

Definition is_empty {A} (l : option (list A)) : bool :=
  match l with
  | None | Some [] => true
  | Some (_ :: _) => false
  end.

Definition _match_manual (sell_transaction : Transaction.t) (sell_qty : Decimal)
    (parcels : option (list Parcel.t)) (quantities : option (list Decimal))
    : result (list ParcelMatch.t) :=
  if is_empty parcels || is_empty quantities
  then Raise (EMatching ManualRequiresParcels)
  else
    let parcels := default [] parcels in
    let quantities := default [] quantities in
    if negb (length parcels =? length quantities)%nat
    then Raise (EMatching LengthMismatch)
    else
      match manual_loop sell_transaction (combine parcels quantities) [] D0 with
      | Raise e => Raise e
      | Ok (matches, total_matched) =>
          if negb (total_matched =? sell_qty)%D
          then Raise (EMatching (TotalMismatch total_matched sell_qty))
          else Ok matches
      end.

Definition lift {A} (r : result A) : M A := fun db => (r, db).

(** [match] (a keyword here, hence the underscore). *)
Definition match_ (sell_transaction : Transaction.t) (strategy : string)
    (parcels : option (list Parcel.t)) (quantities : option (list Decimal))
    : M (list ParcelMatch.t) :=
  if negb (Transaction.is_sell sell_transaction)
  then raise (EMatching MustBeSell)
  else
    let sell_qty := Transaction.quantity sell_transaction in
    if String.eqb strategy "manual"
    then lift (_match_manual sell_transaction sell_qty parcels quantities)
    else if String.eqb strategy "fifo" || String.eqb strategy "lifo"
    then _match_auto sell_transaction sell_qty strategy
    else raise (EMatching (UnknownStrategy strategy)).

(** One turn of the loop of [confirm_matches]. *)
Definition confirm_one (match_obj : ParcelMatch.t) : M ParcelMatch.t :=
  do parcel <- ParcelObjects.get (ParcelMatch.parcel_id match_obj);
  if (Parcel.remaining_quantity parcel <? ParcelMatch.matched_quantity match_obj)%D
  then raise (EMatching (RaceCondition (Parcel.pk parcel)
                           (Parcel.remaining_quantity parcel)
                           (ParcelMatch.matched_quantity match_obj)))
  else
    let parcel :=
      Parcel.set_remaining_quantity
        (Parcel.remaining_quantity parcel
         - ParcelMatch.matched_quantity match_obj)%D parcel in
    let parcel :=
      if (Parcel.remaining_quantity parcel =? D0)%D
      then Parcel.set_is_fully_matched true parcel else parcel in
    do_ ParcelObjects.save parcel;
    let match_obj := ParcelMatch.set_parcel parcel match_obj in
    do_ ParcelMatchObjects.save match_obj;
    ret match_obj.

Fixpoint confirm_loop (matches saved : list ParcelMatch.t)
    : M (list ParcelMatch.t) :=
  match matches with
  | [] => ret saved
  | match_obj :: rest =>
      do match_obj' <- confirm_one match_obj;
      confirm_loop rest (saved ++ [match_obj'])
  end.

Definition confirm_matches (matches : list ParcelMatch.t)
    : M (list ParcelMatch.t) :=
  atomic (confirm_loop matches []).

End matching.

(** ** Forecast engine ([services/forecasting.py]) *)

Module forecasting.

Record _FakeSellTransaction : Set := mkFake {
  fake_security : Security.t;
  fake_security_id : Z;
  fake_trade_date : Date.date;
  fake_unit_price : Decimal;
  fake_exchange_rate : Decimal;
  fake_transaction_type : Transaction.TransactionType
}.

#[export] Instance Fake_SellLike : SellLike _FakeSellTransaction := {
  sell_trade_date := fake_trade_date;
  sell_unit_price := fake_unit_price;
  sell_exchange_rate := fake_exchange_rate
}.

Record consumed : Set := mkConsumed {
  parcel_id : Z;
  acquisition_date : Date.date;
  matched_quantity : Decimal;
  cost_per_unit_aud : Decimal;
  cgt_fields : cgt.result_dict
}.

Record strategy_result : Set := mkResult {
  parcels_consumed : list consumed;
  total_cost_base : Decimal;
  total_proceeds : Decimal;
  total_gain_loss : Decimal;
  total_discount : Decimal;
  total_net_gain : Decimal;
  quantity_matched : Decimal;
  quantity_shortfall : Decimal
}.

(** The local variables of the loop of [_simulate_strategy]. *)
Record sim_state : Set := mkSim {
  sim_consumed : list consumed;
  sim_remaining : Decimal;
  sim_cost_base : Decimal;
  sim_proceeds : Decimal;
  sim_gain_loss : Decimal;
  sim_discount : Decimal;
  sim_net_gain : Decimal
}.

Fixpoint simulate_loop (fake_sell : _FakeSellTransaction)
    (parcels : list Parcel.t) (s : sim_state) : sim_state :=
  match parcels with
  | [] => s
  | parcel :: rest =>
      if (sim_remaining s <=? D0)%D then s
      else
        let qty := Dmin (Parcel.remaining_quantity parcel) (sim_remaining s) in
        let c := cgt.calculate_cgt parcel fake_sell qty in
        simulate_loop fake_sell rest
          (mkSim
             (sim_consumed s
              ++ [mkConsumed (Parcel.pk parcel) (Parcel.acquisition_date parcel)
                    qty (Parcel.cost_per_unit_aud parcel) c])
             (sim_remaining s - qty)%D
             (sim_cost_base s + cgt.cost_base_aud c)%D
             (sim_proceeds s + cgt.proceeds_aud c)%D
             (sim_gain_loss s + cgt.capital_gain_loss c)%D
             (sim_discount s + cgt.discount_amount c)%D
             (sim_net_gain s + cgt.net_capital_gain c)%D)
  end.

Definition _simulate_strategy (parcels : list Parcel.t) (security : Security.t)
    (quantity sell_price : Decimal) (sell_date : Date.date) : strategy_result :=
  let fake_sell :=
    mkFake security (Security.pk security) sell_date sell_price D1
           Transaction.SELL in
  let s := simulate_loop fake_sell parcels (mkSim [] quantity D0 D0 D0 D0 D0) in
  mkResult (sim_consumed s) (sim_cost_base s) (sim_proceeds s)
           (sim_gain_loss s) (sim_discount s) (sim_net_gain s)
           (quantity - sim_remaining s)%D (sim_remaining s).

Record forecast_dict : Set := mkForecast {
  f_security : Security.t;
  f_quantity : Decimal;
  f_sell_price : Decimal;
  f_sell_date : Date.date;
  fifo : strategy_result;
  lifo : strategy_result;
  optimal : strategy_result
}.

(** [base_qs] iterated without an explicit [order_by]: the model's default
    ordering. *)
Definition base_qs (security : Security.t) (db : DB) : list Parcel.t :=
  sort_by ParcelObjects.by_acquisition_date (ParcelObjects.available security db).

Definition total_available (security : Security.t) (db : DB) : Decimal :=
  Dsum (List.map Parcel.remaining_quantity (base_qs security db)).

(** [today] is the value of [date.today()] at the call. *)
Definition forecast (today : Date.date) (security : Security.t)
    (quantity sell_price : Decimal) (sell_date : option Date.date)
    : M forecast_dict :=
  let sell_date := default today sell_date in
  if (quantity <=? D0)%D then raise (EForecast QuantityNotPositive)
  else if (sell_price <=? D0)%D then raise (EForecast PriceNotPositive)
  else
    do exists_ <- query (fun db =>
                    negb (length (ParcelObjects.available security db) =? 0)%nat);
    if negb exists_
    then raise (EForecast (NoAvailableParcels (Security.ticker security)))
    else
      do total <- query (total_available security);
      if (total <? quantity)%D
      then raise (EForecast (InsufficientForecast quantity total
                               (Security.ticker security)))
      else
        do fifo_parcels <-
          query (fun db => sort_by ParcelObjects.by_acquisition_date
                             (ParcelObjects.available security db));
        let fifo_result :=
          _simulate_strategy fifo_parcels security quantity sell_price sell_date in
        do lifo_parcels <-
          query (fun db => sort_by ParcelObjects.by_acquisition_date_desc
                             (ParcelObjects.available security db));
        let lifo_result :=
          _simulate_strategy lifo_parcels security quantity sell_price sell_date in
        do optimal_parcels <-
          query (fun db => sort_by ParcelObjects.by_cost_per_unit_desc
                             (ParcelObjects.available security db));
        let optimal_result :=
          _simulate_strategy optimal_parcels security quantity sell_price
                             sell_date in
        ret (mkForecast security quantity sell_price sell_date
               fifo_result lifo_result optimal_result).

End forecasting.

(** ** The financial-year summary in the specification's words

    The summary of a year, written as sums over the allocations of the
    window, to be compared with the loop of [cgt.fy_summary]. *)

Module FySpec.

Definition fy_start (year : Z) : Date.date := Date.mkDate (year - 1) 7 1.
Definition fy_end (year : Z) : Date.date := Date.mkDate year 6 30.

(** The disposal date lies in the window of [year], both ends included. *)
Definition in_window (year : Z) (d : Date.date) : bool :=
  Date.leb (fy_start year) d && Date.leb d (fy_end year).

Definition disposal_date (m : ParcelMatch.t) : Date.date :=
  Transaction.trade_date (ParcelMatch.sell_transaction m).

Definition is_gain (m : ParcelMatch.t) : bool :=
  (D0 <? ParcelMatch.capital_gain_loss m)%D.

Definition sum_gains (ms : list ParcelMatch.t) : Decimal :=
  Dsum (List.map ParcelMatch.capital_gain_loss (List.filter is_gain ms)).
Definition sum_losses (ms : list ParcelMatch.t) : Decimal :=
  Dsum (List.map ParcelMatch.capital_gain_loss
          (List.filter (fun m => negb (is_gain m)) ms)).
Definition sum_discounts (ms : list ParcelMatch.t) : Decimal :=
  Dsum (List.map ParcelMatch.discount_amount ms).
Definition sum_net (ms : list ParcelMatch.t) : Decimal :=
  Dsum (List.map ParcelMatch.net_capital_gain ms).

Definition for_ticker (t : string) (ms : list ParcelMatch.t)
    : list ParcelMatch.t :=
  List.filter (fun m => String.eqb (cgt.match_ticker m) t) ms.

Definition sec_entry (t : string) (ms : list ParcelMatch.t) : cgt.sec_dict :=
  let mine := for_ticker t ms in
  cgt.mkSec t (sum_gains mine) (sum_losses mine) (sum_discounts mine)
    (sum_net mine) (Z.of_nat (length mine)).

End FySpec.

(** ** The commit in the specification's words *)

Module CommitSpec.

(** Primary keys: the row stored under [k] has [pk = k]. *)
Definition table_wf (tbl : gmap Z Parcel.t) : Prop :=
  forall k row, tbl !! k = Some row -> Parcel.pk row = k.

(** Every proposed allocation refers to a stored parcel. *)
Definition refs_exist (ms : list ParcelMatch.t) (tbl : gmap Z Parcel.t) : Prop :=
  forall m, In m ms -> is_Some (tbl !! ParcelMatch.parcel_id m).

(** A row after [q] units are taken from it: the remaining quantity goes
    down by [q] and the depleted flag is set when it reaches zero. *)
Definition debited (q : Decimal) (row : Parcel.t) : Parcel.t :=
  let r := (Parcel.remaining_quantity row - q)%D in
  Parcel.set_is_fully_matched
    (if (r =? D0)%D then true else Parcel.is_fully_matched row)
    (Parcel.set_remaining_quantity r row).

Definition debit (m : ParcelMatch.t) (tbl : gmap Z Parcel.t) : gmap Z Parcel.t :=
  match tbl !! ParcelMatch.parcel_id m with
  | Some row =>
      <[ParcelMatch.parcel_id m := debited (ParcelMatch.matched_quantity m) row]> tbl
  | None => tbl
  end.

Definition debit_all (ms : list ParcelMatch.t) (tbl : gmap Z Parcel.t)
    : gmap Z Parcel.t :=
  fold_left (fun t m => debit m t) ms tbl.

(** The matched quantity exceeds the remaining quantity read from [tbl]. *)
Definition exceeds (m : ParcelMatch.t) (tbl : gmap Z Parcel.t) : bool :=
  match tbl !! ParcelMatch.parcel_id m with
  | Some row => (Parcel.remaining_quantity row <? ParcelMatch.matched_quantity m)%D
  | None => false
  end.

(** Some allocation of the list exceeds the remaining quantity of its
    parcel as re-read at its turn, after the allocations before it. *)
Fixpoint lost_race (ms : list ParcelMatch.t) (tbl : gmap Z Parcel.t) : bool :=
  match ms with
  | [] => false
  | m :: rest => exceeds m tbl || lost_race rest (debit m tbl)
  end.

(** A saved allocation is the proposed one, attached to its updated parcel. *)
Definition persisted (m saved : ParcelMatch.t) : Prop :=
  saved = ParcelMatch.set_parcel (ParcelMatch.parcel saved) m
  /\ ParcelMatch.parcel_id saved = ParcelMatch.parcel_id m.

(** The invariant of a parcel. *)
Definition parcel_inv (row : Parcel.t) : Prop :=
  (D0 <=? Parcel.remaining_quantity row)%D = true
  /\ (Parcel.remaining_quantity row <=? Parcel.original_quantity row)%D = true
  /\ Parcel.is_fully_matched row = (Parcel.remaining_quantity row =? D0)%D.

(** The quantities of a row are whole numbers of [10 ^ (- s)] and fit the
    decimal precision. *)
Definition parcel_on_grid (s : Z) (row : Parcel.t) : Prop :=
  on_grid s (Parcel.remaining_quantity row)
  /\ on_grid s (Parcel.original_quantity row)
  /\ units s (Parcel.original_quantity row) < 10 ^ prec.

End CommitSpec.

(** ** The allocation in the specification's words *)

Module AllocSpec.

(** Consume the lots in order until the need is met, taking
    [min(lot.remaining, stillNeeded)] from each. *)
Fixpoint greedy (caps : list Z) (need : Z) : list Z :=
  match caps with
  | [] => []
  | c :: cs =>
      if need <=? 0 then []
      else Z.min c need :: greedy cs (need - Z.min c need)
  end.

Definition total (xs : list Z) : Z := fold_right Z.add 0 xs.

(** A lot of the disposal's security with something left. *)
Definition eligible (security : Security.t) (p : Parcel.t) : bool :=
  (Parcel.security_id p =? Security.pk security)
  && (D0 <? Parcel.remaining_quantity p)%D.

(** A proposal is what the tax calculator gives for its lot, the disposal
    and its matched quantity. *)
Definition built_for (sell : Transaction.t) (m : ParcelMatch.t) : Prop :=
  m = matching._build_match (ParcelMatch.parcel m) sell
        (ParcelMatch.matched_quantity m).

Definition remaining_units (s : Z) (p : Parcel.t) : Z :=
  units s (Parcel.remaining_quantity p).
Definition matched_units (s : Z) (m : ParcelMatch.t) : Z :=
  units s (ParcelMatch.matched_quantity m).

Definition by_date_asc (a b : Parcel.t) : Prop :=
  Date.leb (Parcel.acquisition_date a) (Parcel.acquisition_date b) = true.
Definition by_date_desc (a b : Parcel.t) : Prop :=
  Date.leb (Parcel.acquisition_date b) (Parcel.acquisition_date a) = true.

End AllocSpec.

(** ** Manual allocation in the specification's words *)

Module ManualSpec.

(** The supplied pairs whose quantity is above zero. *)
Definition positive_pairs (ps : list Parcel.t) (qs : list Decimal)
    : list (Parcel.t * Decimal) :=
  List.filter (fun pq => negb (snd pq <=? D0)%D) (combine ps qs).

(** The quantity is at most the lot's remaining quantity and the lot
    belongs to the disposal's security. *)
Definition pair_ok (sell : Transaction.t) (pq : Parcel.t * Decimal) : bool :=
  negb (Parcel.remaining_quantity (fst pq) <? snd pq)%D
  && (Parcel.security_id (fst pq) =? Transaction.security_id sell).

Definition acceptable (sell : Transaction.t) (ps : list Parcel.t)
    (qs : list Decimal) : bool :=
  negb (length ps =? 0)%nat && negb (length qs =? 0)%nat
  && (length ps =? length qs)%nat
  && forallb (pair_ok sell) (positive_pairs ps qs)
  && (Dsum (List.map snd (positive_pairs ps qs)) =? Transaction.quantity sell)%D.

Definition proposals (sell : Transaction.t) (ps : list Parcel.t)
    (qs : list Decimal) : list ParcelMatch.t :=
  List.map (fun pq => matching._build_match (fst pq) sell (snd pq))
    (positive_pairs ps qs).

End ManualSpec.

(** ** Forecast lines and allocations with the same figures *)

Module ForecastSpec.



End ForecastSpec.

(** ** What a commit leaves of the parcels *)

Module CommitFrame.

(** What a commit leaves of a row: everything but the remaining quantity
    and the depleted flag, and a flag once set stays set. *)
Definition same_lot (row row' : Parcel.t) : Prop :=
  Parcel.pk row' = Parcel.pk row
  /\ Parcel.security row' = Parcel.security row
  /\ Parcel.acquisition_date row' = Parcel.acquisition_date row
  /\ Parcel.original_quantity row' = Parcel.original_quantity row
  /\ Parcel.cost_per_unit_aud row' = Parcel.cost_per_unit_aud row
  /\ Parcel.total_cost_base_aud row' = Parcel.total_cost_base_aud row
  /\ (Parcel.is_fully_matched row = true -> Parcel.is_fully_matched row' = true).


End CommitFrame.

(** ** The report views ([views/reports.py]) *)

Module reports.

Record fy_entry : Set := mkFy { fy : Z; label : string }.

(** [s[n:]] *)
Fixpoint drop_chars (n : nat) (s : string) : string :=
  match n, s with
  | O, _ => s
  | S n', String _ s' => drop_chars n' s'
  | S _, EmptyString => EmptyString
  end.

(** [f"FY{fy - 1}-{str(fy)[2:]}"] *)
Definition fy_label (fy : Z) : string :=
  "FY" +:+ pretty (fy - 1) +:+ "-" +:+ drop_chars 2 (pretty fy).

(** The financial year a sell date is put in: the next year from July on. *)
Definition fy_of (d : Date.date) : Z :=
  if 7 <=? Date.month d then Date.year d + 1 else Date.year d.

Definition date_eqb (a b : Date.date) : bool :=
  (Date.year a =? Date.year b) && (Date.month a =? Date.month b)
  && (Date.day a =? Date.day b).

Fixpoint distinct (l : list Date.date) : list Date.date :=
  match l with
  | [] => []
  | d :: l' => if existsb (date_eqb d) l' then distinct l' else d :: distinct l'
  end.

(** [ParcelMatch.objects.values_list("sell_transaction__trade_date",
    flat=True).distinct().order_by("sell_transaction__trade_date")] *)
Definition sell_dates (db : DB) : list Date.date :=
  sort_by Date.leb
    (distinct
       (List.map (fun m => Transaction.trade_date (ParcelMatch.sell_transaction m))
          (parcel_match_table db))).

Definition _get_available_fys : M (list fy_entry) :=
  do dates <- query sell_dates;
  let fys := fold_left (fun (fys : gset Z) d => fys ∪ {[ fy_of d ]}) dates ∅ in
  ret (List.map (fun y => mkFy y (fy_label y))
         (sort_by (fun a b => b <=? a) (elements fys))).

End reports.

(** ** The matching views ([views/matching.py]) *)

Module views_matching.

(** What the views keep in [request.session] for a sell, under the key
    [pending_matches_<sell_id>]: the parcel id and the matched quantity of
    every previewed proposal.  The quantity is written with [str] and read
    back with [Decimal], which gives the same decimal. *)
Definition pending_item : Type := Z * Decimal.
Definition pending_matches : Type := list pending_item.

(** The template contexts the views render. *)
Inductive response : Type :=
  | Http404
  | PreviewError (e : MatchingError) (sell : Transaction.t)
  | Preview (matches : list ParcelMatch.t) (sell : Transaction.t)
      (strategy : string)
  | NoPendingMatches (sell : Transaction.t)
  | InvalidMatchData (sell : Transaction.t)
  | ConfirmError (e : MatchingError) (sell : Transaction.t)
  | Confirmed (matches : list ParcelMatch.t) (sell : Transaction.t).

Definition to_pending (matches : list ParcelMatch.t) : pending_matches :=
  List.map (fun m => (ParcelMatch.parcel_id m, ParcelMatch.matched_quantity m))
    matches.

(** [auto_match]: the sell is looked up in the transactions; the proposals
    are shown and kept in the session; a [MatchingError] is shown, any
    other exception leaves the view. *)
Definition auto_match (transactions : gmap Z Transaction.t) (sell_id : Z)
    (strategy : option string) (sess : gmap Z pending_matches)
    : M (response * gmap Z pending_matches) :=
  match transactions !! sell_id with
  | None => ret (Http404, sess)
  | Some sell =>
      let strategy := default "fifo" strategy in
      fun db =>
        match matching.match_ sell strategy None None db with
        | (Ok matches, db') =>
            (Ok (Preview matches sell strategy,
                 <[sell_id := to_pending matches]> sess), db')
        | (Raise (EMatching e), db') => (Ok (PreviewError e sell, sess), db')
        | (Raise e, db') => (Raise e, db')
        end
  end.

(** The loop of [confirm_match] that reads the lots of the pending items
    back from the database. *)
Fixpoint rebuild (pending : pending_matches)
    (parcels_list : list Parcel.t) (quantities_list : list Decimal)
    : M (list Parcel.t * list Decimal) :=
  match pending with
  | [] => ret (parcels_list, quantities_list)
  | (parcel_id, qty) :: rest =>
      do parcel <- ParcelObjects.get parcel_id;
      rebuild rest (parcels_list ++ [parcel]) (quantities_list ++ [qty])
  end.

(** [confirm_match]: the pending items are taken out of the session, the
    proposals are computed again with the manual strategy and committed. *)
Definition confirm_match (transactions : gmap Z Transaction.t) (sell_id : Z)
    (sess : gmap Z pending_matches) : M (response * gmap Z pending_matches) :=
  match transactions !! sell_id with
  | None => ret (Http404, sess)
  | Some sell =>
      let pending := sess !! sell_id in
      let sess := delete sell_id sess in
      match pending with
      | None | Some [] => ret (NoPendingMatches sell, sess)
      | Some items =>
          fun db =>
            match rebuild items [] [] db with
            | (Raise DoesNotExist, db') => (Ok (InvalidMatchData sell, sess), db')
            | (Raise e, db') => (Raise e, db')
            | (Ok (parcels_list, quantities_list), db') =>
                match (do matches <- matching.match_ sell "manual"
                                       (Some parcels_list) (Some quantities_list);
                       matching.confirm_matches matches) db' with
                | (Ok saved, db'') => (Ok (Confirmed saved sell, sess), db'')
                | (Raise (EMatching e), db'') =>
                    (Ok (ConfirmError e sell, sess), db'')
                | (Raise e, db'') => (Raise e, db'')
                end
            end
      end
  end.

(** One row of the list of [unmatched_sells]. *)
Record unmatched_row : Set := mkUnmatched {
  transaction : Transaction.t;
  matched_qty : Decimal;
  remaining_qty : Decimal
}.

(** [Transaction.objects.filter(transaction_type=SELL)
    .order_by("-trade_date")] *)
Definition sells (transactions : gmap Z Transaction.t) : list Transaction.t :=
  sort_by (fun a b => Date.leb (Transaction.trade_date b) (Transaction.trade_date a))
    (List.filter Transaction.is_sell (List.map snd (map_to_list transactions))).

(** [sell.parcel_matches.all()], in the default order of [ParcelMatch]. *)
Definition parcel_matches (sell : Transaction.t) (db : DB) : list ParcelMatch.t :=
  sort_by ParcelMatchObjects.by_parcel_acquisition_date
    (List.filter
       (fun m => Transaction.pk (ParcelMatch.sell_transaction m)
                 =? Transaction.pk sell)
       (parcel_match_table db)).

(** The [for sell in sells] loop of [unmatched_sells]. *)
Fixpoint unmatched_loop (sells : list Transaction.t)
    (unmatched : list unmatched_row) (db : DB) : list unmatched_row :=
  match sells with
  | [] => unmatched
  | sell :: rest =>
      let matched_qty :=
        Dsum (List.map ParcelMatch.matched_quantity (parcel_matches sell db)) in
      if (matched_qty <? Transaction.quantity sell)%D
      then unmatched_loop rest
             (unmatched
              ++ [mkUnmatched sell matched_qty
                    (Transaction.quantity sell - matched_qty)%D]) db
      else unmatched_loop rest unmatched db
  end.

Definition unmatched_sells (transactions : gmap Z Transaction.t)
    : M (list unmatched_row) :=
  query (unmatched_loop (sells transactions) []).

End views_matching.

(** ** Proposals that can be computed again *)

Module PreviewSpec.

(** What the manual strategy accepts of a list of proposals: each is what
    the tax calculator gives, for a lot of the sell's security, with a
    quantity above zero and not above the remaining quantity of its lot. *)
Definition replayable (sell : Transaction.t) (m : ParcelMatch.t) : Prop :=
  AllocSpec.built_for sell m
  /\ Parcel.security_id (ParcelMatch.parcel m) = Transaction.security_id sell
  /\ (D0 <? ParcelMatch.matched_quantity m)%D = true
  /\ (Parcel.remaining_quantity (ParcelMatch.parcel m)
      <? ParcelMatch.matched_quantity m)%D = false.

End PreviewSpec.

(** ** The lines of a forecast *)

Module ForecastLines.

(** The line the simulation writes for a lot: the lot's key, date and cost
    per unit, the figures of the tax calculator for the quantity taken, a
    quantity not above the lot's remaining quantity, and above zero when
    the lot holds something. *)
Definition line_of (fake : forecasting._FakeSellTransaction) (p : Parcel.t)
    (c : forecasting.consumed) : Prop :=
  forecasting.parcel_id c = Parcel.pk p
  /\ forecasting.acquisition_date c = Parcel.acquisition_date p
  /\ forecasting.cost_per_unit_aud c = Parcel.cost_per_unit_aud p
  /\ forecasting.cgt_fields c
     = @cgt.calculate_cgt _ forecasting.Fake_SellLike p fake
         (forecasting.matched_quantity c)
  /\ (Parcel.remaining_quantity p <? forecasting.matched_quantity c)%D = false
  /\ ((D0 <? Parcel.remaining_quantity p)%D = true ->
      (D0 <? forecasting.matched_quantity c)%D = true).

End ForecastLines.

(** ** Allocations of a quantity over lots, in whole units *)

Module OptimalSpec.

(** A lot is its cost per unit and its capacity; an allocation gives each
    lot the units taken from it. *)
Definition lot : Type := Z * Z.
Definition cost (l : lot) : Z := fst l.
Definition cap (l : lot) : Z := snd l.

Definition value (T : list (lot * Z)) : Z :=
  AllocSpec.total (List.map (fun lu => cost (fst lu) * snd lu) T).
Definition amount (T : list (lot * Z)) : Z :=
  AllocSpec.total (List.map snd T).
Definition feasible (T : list (lot * Z)) : Prop :=
  Forall (fun lu => 0 <= snd lu <= cap (fst lu)) T.

(** The greedy allocation of [n] units over the lots in their order, with
    a zero for every lot it does not reach, and its cost. *)
Fixpoint galloc (L : list lot) (n : Z) : list Z :=
  match L with
  | [] => []
  | l :: L' => Z.min (cap l) n :: galloc L' (n - Z.min (cap l) n)
  end.

Fixpoint gval (L : list lot) (n : Z) : Z :=
  match L with
  | [] => 0
  | l :: L' => cost l * Z.min (cap l) n + gval L' (n - Z.min (cap l) n)
  end.

(** A stored lot in units: cost per unit on the grid [t], remaining
    quantity on the grid [s]. *)
Definition lot_units (s t : Z) (p : Parcel.t) : lot :=
  (units t (Parcel.cost_per_unit_aud p), units s (Parcel.remaining_quantity p)).

End OptimalSpec.

(** A date that [datetime.date] can hold. *)
Definition valid_date (d : Date.date) : Prop :=
  Date.new (Date.year d) (Date.month d) (Date.day d) = Some d.

(** ** Sample data *)

Module Samples.

Definition bhp : Security.t := Security.mk 1 "BHP.AX".

(** The worked example of the specification: lot A and its disposal. *)
Definition lot_a : Parcel.t :=
  Parcel.mk 1 bhp (Date.mkDate 2024 1 10) (mkDec 100 0) (mkDec 100 0)
    (mkDec 40095 (-3)) (mkDec 400950 (-2)) false.
Definition sell_a : Transaction.t :=
  Transaction.mk 2 bhp (Date.mkDate 2025 6 15) Transaction.SELL (mkDec 50 0)
    (mkDec 5500 (-2)) D0 (mkDec 275000 (-2)) D1.

(** A lot of 1000000000.00000001 units bought at 1.000000 and sold at
    1.000001 with an exchange rate of 1.000001. *)
Definition q_big : Decimal := mkDec 100000000000000001 (-8).
Definition lot_big : Parcel.t :=
  Parcel.mk 3 bhp (Date.mkDate 2024 1 10) q_big q_big
    (mkDec 1000000 (-6)) (mkDec 1000000000000000 (-6)) false.
Definition sell_big : Transaction.t :=
  Transaction.mk 4 bhp (Date.mkDate 2025 6 15) Transaction.SELL q_big
    (mkDec 1000001 (-6)) D0 (mkDec 1000001000000000 (-6)) (mkDec 1000001 (-6)).

(** Two lots of 30 and 50 units and a disposal of 60 units, as in the
    specification's second example. *)
Definition lot_1 : Parcel.t :=
  Parcel.mk 1 bhp (Date.mkDate 2024 1 1) (mkDec 30 0) (mkDec 30 0)
    (mkDec 4000 (-2)) (mkDec 120000 (-2)) false.
Definition lot_2 : Parcel.t :=
  Parcel.mk 2 bhp (Date.mkDate 2024 6 1) (mkDec 50 0) (mkDec 50 0)
    (mkDec 4500 (-2)) (mkDec 225000 (-2)) false.
Definition db0 : DB := mkDB (<[1 := lot_1]> (<[2 := lot_2]> ∅)) [].
Definition sell_60 : Transaction.t :=
  Transaction.mk 10 bhp (Date.mkDate 2025 6 15) Transaction.SELL (mkDec 60 0)
    (mkDec 5500 (-2)) D0 (mkDec 330000 (-2)) D1.

(** The earliest-first proposals for [sell_60] and the database after
    their commit. *)
Definition proposals_60 : list ParcelMatch.t :=
  [matching._build_match lot_1 sell_60 (mkDec 30 0);
   matching._build_match lot_2 sell_60 (mkDec 30 0)].
Definition db1 : DB := snd (matching.confirm_matches proposals_60 db0).



(** A lot of 29 significant digits and a proposal of nothing from it. *)
Definition lot_29 : Parcel.t :=
  Parcel.mk 7 bhp (Date.mkDate 2024 1 1)
    (mkDec 19999999999999999999999999999 0)
    (mkDec 19999999999999999999999999999 0)
    (mkDec 4000 (-2)) (mkDec 4000 (-2)) false.
Definition db_29 : DB := mkDB (<[7 := lot_29]> ∅) [].
Definition proposal_nothing : ParcelMatch.t :=
  matching._build_match lot_29 sell_60 D0.

(** Disposals with a negative quantity, with a quantity of 31 significant
    digits, and of more than the 80 units held. *)
Definition sell_negative : Transaction.t :=
  Transaction.mk 11 bhp (Date.mkDate 2025 6 15) Transaction.SELL (mkDec (-5) 0)
    (mkDec 5500 (-2)) D0 (mkDec 27500 (-2)) D1.
Definition q_31 : Decimal := mkDec 5000000000000000000000000000001 (-29).
Definition sell_31 : Transaction.t :=
  Transaction.mk 12 bhp (Date.mkDate 2025 6 15) Transaction.SELL q_31
    (mkDec 5500 (-2)) D0 (mkDec 275000 (-2)) D1.
Definition sell_100 : Transaction.t :=
  Transaction.mk 13 bhp (Date.mkDate 2025 6 15) Transaction.SELL (mkDec 100 0)
    (mkDec 5500 (-2)) D0 (mkDec 550000 (-2)) D1.

(** A lot of another security, and a disposal of 50 units. *)
Definition cba : Security.t := Security.mk 2 "CBA.AX".
Definition lot_cba : Parcel.t :=
  Parcel.mk 5 cba (Date.mkDate 2024 1 1) (mkDec 50 0) (mkDec 50 0)
    (mkDec 10000 (-2)) (mkDec 500000 (-2)) false.
Definition sell_50 : Transaction.t :=
  Transaction.mk 14 bhp (Date.mkDate 2025 6 15) Transaction.SELL (mkDec 50 0)
    (mkDec 5500 (-2)) D0 (mkDec 275000 (-2)) D1.

(** The day on which the forecasts of the examples are made. *)
Definition today : Date.date := Date.mkDate 2025 6 15.

End Samples.

(** * Properties *)

(** ** Decimal arithmetic *)

Section DecFacts.

Lemma pow10_pos (k : Z) : 0 <= k -> 0 < 10 ^ k.
Proof. intros Hk. apply Z.pow_pos_nonneg; lia. Qed.

Lemma pow10_succ (k : Z) : 0 <= k -> 10 ^ (k + 1) = 10 * 10 ^ k.
Proof. intros Hk. rewrite Z.pow_add_r by lia. change (10 ^ 1) with 10. lia. Qed.

Lemma pow10_split (a b : Z) : 0 <= b <= a -> 10 ^ a = 10 ^ (a - b) * 10 ^ b.
Proof. intros H. rewrite <- Z.pow_add_r by lia. f_equal. lia. Qed.

Lemma pow10_le (a b : Z) : 0 <= a <= b -> 10 ^ a <= 10 ^ b.
Proof. intros H. apply Z.pow_le_mono_r; lia. Qed.

Lemma pow10_lt (a b : Z) : 0 <= a < b -> 10 ^ a < 10 ^ b.
Proof. intros H. apply Z.pow_lt_mono_r; lia. Qed.

Lemma ndigits_aux_zero (fuel : nat) : ndigits_aux fuel 0 = 0.
Proof. destruct fuel; reflexivity. Qed.

Lemma ndigits_aux_spec (fuel : nat) :
  forall a, 0 < a -> a < 2 ^ Z.of_nat fuel ->
    1 <= ndigits_aux fuel a
    /\ 10 ^ (ndigits_aux fuel a - 1) <= a < 10 ^ ndigits_aux fuel a.
Proof.
  induction fuel as [|f IH]; intros a Ha Hlt.
  - change (2 ^ Z.of_nat 0) with 1 in Hlt. lia.
  - cbn [ndigits_aux].
    destruct (Z.leb_spec a 0) as [?|_]; [lia|].
    assert (Hpow : 2 ^ Z.of_nat (S f) = 2 * 2 ^ Z.of_nat f).
    { rewrite Nat2Z.inj_succ, Z.pow_succ_r by lia. reflexivity. }
    destruct (Z_lt_le_dec a 10) as [Hsmall|Hbig].
    + rewrite Z.div_small by lia. rewrite ndigits_aux_zero.
      change (1 + 0) with 1. change (10 ^ (1 - 1)) with 1.
      change (10 ^ 1) with 10. lia.
    + assert (Hq : 0 < a / 10) by (apply Z.div_str_pos; lia).
      assert (Hdm := Z.div_mod a 10 ltac:(lia)).
      assert (Hm := Z.mod_pos_bound a 10 ltac:(lia)).
      destruct (IH (a / 10) Hq ltac:(lia)) as (Hn & Hlo & Hhi).
      set (n := ndigits_aux f (a / 10)) in *.
      replace (1 + n - 1) with ((n - 1) + 1) by lia.
      replace (1 + n) with (n + 1) by lia.
      rewrite !pow10_succ by lia.
      lia.
Qed.

Lemma ndigits_spec (c : Z) :
  c <> 0 ->
  1 <= ndigits c /\ 10 ^ (ndigits c - 1) <= Z.abs c < 10 ^ ndigits c.
Proof.
  intros Hc. unfold ndigits. apply ndigits_aux_spec; [lia|].
  rewrite Nat2Z.inj_succ, Z2Nat.id by apply Z.log2_nonneg.
  apply Z.log2_spec. lia.
Qed.

Lemma ndigits_unique (c n : Z) :
  1 <= n -> 10 ^ (n - 1) <= Z.abs c < 10 ^ n -> ndigits c = n.
Proof.
  intros Hn [Hlo Hhi].
  assert (Hc : c <> 0).
  { intros ->. pose proof (pow10_pos (n - 1) ltac:(lia)). simpl in Hlo. lia. }
  destruct (ndigits_spec c Hc) as (Hd & Hlo' & Hhi').
  destruct (Z_lt_le_dec (ndigits c) n) as [H1|H1].
  - pose proof (pow10_le (ndigits c) (n - 1) ltac:(lia)). lia.
  - destruct (Z_lt_le_dec n (ndigits c)) as [H2|H2]; [|lia].
    pose proof (pow10_le n (ndigits c - 1) ltac:(lia)). lia.
Qed.

Lemma ndigits_le_iff (c n : Z) :
  c <> 0 -> 0 <= n -> (ndigits c <= n <-> Z.abs c < 10 ^ n).
Proof.
  intros Hc Hn. destruct (ndigits_spec c Hc) as (Hd & Hlo & Hhi). split.
  - intros Hle. pose proof (pow10_le (ndigits c) n ltac:(lia)). lia.
  - intros Hlt. destruct (Z_lt_le_dec n (ndigits c)) as [H|H]; [|lia].
    pose proof (pow10_le n (ndigits c - 1) ltac:(lia)). lia.
Qed.

Lemma ndigits_shift (c j : Z) :
  c <> 0 -> 0 <= j -> ndigits (c * 10 ^ j) = ndigits c + j.
Proof.
  intros Hc Hj. destruct (ndigits_spec c Hc) as (Hd & Hlo & Hhi).
  pose proof (pow10_pos j Hj) as Hp.
  apply ndigits_unique; [lia|].
  rewrite Z.abs_mul, (Z.abs_eq (10 ^ j)) by lia.
  replace (ndigits c + j - 1) with ((ndigits c - 1) + j) by lia.
  rewrite !Z.pow_add_r by lia. split; nia.
Qed.

(** Rounding leaves a coefficient of at most 28 digits alone. *)
Lemma Dfix_fits (d : Decimal) : fits d -> Dfix d = d.
Proof.
  unfold fits, Dfix. intros Hf.
  destruct (Z.eqb_spec (coef d) 0) as [|Hc]; [reflexivity|].
  destruct (Z.leb_spec (ndigits (coef d)) prec) as [|Hgt]; [reflexivity|].
  apply (ndigits_le_iff _ prec Hc) in Hf; [lia | unfold prec; lia].
Qed.

Lemma scaled_lower (d : Decimal) (m m' : Z) :
  m' <= m <= expo d -> scaled d m' = scaled d m * 10 ^ (m - m').
Proof.
  intros H. unfold scaled. rewrite <- Z.mul_assoc, <- Z.pow_add_r by lia.
  do 2 f_equal. lia.
Qed.

Lemma Dcompare_at (a b : Decimal) (m : Z) :
  m <= expo a -> m <= expo b ->
  Dcompare a b = (scaled a m ?= scaled b m).
Proof.
  intros Ha Hb. unfold Dcompare.
  set (m0 := Z.min (expo a) (expo b)).
  rewrite (scaled_lower a m0 m), (scaled_lower b m0 m) by lia.
  pose proof (pow10_pos (m0 - m) ltac:(lia)).
  apply Zmult_compare_compat_r. lia.
Qed.

Lemma Dltb_at (a b : Decimal) (m : Z) :
  m <= expo a -> m <= expo b -> Dltb a b = (scaled a m <? scaled b m).
Proof.
  intros Ha Hb. unfold Dltb, Z.ltb. now rewrite (Dcompare_at a b m).
Qed.

Lemma Dleb_at (a b : Decimal) (m : Z) :
  m <= expo a -> m <= expo b -> Dleb a b = (scaled a m <=? scaled b m).
Proof.
  intros Ha Hb. unfold Dleb, Z.leb. now rewrite (Dcompare_at a b m).
Qed.

Lemma Deqb_at (a b : Decimal) (m : Z) :
  m <= expo a -> m <= expo b -> Deqb a b = (scaled a m =? scaled b m).
Proof.
  intros Ha Hb. unfold Deqb. rewrite (Dcompare_at a b m) by assumption.
  destruct (Z.compare_spec (scaled a m) (scaled b m));
    destruct (Z.eqb_spec (scaled a m) (scaled b m)); (reflexivity || lia).
Qed.

Lemma Deq_at (a b : Decimal) (m : Z) :
  m <= expo a -> m <= expo b -> (a == b)%D <-> scaled a m = scaled b m.
Proof.
  intros Ha Hb. unfold Deq. rewrite (Deqb_at a b m) by assumption.
  apply Z.eqb_eq.
Qed.

Lemma Deq_refl (a : Decimal) : (a == a)%D.
Proof. apply (Deq_at a a (expo a)); lia. Qed.

Lemma Deq_sym (a b : Decimal) : (a == b)%D -> (b == a)%D.
Proof.
  set (m := Z.min (expo a) (expo b)).
  rewrite (Deq_at a b m), (Deq_at b a m) by lia. auto.
Qed.

Lemma Deq_trans (a b c : Decimal) : (a == b)%D -> (b == c)%D -> (a == c)%D.
Proof.
  set (m := Z.min (expo a) (Z.min (expo b) (expo c))).
  rewrite (Deq_at a b m), (Deq_at b c m), (Deq_at a c m) by lia. congruence.
Qed.

Lemma Dltb_irrefl (a : Decimal) : Dltb a a = false.
Proof. rewrite (Dltb_at a a (expo a)) by lia. apply Z.ltb_irrefl. Qed.

Lemma Dleb_ltb (a b : Decimal) : Dleb a b = negb (Dltb b a).
Proof.
  set (m := Z.min (expo a) (expo b)).
  rewrite (Dleb_at a b m), (Dltb_at b a m) by lia. apply Z.leb_antisym.
Qed.

(** Exact arithmetic on a grid. *)

Lemma units_scaled (s : Z) (d : Decimal) (m : Z) :
  - s <= m <= expo d -> units s d = scaled d m * 10 ^ (m + s).
Proof.
  intros H. unfold units. rewrite (scaled_lower d m (- s)) by lia.
  do 2 f_equal. lia.
Qed.

Lemma units_coef (s : Z) (d : Decimal) :
  on_grid s d -> units s d = coef d * 10 ^ (expo d + s).
Proof. intros H. unfold units, scaled. do 2 f_equal. lia. Qed.

Lemma units_D0 (s : Z) : units s D0 = 0.
Proof. reflexivity. Qed.

Lemma on_grid_D0 (s : Z) : 0 <= s -> on_grid s D0.
Proof. unfold on_grid. simpl. lia. Qed.

Lemma Dltb_units (s : Z) (a b : Decimal) :
  on_grid s a -> on_grid s b -> Dltb a b = (units s a <? units s b).
Proof. intros Ha Hb. now apply Dltb_at. Qed.

Lemma Dleb_units (s : Z) (a b : Decimal) :
  on_grid s a -> on_grid s b -> Dleb a b = (units s a <=? units s b).
Proof. intros Ha Hb. now apply Dleb_at. Qed.

Lemma Deqb_units (s : Z) (a b : Decimal) :
  on_grid s a -> on_grid s b -> Deqb a b = (units s a =? units s b).
Proof. intros Ha Hb. now apply Deqb_at. Qed.

Lemma Deq_units (s : Z) (a b : Decimal) :
  on_grid s a -> on_grid s b -> (a == b)%D <-> units s a = units s b.
Proof. intros Ha Hb. now apply Deq_at. Qed.

Lemma exact_add_grid (s : Z) (a b : Decimal) :
  on_grid s a -> on_grid s b ->
  on_grid s (exact_add a b)
  /\ units s (exact_add a b) = units s a + units s b.
Proof.
  unfold on_grid. intros Ha Hb.
  set (m := Z.min (expo a) (expo b)).
  assert (Hm : expo (exact_add a b) = m) by reflexivity.
  split; [rewrite Hm; lia|].
  rewrite (units_scaled s a m), (units_scaled s b m) by lia.
  rewrite (units_coef s (exact_add a b)) by (unfold on_grid; rewrite Hm; lia).
  rewrite Hm. cbn [exact_add coef]. fold m. lia.
Qed.

Lemma abs_le_mul_pow (c k : Z) : 0 <= k -> Z.abs c <= Z.abs (c * 10 ^ k).
Proof.
  intros Hk. pose proof (pow10_pos k Hk).
  rewrite Z.abs_mul, (Z.abs_eq (10 ^ k)) by lia. nia.
Qed.

Lemma Dadd_grid (s : Z) (a b : Decimal) :
  on_grid s a -> on_grid s b ->
  Z.abs (units s a + units s b) < 10 ^ prec ->
  (a + b)%D = exact_add a b
  /\ on_grid s (a + b)%D
  /\ units s (a + b)%D = units s a + units s b.
Proof.
  intros Ha Hb Hfit.
  destruct (exact_add_grid s a b Ha Hb) as [Hg Hu].
  assert (Hfix : (a + b)%D = exact_add a b).
  { apply Dfix_fits. unfold fits. fold (exact_add a b).
    rewrite <- Hu, (units_coef s _ Hg) in Hfit.
    unfold on_grid in Hg.
    pose proof (abs_le_mul_pow (coef (exact_add a b))
                  (expo (exact_add a b) + s) ltac:(lia)).
    lia. }
  rewrite Hfix. auto.
Qed.

Lemma units_Dneg (s : Z) (a : Decimal) : units s (Dneg a) = - units s a.
Proof. unfold units, scaled. simpl. lia. Qed.

Lemma Dsub_grid (s : Z) (a b : Decimal) :
  on_grid s a -> on_grid s b ->
  Z.abs (units s a - units s b) < 10 ^ prec ->
  (a - b)%D = exact_sub a b
  /\ on_grid s (a - b)%D
  /\ units s (a - b)%D = units s a - units s b.
Proof.
  intros Ha Hb Hfit. unfold Dsub, exact_sub.
  destruct (Dadd_grid s a (Dneg b) Ha Hb) as (H1 & H2 & H3).
  { rewrite units_Dneg. replace (units s a + - units s b)
      with (units s a - units s b) by lia. exact Hfit. }
  rewrite units_Dneg in H3. repeat split; auto.
Qed.

Lemma Dmin_cases (a b : Decimal) :
  (Dltb b a = true /\ Dmin a b = b) \/ (Dltb b a = false /\ Dmin a b = a).
Proof. unfold Dmin. destruct (Dltb b a); auto. Qed.

End DecFacts.

Section SignFacts.

Lemma Dltb_D0 (g : Decimal) : (D0 <? g)%D = (0 <? coef g).
Proof.
  set (m := Z.min 0 (expo g)).
  rewrite (Dltb_at D0 g m) by (simpl; lia).
  unfold scaled. simpl coef. rewrite Z.mul_0_l.
  pose proof (pow10_pos (expo g - m) ltac:(lia)).
  destruct (Z.ltb_spec 0 (coef g * 10 ^ (expo g - m)));
    destruct (Z.ltb_spec 0 (coef g)); (reflexivity || nia).
Qed.

Lemma Dleb_D0 (g : Decimal) : (g <=? D0)%D = (coef g <=? 0).
Proof.
  rewrite Dleb_ltb, Dltb_D0. symmetry. apply Z.leb_antisym.
Qed.

Lemma Deqb_D0 (g : Decimal) : (g =? D0)%D = (coef g =? 0).
Proof.
  set (m := Z.min 0 (expo g)).
  rewrite (Deqb_at g D0 m) by (simpl; lia).
  unfold scaled. simpl coef. rewrite Z.mul_0_l.
  pose proof (pow10_pos (expo g - m) ltac:(lia)).
  destruct (Z.eqb_spec (coef g * 10 ^ (expo g - m)) 0);
    destruct (Z.eqb_spec (coef g) 0); (reflexivity || nia).
Qed.

Lemma Dmul_fits (a b : Decimal) :
  fits (exact_mul a b) -> (a * b)%D = exact_mul a b.
Proof. apply Dfix_fits. Qed.

Lemma Dadd_fits (a b : Decimal) :
  fits (exact_add a b) -> (a + b)%D = exact_add a b.
Proof. apply Dfix_fits. Qed.

Lemma Dsub_fits (a b : Decimal) :
  fits (exact_sub a b) -> (a - b)%D = exact_sub a b.
Proof. apply Dfix_fits. Qed.

End SignFacts.

(** ** The tax calculator *)

Import cgt.

(** C3, as the code has it.  Every figure is the decimal result of the
    formula, that is the exact result rounded to 28 significant digits:
    costBase = costPerUnit x matchedQuantity, proceeds = (unitPrice x fxRate)
    x matchedQuantity with no brokerage subtracted, gainLoss = proceeds -
    costBase, netGain = gainLoss - discountAmount, and holdingDays is the
    difference of the two dates' day numbers.  Whenever the exact results
    have at most 28 significant digits the figures are the exact ones.  The
    worked example (cost/unit 40.095, 50 units at 55.00, acquired 2024-01-10,
    sold 2025-06-15) yields 2004.75, 2750.00, 745.25, 522 days, eligible,
    372.625 and 372.625. *)
Theorem calculate_cgt_figures
    (parcel : Parcel.t) (sell : Transaction.t) (q : Decimal) :
  let r := calculate_cgt parcel sell q in
  let cpu := Parcel.cost_per_unit_aud parcel in
  let per_unit :=
    exact_mul (Transaction.unit_price sell) (Transaction.exchange_rate sell) in
  (cost_base_aud r = Dfix (exact_mul cpu q)
   /\ proceeds_aud r = Dfix (exact_mul (Dfix per_unit) q)
   /\ capital_gain_loss r = Dfix (exact_sub (proceeds_aud r) (cost_base_aud r))
   /\ net_capital_gain r
      = Dfix (exact_sub (capital_gain_loss r) (discount_amount r))
   /\ holding_period_days r
      = Date.toordinal (Transaction.trade_date sell)
        - Date.toordinal (Parcel.acquisition_date parcel))
  /\ (fits (exact_mul cpu q) -> fits per_unit -> fits (exact_mul per_unit q) ->
      fits (exact_sub (exact_mul per_unit q) (exact_mul cpu q)) ->
      fits (exact_sub (capital_gain_loss r) (discount_amount r)) ->
      cost_base_aud r = exact_mul cpu q
      /\ proceeds_aud r = exact_mul per_unit q
      /\ capital_gain_loss r = exact_sub (proceeds_aud r) (cost_base_aud r)
      /\ net_capital_gain r
         = exact_sub (capital_gain_loss r) (discount_amount r))
  /\ (let e := calculate_cgt Samples.lot_a Samples.sell_a (mkDec 50 0) in
      (cost_base_aud e == mkDec 200475 (-2))%D
      /\ (proceeds_aud e == mkDec 275000 (-2))%D
      /\ (capital_gain_loss e == mkDec 74525 (-2))%D
      /\ holding_period_days e = 522
      /\ cgt_discount_eligible e = true
      /\ (discount_amount e == mkDec 372625 (-3))%D
      /\ (net_capital_gain e == mkDec 372625 (-3))%D).
Proof.
  intros r cpu per_unit. split; [|split].
  - repeat split.
  - intros H1 H2 H3 H4 H5.
    assert (Hc : cost_base_aud r = exact_mul cpu q) by (apply Dmul_fits, H1).
    assert (Hp : proceeds_aud r = exact_mul per_unit q).
    { change (proceeds_aud r)
        with ((Transaction.unit_price sell * Transaction.exchange_rate sell)
              * q)%D.
      rewrite (Dmul_fits _ _ H2). apply Dmul_fits, H3. }
    assert (Hg : capital_gain_loss r
                 = exact_sub (proceeds_aud r) (cost_base_aud r)).
    { change (capital_gain_loss r)
        with (proceeds_aud r - cost_base_aud r)%D.
      apply Dsub_fits. rewrite Hp, Hc. exact H4. }
    repeat split; try assumption.
    apply Dsub_fits, H5.
  - vm_compute. repeat split.
Qed.

(** The worked example meets the conditions of exactness. *)
Lemma calculate_cgt_figures_witness :
  let r := calculate_cgt Samples.lot_a Samples.sell_a (mkDec 50 0) in
  cost_base_aud r = mkDec 2004750 (-3)
  /\ proceeds_aud r = mkDec 275000 (-2)
  /\ capital_gain_loss r
     = exact_sub (proceeds_aud r) (cost_base_aud r)
  /\ net_capital_gain r
     = exact_sub (capital_gain_loss r) (discount_amount r).
Proof.
  pose proof (calculate_cgt_figures Samples.lot_a Samples.sell_a (mkDec 50 0))
    as (_ & H & _).
  apply H; vm_compute; reflexivity.
Defined.

(** C3 as stated fails: with 1000000000.00000001 units sold at 1.000001 and
    an exchange rate of 1.000001 the exact proceeds have 30 significant
    digits and the computed proceeds are their rounding to 28 digits. *)
Lemma exact_proceeds_counterexample :
  let r := calculate_cgt Samples.lot_big Samples.sell_big Samples.q_big in
  proceeds_aud r = mkDec 1000002000001000010000020000 (-18)
  /\ exact_mul (exact_mul (Transaction.unit_price Samples.sell_big)
                          (Transaction.exchange_rate Samples.sell_big))
               Samples.q_big
     = mkDec 100000200000100001000002000001 (-20)
  /\ ~ (proceeds_aud r
        == exact_mul (exact_mul (Transaction.unit_price Samples.sell_big)
                                (Transaction.exchange_rate Samples.sell_big))
                     Samples.q_big)%D.
Proof.
  vm_compute. repeat split. discriminate.
Qed.

(** C4.  A slice is discount-eligible exactly when it was held for more than
    365 days and its gain is strictly positive; the discount is the gain
    times 0.5 (in decimal arithmetic) when eligible and 0 otherwise.  Hence
    365 days are not enough, 366 days with a positive gain are, and a loss
    or a zero gain gets no discount whatever the holding period. *)
Theorem discount_rule
    (parcel : Parcel.t) (sell : Transaction.t) (q : Decimal) :
  let r := calculate_cgt parcel sell q in
  (cgt_discount_eligible r = true
   <-> 365 < holding_period_days r /\ 0 < coef (capital_gain_loss r))
  /\ discount_amount r
     = (if cgt_discount_eligible r
        then (capital_gain_loss r * Dhalf)%D else D0)
  /\ (holding_period_days r = 365 -> cgt_discount_eligible r = false)
  /\ (holding_period_days r = 366 -> 0 < coef (capital_gain_loss r) ->
      cgt_discount_eligible r = true)
  /\ (coef (capital_gain_loss r) <= 0 ->
      cgt_discount_eligible r = false /\ discount_amount r = D0).
Proof.
  intros r.
  assert (He : cgt_discount_eligible r
               = (365 <? holding_period_days r)
                 && (0 <? coef (capital_gain_loss r))).
  { change (cgt_discount_eligible r)
      with ((365 <? holding_period_days r)
            && (D0 <? capital_gain_loss r)%D).
    now rewrite Dltb_D0. }
  assert (Hd : discount_amount r
               = (if cgt_discount_eligible r
                  then (capital_gain_loss r * Dhalf)%D else D0))
    by reflexivity.
  split; [|split; [exact Hd|]].
  - rewrite He, andb_true_iff, !Z.ltb_lt. reflexivity.
  - rewrite Hd, He. repeat split.
    + intros ->. reflexivity.
    + intros -> Hpos. apply Z.ltb_lt in Hpos. now rewrite Hpos.
    + destruct (Z.ltb_spec 0 (coef (capital_gain_loss r))); [lia|].
      apply andb_false_r.
    + destruct (Z.ltb_spec 0 (coef (capital_gain_loss r))); [lia|].
      now rewrite andb_false_r.
Qed.

(** The rule at the tests' boundary dates: bought 2025-01-10, sold
    2026-01-10 (365 days) and 2026-01-11 (366 days). *)
Lemma discount_rule_witness :
  let lot := Parcel.mk 1 Samples.bhp (Date.mkDate 2025 1 10) (mkDec 100 0)
               (mkDec 100 0) (mkDec 30095 (-3)) (mkDec 300950 (-2)) false in
  let sell d := Transaction.mk 2 Samples.bhp d Transaction.SELL (mkDec 100 0)
                  (mkDec 5500 (-2)) D0 (mkDec 550000 (-2)) D1 in
  let r365 := calculate_cgt lot (sell (Date.mkDate 2026 1 10)) (mkDec 50 0) in
  let r366 := calculate_cgt lot (sell (Date.mkDate 2026 1 11)) (mkDec 50 0) in
  (holding_period_days r365 = 365 /\ cgt_discount_eligible r365 = false)
  /\ (holding_period_days r366 = 366 /\ 0 < coef (capital_gain_loss r366)
      /\ cgt_discount_eligible r366 = true).
Proof.
  intros lot sell r365 r366.
  pose proof (discount_rule lot (sell (Date.mkDate 2026 1 10)) (mkDec 50 0))
    as (_ & _ & H365 & _).
  pose proof (discount_rule lot (sell (Date.mkDate 2026 1 11)) (mkDec 50 0))
    as (_ & _ & _ & H366 & _).
  assert (E365 : holding_period_days r365 = 365) by (vm_compute; reflexivity).
  assert (E366 : holding_period_days r366 = 366) by (vm_compute; reflexivity).
  assert (G366 : 0 < coef (capital_gain_loss r366)) by (vm_compute; reflexivity).
  split; [split; [exact E365 | exact (H365 E365)]|].
  split; [exact E366 | split; [exact G366 | exact (H366 E366 G366)]].
Defined.

(** ** Sorting and dates *)

Section SortFacts.
Context {A : Type} (le : A -> A -> bool).

Lemma insert_by_perm (x : A) (l : list A) : Permutation (insert_by le x l) (x :: l).
Proof.
  induction l as [|y l IH]; cbn [insert_by]; [reflexivity|].
  destruct (le x y); [reflexivity|].
  rewrite IH. apply perm_swap.
Qed.

Lemma sort_by_perm (l : list A) : Permutation (sort_by le l) l.
Proof.
  induction l as [|x l IH]; cbn [sort_by]; [reflexivity|].
  rewrite insert_by_perm. now constructor.
Qed.

Hypothesis le_total : forall a b, le a b = true \/ le b a = true.

Lemma insert_by_sorted (x : A) (l : list A) :
  Sorted (fun a b => le a b = true) l ->
  Sorted (fun a b => le a b = true) (insert_by le x l).
Proof.
  induction l as [|y l IH]; cbn [insert_by]; intros Hs.
  - repeat constructor.
  - destruct (le x y) eqn:Hxy.
    + constructor; [assumption|]. now constructor.
    + apply Sorted_inv in Hs as [Hs Hhd]. constructor; [auto|].
      assert (Hyx : le y x = true) by (destruct (le_total x y); congruence).
      destruct l as [|z l]; cbn [insert_by]; [now constructor|].
      destruct (le x z); constructor; [assumption|].
      now apply HdRel_inv in Hhd.
Qed.

Lemma sort_by_sorted (l : list A) :
  Sorted (fun a b => le a b = true) (sort_by le l).
Proof.
  induction l as [|x l IH]; cbn [sort_by]; [constructor|].
  now apply insert_by_sorted.
Qed.

End SortFacts.

Section DateFacts.

Lemma Date_leb_iff (a b : Date.date) :
  Date.leb a b = true
  <-> Date.year a < Date.year b
      \/ (Date.year a = Date.year b
          /\ (Date.month a < Date.month b
              \/ (Date.month a = Date.month b /\ Date.day a <= Date.day b))).
Proof.
  unfold Date.leb, Date.compare.
  destruct (Z.compare_spec (Date.year a) (Date.year b));
    destruct (Z.compare_spec (Date.month a) (Date.month b));
    destruct (Z.compare_spec (Date.day a) (Date.day b));
    split; intros; try discriminate; try reflexivity; lia.
Qed.

Lemma Date_leb_total (a b : Date.date) :
  Date.leb a b = true \/ Date.leb b a = true.
Proof. rewrite !Date_leb_iff. lia. Qed.

Lemma Date_leb_trans (a b c : Date.date) :
  Date.leb a b = true -> Date.leb b c = true -> Date.leb a c = true.
Proof. rewrite !Date_leb_iff. lia. Qed.

Lemma Dleb_total (a b : Decimal) : Dleb a b = true \/ Dleb b a = true.
Proof.
  set (m := Z.min (expo a) (expo b)).
  rewrite (Dleb_at a b m), (Dleb_at b a m), !Z.leb_le by lia. lia.
Qed.

End DateFacts.

(** ** The financial-year summary *)

Section FySummary.
Import FySpec.

Lemma fold_fy_gains (ms : list ParcelMatch.t) (a : acc) :
  acc_gains (fold_left fy_step ms a)
  = fold_left Dadd
      (List.map ParcelMatch.capital_gain_loss (List.filter is_gain ms))
      (acc_gains a).
Proof.
  revert a. induction ms as [|m ms IH]; intros a; [reflexivity|].
  cbn [fold_left List.filter]. rewrite IH.
  unfold is_gain at 2. cbn [fy_step acc_gains].
  destruct (D0 <? ParcelMatch.capital_gain_loss m)%D; reflexivity.
Qed.

Lemma fold_fy_losses (ms : list ParcelMatch.t) (a : acc) :
  acc_losses (fold_left fy_step ms a)
  = fold_left Dadd
      (List.map ParcelMatch.capital_gain_loss
         (List.filter (fun m => negb (is_gain m)) ms))
      (acc_losses a).
Proof.
  revert a. induction ms as [|m ms IH]; intros a; [reflexivity|].
  cbn [fold_left List.filter]. rewrite IH.
  unfold is_gain at 2. cbn [fy_step acc_losses].
  destruct (D0 <? ParcelMatch.capital_gain_loss m)%D; reflexivity.
Qed.



(** The entry of a ticker after one more allocation. *)
Lemma fy_step_lookup (a : acc) (m : ParcelMatch.t) (t : string) :
  acc_per_security (fy_step a m) !! t
  = if String.eqb (match_ticker m) t
    then Some (sec_add m (default (mkSec t D0 D0 D0 D0 0)
                                  (acc_per_security a !! t)))
    else acc_per_security a !! t.
Proof.
  cbn [fy_step acc_per_security].
  destruct (String.eqb_spec (match_ticker m) t) as [->|Hne].
  - destruct (acc_per_security a !! t) as [e|] eqn:He.
    + rewrite He. now rewrite lookup_insert_eq.
    + rewrite lookup_insert_eq. now rewrite lookup_insert_eq.
  - destruct (acc_per_security a !! match_ticker m) as [e|] eqn:He.
    + rewrite He. now rewrite lookup_insert_ne.
    + rewrite lookup_insert_eq. now rewrite !lookup_insert_ne.
Qed.

Lemma fold_fy_lookup (ms : list ParcelMatch.t) (a : acc) (t : string) :
  acc_per_security (fold_left fy_step ms a) !! t
  = match for_ticker t ms with
    | [] => acc_per_security a !! t
    | mine =>
        Some (fold_left (fun e m => sec_add m e) mine
                (default (mkSec t D0 D0 D0 D0 0) (acc_per_security a !! t)))
    end.
Proof.
  revert a. induction ms as [|m ms IH]; intros a; [reflexivity|].
  cbn [fold_left]. rewrite IH, fy_step_lookup.
  unfold for_ticker. cbn [List.filter].
  destruct (String.eqb (match_ticker m) t).
  - now destruct (List.filter _ ms).
  - reflexivity.
Qed.

Lemma fold_sec_add (mine : list ParcelMatch.t) (e : sec_dict) :
  fold_left (fun e m => sec_add m e) mine e
  = mkSec (sec_ticker e)
      (fold_left Dadd
         (List.map ParcelMatch.capital_gain_loss (List.filter is_gain mine))
         (sec_gains e))
      (fold_left Dadd
         (List.map ParcelMatch.capital_gain_loss
            (List.filter (fun m => negb (is_gain m)) mine))
         (sec_losses e))
      (fold_left Dadd (List.map ParcelMatch.discount_amount mine)
         (sec_discounts e))
      (fold_left Dadd (List.map ParcelMatch.net_capital_gain mine) (sec_net e))
      (sec_match_count e + Z.of_nat (length mine)).
Proof.
  revert e. induction mine as [|m mine IH]; intros e.
  - destruct e. cbn. f_equal. lia.
  - cbn [fold_left]. rewrite IH. cbn [List.filter List.map length].
    cbn [sec_add sec_ticker sec_gains sec_losses sec_discounts sec_net
         sec_match_count].
    change (D0 <? ParcelMatch.capital_gain_loss m)%D with (is_gain m).
    destruct (is_gain m);
      cbn [negb fold_left List.map]; f_equal; first [reflexivity | lia].
Qed.

(** The dictionary built by the loop, ticker by ticker. *)
Lemma fy_per_security_lookup (ms : list ParcelMatch.t) (t : string) :
  acc_per_security (fold_left fy_step ms acc0) !! t
  = match for_ticker t ms with
    | [] => None
    | _ => Some (sec_entry t ms)
    end.
Proof.
  rewrite fold_fy_lookup. cbn [acc0 acc_per_security].
  rewrite lookup_empty. cbn [default].
  destruct (for_ticker t ms) as [|m mine] eqn:Hm; [reflexivity|].
  rewrite fold_sec_add. unfold sec_entry. rewrite Hm.
  cbn [sec_ticker sec_gains sec_losses sec_discounts sec_net sec_match_count].
  reflexivity.
Qed.

Lemma for_ticker_nonempty (t : string) (ms : list ParcelMatch.t) :
  for_ticker t ms <> [] <-> exists m, In m ms /\ match_ticker m = t.
Proof.
  unfold for_ticker. split.
  - destruct (List.filter _ ms) as [|m l] eqn:Hf; [congruence|]. intros _.
    assert (Hin : In m (List.filter (fun m => String.eqb (match_ticker m) t) ms))
      by (rewrite Hf; now left).
    apply filter_In in Hin as [Hin Heq]. apply String.eqb_eq in Heq. eauto.
  - intros (m & Hin & Heq) Hnil.
    assert (Hm : In m (List.filter (fun m => String.eqb (match_ticker m) t) ms)).
    { apply filter_In. split; [assumption|]. now apply String.eqb_eq. }
    rewrite Hnil in Hm. destruct Hm.
Qed.

End FySummary.

Section FyTheorem.
Import FySpec.

Lemma get_fy_range_ok (year : Z) :
  Date.MINYEAR < year <= Date.MAXYEAR ->
  get_fy_range year = Some (fy_start year, fy_end year).
Proof.
  unfold Date.MINYEAR, Date.MAXYEAR, get_fy_range, Date.new. intros Hy.
  unfold Date.MINYEAR, Date.MAXYEAR, Date.days_in_month. cbn [Z.eqb Pos.eqb andb].
  destruct (Z.leb_spec 1 (year - 1)); [|lia].
  destruct (Z.leb_spec (year - 1) 9999); [|lia].
  destruct (Z.leb_spec 1 year); [|lia].
  destruct (Z.leb_spec year 9999); [|lia].
  reflexivity.
Qed.

Lemma get_fy_range_out (year : Z) :
  year <= Date.MINYEAR \/ Date.MAXYEAR < year -> get_fy_range year = None.
Proof.
  unfold Date.MINYEAR, Date.MAXYEAR, get_fy_range, Date.new. intros Hy.
  unfold Date.MINYEAR, Date.MAXYEAR.
  destruct (Z.leb_spec 1 (year - 1)); cbn [andb]; [|reflexivity].
  destruct (Z.leb_spec (year - 1) 9999); cbn [andb]; [|reflexivity].
  destruct (Z.leb_spec 1 year); cbn [andb]; [|lia].
  destruct (Z.leb_spec year 9999); cbn [andb]; [lia|].
  now destruct (_ && _).
Qed.

Lemma in_window_iff (year : Z) (d : Date.date) :
  in_window year d = true
  <-> Date.leb (fy_start year) d = true /\ Date.leb d (fy_end year) = true.
Proof. unfold in_window. apply andb_true_iff. Qed.


Lemma per_security_In (ms : list ParcelMatch.t) (e : sec_dict) :
  In e (List.map snd (map_to_list (acc_per_security (fold_left fy_step ms acc0))))
  <-> (exists m, In m ms /\ match_ticker m = sec_ticker e)
      /\ e = sec_entry (sec_ticker e) ms.
Proof.
  rewrite in_map_iff. split.
  - intros ([t e'] & He & Hin). cbn in He. subst e'.
    apply list_elem_of_In, elem_of_map_to_list in Hin.
    rewrite fy_per_security_lookup in Hin.
    destruct (for_ticker t ms) as [|m mine] eqn:Hm; [discriminate|].
    injection Hin as <-. cbn [sec_entry sec_ticker]. split; [|reflexivity].
    apply for_ticker_nonempty. now rewrite Hm.
  - intros [Hex He]. exists (sec_ticker e, e). split; [reflexivity|].
    apply list_elem_of_In, elem_of_map_to_list.
    rewrite fy_per_security_lookup.
    apply for_ticker_nonempty in Hex.
    destruct (for_ticker (sec_ticker e) ms); congruence.
Qed.

Lemma per_security_tickers (ms : list ParcelMatch.t) :
  List.map sec_ticker
    (List.map snd (map_to_list (acc_per_security (fold_left fy_step ms acc0))))
  = List.map fst (map_to_list (acc_per_security (fold_left fy_step ms acc0))).
Proof.
  rewrite List.map_map. apply map_ext_in. intros [t e] Hin. cbn.
  apply list_elem_of_In, elem_of_map_to_list in Hin.
  rewrite fy_per_security_lookup in Hin.
  destruct (for_ticker t ms); [discriminate|]. now injection Hin as <-.
Qed.



(** Outside the years 2 to 9999 a window date cannot be built and the call
    raises instead of aggregating. *)
Lemma fy_summary_year_out_of_range (year : Z) (db : DB) :
  year <= Date.MINYEAR \/ Date.MAXYEAR < year ->
  fy_summary year db = (Raise ValueError, db).
Proof.
  intros Hy. unfold fy_summary. now rewrite (get_fy_range_out year Hy).
Qed.


End FyTheorem.

(** ** The commit engine *)

Section Commit.
Import CommitSpec matching.

Lemma debited_pk (q : Decimal) (row : Parcel.t) :
  Parcel.pk (debited q row) = Parcel.pk row.
Proof. reflexivity. Qed.

Lemma debit_wf (m : ParcelMatch.t) (tbl : gmap Z Parcel.t) :
  table_wf tbl -> table_wf (debit m tbl).
Proof.
  intros Hwf k row. unfold debit.
  destruct (tbl !! ParcelMatch.parcel_id m) as [row0|] eqn:Hrow; [|apply Hwf].
  destruct (decide (ParcelMatch.parcel_id m = k)) as [<-|Hne].
  - rewrite lookup_insert_eq. intros [= <-]. rewrite debited_pk. eauto.
  - rewrite lookup_insert_ne by assumption. apply Hwf.
Qed.

Lemma debit_is_Some (m : ParcelMatch.t) (tbl : gmap Z Parcel.t) (k : Z) :
  is_Some (debit m tbl !! k) <-> is_Some (tbl !! k).
Proof.
  unfold debit.
  destruct (tbl !! ParcelMatch.parcel_id m) as [row0|] eqn:Hrow; [|reflexivity].
  destruct (decide (ParcelMatch.parcel_id m = k)) as [<-|Hne].
  - rewrite lookup_insert_eq, Hrow. split; eauto.
  - now rewrite lookup_insert_ne.
Qed.

Lemma debit_refs (m : ParcelMatch.t) (ms : list ParcelMatch.t)
    (tbl : gmap Z Parcel.t) :
  refs_exist ms tbl -> refs_exist ms (debit m tbl).
Proof. intros H m' Hin. apply debit_is_Some. auto. Qed.

(** One turn of the loop, on a stored parcel. *)
Lemma confirm_one_spec (m : ParcelMatch.t) (db : DB) (row : Parcel.t) :
  table_wf (parcel_table db) ->
  parcel_table db !! ParcelMatch.parcel_id m = Some row ->
  confirm_one m db
  = if exceeds m (parcel_table db)
    then (Raise (EMatching (RaceCondition (ParcelMatch.parcel_id m)
                              (Parcel.remaining_quantity row)
                              (ParcelMatch.matched_quantity m))), db)
    else
      let m' := ParcelMatch.set_parcel
                  (debited (ParcelMatch.matched_quantity m) row) m in
      (Ok m', mkDB (debit m (parcel_table db)) (parcel_match_table db ++ [m'])).
Proof.
  intros Hwf Hrow. pose proof (Hwf _ _ Hrow) as Hpk.
  unfold confirm_one, bind, ParcelObjects.get, exceeds, debit.
  rewrite Hrow.
  destruct (Parcel.remaining_quantity row <? ParcelMatch.matched_quantity m)%D.
  - unfold raise. now rewrite Hpk.
  - unfold ParcelObjects.save, ParcelMatchObjects.save, ret, debited.
    set (r := (Parcel.remaining_quantity row - ParcelMatch.matched_quantity m)%D).
    cbn [Parcel.remaining_quantity Parcel.set_remaining_quantity].
    destruct (r =? D0)%D;
      cbn [Parcel.pk Parcel.set_is_fully_matched Parcel.set_remaining_quantity
           Parcel.is_fully_matched Parcel.remaining_quantity];
      rewrite Hpk, Hrow; cbn [parcel_table parcel_match_table];
      destruct row; reflexivity.
Qed.

Lemma confirm_loop_spec (ms : list ParcelMatch.t) :
  forall saved db,
    table_wf (parcel_table db) -> refs_exist ms (parcel_table db) ->
    if lost_race ms (parcel_table db)
    then exists db' pid rem q,
           confirm_loop ms saved db
           = (Raise (EMatching (RaceCondition pid rem q)), db')
    else exists saved',
           confirm_loop ms saved db
           = (Ok (saved ++ saved'),
              mkDB (debit_all ms (parcel_table db))
                   (parcel_match_table db ++ saved'))
           /\ Forall2 persisted ms saved'.
Proof.
  induction ms as [|m ms IH]; intros saved db Hwf Hrefs.
  - cbn. exists []. rewrite !app_nil_r. destruct db. split; [reflexivity|constructor].
  - destruct (Hrefs m ltac:(now left)) as [row Hrow].
    set (m' := ParcelMatch.set_parcel
                 (debited (ParcelMatch.matched_quantity m) row) m).
    set (db1 := mkDB (debit m (parcel_table db)) (parcel_match_table db ++ [m'])).
    assert (Hstep : confirm_loop (m :: ms) saved db
                    = if exceeds m (parcel_table db)
                      then (Raise (EMatching
                              (RaceCondition (ParcelMatch.parcel_id m)
                                 (Parcel.remaining_quantity row)
                                 (ParcelMatch.matched_quantity m))), db)
                      else confirm_loop ms (saved ++ [m']) db1).
    { cbn [confirm_loop]. unfold bind.
      rewrite (confirm_one_spec m db row Hwf Hrow).
      now destruct (exceeds m (parcel_table db)). }
    rewrite Hstep. cbn [lost_race debit_all fold_left].
    destruct (exceeds m (parcel_table db)); cbn [orb]; [eauto|].
    specialize (IH (saved ++ [m']) db1 (debit_wf m _ Hwf)
                  (debit_refs m ms _ (fun x Hx => Hrefs x (or_intror Hx)))).
    cbn [db1 parcel_table parcel_match_table] in IH.
    destruct (lost_race ms (debit m (parcel_table db))); [exact IH|].
    destruct IH as (saved' & Heq & Hall). exists (m' :: saved').
    rewrite Heq. rewrite <- !app_assoc. cbn [app]. split; [reflexivity|].
    constructor; [|assumption]. split; [reflexivity|].
    exact (Hwf _ _ Hrow).
Qed.


Lemma table_wf_empty : table_wf ∅.
Proof. intros k row. rewrite lookup_empty. discriminate. Qed.

Lemma table_wf_insert (k : Z) (row : Parcel.t) (tbl : gmap Z Parcel.t) :
  Parcel.pk row = k -> table_wf tbl -> table_wf (<[k := row]> tbl).
Proof.
  intros Hk Hwf k' row'. destruct (decide (k = k')) as [<-|Hne].
  - rewrite lookup_insert_eq. now intros [= <-].
  - rewrite lookup_insert_ne by assumption. apply Hwf.
Qed.

Lemma db0_wf : table_wf (parcel_table Samples.db0).
Proof. repeat apply table_wf_insert; try reflexivity. apply table_wf_empty. Qed.


(** ** The parcel invariant *)





Lemma db0_rows_ok (k : Z) (row : Parcel.t) :
  parcel_table Samples.db0 !! k = Some row ->
  parcel_on_grid 0 row /\ parcel_inv row.
Proof.
  cbn [Samples.db0 parcel_table]. intros H.
  apply lookup_insert_Some in H as [[_ <-]|[_ H]].
  { vm_compute. repeat split; congruence. }
  apply lookup_insert_Some in H as [[_ <-]|[_ H]].
  { vm_compute. repeat split; congruence. }
  rewrite lookup_empty in H. discriminate.
Qed.



(** Beyond the decimal precision the invariant can be lost as well: taking
    nothing from a lot of 19999999999999999999999999999 units rounds its
    remaining quantity up to 2.000000000000000000000000000E+28. *)
Lemma commit_beyond_precision :
  (forall k row, parcel_table Samples.db_29 !! k = Some row -> parcel_inv row)
  /\ is_ok (fst (confirm_matches [Samples.proposal_nothing] Samples.db_29)) = true
  /\ exists row,
       parcel_table (snd (confirm_matches [Samples.proposal_nothing] Samples.db_29))
       !! 7 = Some row
       /\ Parcel.remaining_quantity row = mkDec 2000000000000000000000000000 1
       /\ ~ parcel_inv row.
Proof.
  split.
  { cbn [Samples.db_29 parcel_table]. intros k row H.
    apply lookup_insert_Some in H as [[_ <-]|[_ H]].
    - vm_compute. repeat split; congruence.
    - rewrite lookup_empty in H. discriminate. }
  split; [vm_compute; reflexivity|].
  eexists. split; [vm_compute; reflexivity|]. split; [reflexivity|].
  intros (_ & H & _). vm_compute in H. discriminate H.
Qed.

End Commit.

(** ** The allocation engine: earliest-first and latest-first *)

Section Allocation.
Import AllocSpec matching.

Lemma total_cons (c : Z) (cs : list Z) : total (c :: cs) = c + total cs.
Proof. reflexivity. Qed.

Lemma total_nonneg (cs : list Z) : Forall (fun c => 0 < c) cs -> 0 <= total cs.
Proof.
  induction 1 as [|c cs Hc _ IH]; [cbn; lia|]. rewrite total_cons. lia.
Qed.

Lemma greedy_total (caps : list Z) :
  forall need,
    Forall (fun c => 0 < c) caps -> 0 <= need ->
    total (greedy caps need) = Z.min need (total caps).
Proof.
  induction caps as [|c cs IH]; intros need Hpos Hneed.
  - cbn. lia.
  - inversion Hpos as [|? ? Hc Hcs]; subst.
    pose proof (total_nonneg cs Hcs) as Htot.
    cbn [greedy]. rewrite total_cons.
    destruct (Z.leb_spec need 0) as [Hle|Hgt].
    + cbn. lia.
    + rewrite total_cons, (IH (need - Z.min c need) Hcs) by lia. lia.
Qed.

Lemma units_pos (s : Z) (d : Decimal) :
  on_grid s d -> (D0 <? d)%D = true -> 0 < units s d.
Proof.
  intros Hg Hd. rewrite Dltb_D0 in Hd. apply Z.ltb_lt in Hd.
  rewrite (units_coef s d Hg). unfold on_grid in Hg.
  pose proof (pow10_pos (expo d + s) ltac:(lia)). nia.
Qed.

Lemma Dmin_units (s : Z) (a b : Decimal) :
  on_grid s a -> on_grid s b ->
  on_grid s (Dmin a b) /\ units s (Dmin a b) = Z.min (units s a) (units s b).
Proof.
  intros Ha Hb. unfold Dmin. rewrite (Dltb_units s b a) by assumption.
  destruct (Z.ltb_spec (units s b) (units s a)); split; auto; lia.
Qed.

Lemma auto_loop_spec (s : Z) (sell : Transaction.t) (lots : list Parcel.t) :
  0 <= s ->
  forall matches remaining,
    Forall (fun p => on_grid s (Parcel.remaining_quantity p)
                     /\ 0 < remaining_units s p) lots ->
    on_grid s remaining -> 0 <= units s remaining < 10 ^ prec ->
    exists new rest,
      auto_loop sell lots matches remaining = (matches ++ new, rest)
      /\ List.map ParcelMatch.parcel new = take (length new) lots
      /\ List.map (matched_units s) new
         = greedy (List.map (remaining_units s) lots) (units s remaining)
      /\ Forall (built_for sell) new
      /\ on_grid s rest
      /\ units s rest
         = units s remaining
           - total (greedy (List.map (remaining_units s) lots) (units s remaining)).
Proof.
  intros Hs. pose proof (on_grid_D0 s Hs) as Hg0.
  induction lots as [|p lots IH]; intros matches remaining Hlots Hg Hr.
  - exists [], remaining. cbn. rewrite app_nil_r. repeat split; auto. lia.
  - inversion Hlots as [|? ? [Hgp Hp] Hrest]; subst.
    cbn [auto_loop List.map greedy].
    rewrite (Dleb_units s remaining D0), units_D0 by assumption.
    destruct (Z.leb_spec (units s remaining) 0) as [Hle|Hgt].
    + exists [], remaining. cbn. rewrite app_nil_r. repeat split; auto. lia.
    + destruct (Dmin_units s (Parcel.remaining_quantity p) remaining Hgp Hg)
        as [Hgq Hq].
      set (qty := Dmin (Parcel.remaining_quantity p) remaining) in *.
      fold (remaining_units s p) in Hq.
      destruct (Dsub_grid s remaining qty Hg Hgq) as (_ & Hgr & Hur);
        [unfold remaining_units in *; lia|].
      destruct (IH (matches ++ [_build_match p sell qty]) (remaining - qty)%D
                  Hrest Hgr ltac:(unfold remaining_units in *; lia))
        as (new & rest & Heq & Hparcels & Hunits & Hbuilt & Hgrest & Hurest).
      exists (_build_match p sell qty :: new), rest.
      rewrite Heq, <- app_assoc. cbn [app length take List.map].
      rewrite Hparcels, Hunits, Hurest, Hur, total_cons.
      unfold matched_units at 1. cbn [_build_match ParcelMatch.matched_quantity
        ParcelMatch.parcel]. rewrite Hq.
      repeat split; auto; [|lia].
      constructor; [reflexivity|assumption].
Qed.

Lemma all_In (db : DB) (p : Parcel.t) :
  In p (ParcelObjects.all db) <-> exists k, parcel_table db !! k = Some p.
Proof.
  unfold ParcelObjects.all. rewrite in_map_iff. split.
  - intros ([k p'] & <- & Hin). exists k.
    now apply list_elem_of_In, elem_of_map_to_list in Hin.
  - intros [k Hk]. exists (k, p). split; [reflexivity|].
    now apply list_elem_of_In, elem_of_map_to_list.
Qed.

Lemma available_In (security : Security.t) (db : DB) (p : Parcel.t) :
  In p (ParcelObjects.available security db)
  <-> (exists k, parcel_table db !! k = Some p) /\ eligible security p = true.
Proof. unfold ParcelObjects.available. now rewrite filter_In, all_In. Qed.

Lemma by_date_asc_trans : Relations_1.Transitive by_date_asc.
Proof. intros a b c. apply Date_leb_trans. Qed.

Lemma by_date_desc_trans : Relations_1.Transitive by_date_desc.
Proof. intros a b c H1 H2. exact (Date_leb_trans _ _ _ H2 H1). Qed.

Lemma available_parcels_spec (sell : Transaction.t) (strategy : string) (db : DB) :
  let lots := available_parcels sell strategy db in
  (forall p, In p lots
             <-> (exists k, parcel_table db !! k = Some p)
                 /\ eligible (Transaction.security sell) p = true)
  /\ Permutation lots
       (List.filter (eligible (Transaction.security sell)) (ParcelObjects.all db))
  /\ (strategy = "fifo" -> StronglySorted by_date_asc lots)
  /\ (strategy <> "fifo" -> StronglySorted by_date_desc lots).
Proof.
  intros lots. unfold lots, available_parcels.
  split; [|split; [|split]].
  - intros p. rewrite <- available_In. split; apply Permutation_in.
    + apply sort_by_perm.
    + apply Permutation_sym, sort_by_perm.
  - apply sort_by_perm.
  - intros ->. apply Sorted_StronglySorted; [exact by_date_asc_trans|].
    apply (sort_by_sorted ParcelObjects.by_acquisition_date).
    intros a b. apply Date_leb_total.
  - intros Hne. apply Sorted_StronglySorted; [exact by_date_desc_trans|].
    unfold order_of. destruct (String.eqb_spec strategy "fifo"); [contradiction|].
    apply (sort_by_sorted ParcelObjects.by_acquisition_date_desc).
    intros a b. apply Date_leb_total.
Qed.

Lemma available_parcels_grid (s : Z) (sell : Transaction.t) (strategy : string)
    (db : DB) :
  (forall k row, parcel_table db !! k = Some row ->
                 on_grid s (Parcel.remaining_quantity row)) ->
  Forall (fun p => on_grid s (Parcel.remaining_quantity p)
                   /\ 0 < remaining_units s p)
         (available_parcels sell strategy db).
Proof.
  intros Hgrid. apply List.Forall_forall. intros p Hin.
  apply (proj1 (available_parcels_spec sell strategy db)) in Hin
    as [[k Hk] He].
  pose proof (Hgrid k p Hk) as Hg. split; [assumption|].
  unfold eligible in He. apply andb_true_iff in He as [_ He].
  now apply units_pos.
Qed.

(** The outcome of [_match_auto] on a grid. *)
Lemma match_auto_outcome (s : Z) (sell : Transaction.t) (strategy : string)
    (db : DB) :
  0 <= s ->
  (forall k row, parcel_table db !! k = Some row ->
                 on_grid s (Parcel.remaining_quantity row)) ->
  on_grid s (Transaction.quantity sell) ->
  0 <= units s (Transaction.quantity sell) < 10 ^ prec ->
  let lots := available_parcels sell strategy db in
  let caps := List.map (remaining_units s) lots in
  let need := units s (Transaction.quantity sell) in
  (need <= total caps ->
   exists ms,
     _match_auto sell (Transaction.quantity sell) strategy db = (Ok ms, db)
     /\ List.map ParcelMatch.parcel ms = take (length ms) lots
     /\ List.map (matched_units s) ms = greedy caps need
     /\ Forall (built_for sell) ms
     /\ total (List.map (matched_units s) ms) = need)
  /\ (total caps < need ->
      exists available,
        _match_auto sell (Transaction.quantity sell) strategy db
        = (Raise (EMatching
                    (InsufficientParcels (Transaction.quantity sell) available)),
           db)
        /\ units s available = total caps).
Proof.
  intros Hs Hgrid Hgq Hq lots caps need.
  pose proof (available_parcels_grid s sell strategy db Hgrid) as Hlots.
  fold lots in Hlots.
  destruct (auto_loop_spec s sell lots Hs [] (Transaction.quantity sell)
              Hlots Hgq Hq)
    as (ms & rest & Heq & Hparcels & Hunits & Hbuilt & Hgrest & Hurest).
  fold caps need in Hunits, Hurest. cbn [app] in Heq.
  assert (Hpos : Forall (fun c => 0 < c) caps).
  { unfold caps. apply List.Forall_forall. intros c Hc.
    apply in_map_iff in Hc as (p & <- & Hp).
    rewrite List.Forall_forall in Hlots. now apply Hlots. }
  pose proof (greedy_total caps need Hpos (proj1 Hq)) as Htot.
  pose proof (total_nonneg caps Hpos) as Hcaps.
  pose proof (on_grid_D0 s Hs) as Hg0.
  assert (Hrun : _match_auto sell (Transaction.quantity sell) strategy db
                 = if 0 <? units s rest
                   then (Raise (EMatching
                                  (InsufficientParcels (Transaction.quantity sell)
                                     (Transaction.quantity sell - rest)%D)), db)
                   else (Ok ms, db)).
  { unfold _match_auto, bind, query. fold lots. rewrite Heq.
    rewrite (Dltb_units s D0 rest), units_D0 by assumption.
    now destruct (0 <? units s rest). }
  rewrite Hrun, Hurest, Htot. split.
  - intros Hle. exists ms.
    destruct (Z.ltb_spec 0 (need - Z.min need (total caps))); [lia|].
    repeat split; auto. rewrite Hunits, Htot. lia.
  - intros Hlt. eexists.
    destruct (Z.ltb_spec 0 (need - Z.min need (total caps))); [|lia].
    split; [reflexivity|].
    destruct (Dsub_grid s (Transaction.quantity sell) rest Hgq Hgrest)
      as (_ & _ & Hu); [rewrite Hurest, Htot; unfold need in *; lia|].
    rewrite Hu, Hurest, Htot. unfold need in *. lia.
Qed.

(** C5.  For a disposal whose quantity is non-negative, with the quantity
    and the lots' remaining quantities whole numbers of a common unit 10^-s
    within the decimal precision: the candidates of an earliest-first
    (latest-first) allocation are exactly the stored lots of the disposal's
    security with a remaining quantity above zero, in ascending (descending)
    order of acquisition date; the proposals take min(lot.remaining,
    stillNeeded) from the lots in that order until the need is met; and the
    call either returns proposals whose matched quantities add up to the
    disposal quantity, when the lots hold enough, or fails with the error
    that reports the quantity needed and the quantity available, never
    returning less than asked.  The database is not modified. *)
Theorem match_auto_greedy (s : Z) (sell : Transaction.t) (strategy : string)
    (db : DB) :
  0 <= s ->
  Transaction.is_sell sell = true ->
  strategy = "fifo" \/ strategy = "lifo" ->
  (forall k row, parcel_table db !! k = Some row ->
                 on_grid s (Parcel.remaining_quantity row)) ->
  on_grid s (Transaction.quantity sell) ->
  0 <= units s (Transaction.quantity sell) < 10 ^ prec ->
  let lots := available_parcels sell strategy db in
  let caps := List.map (remaining_units s) lots in
  let need := units s (Transaction.quantity sell) in
  (forall p, In p lots
             <-> (exists k, parcel_table db !! k = Some p)
                 /\ eligible (Transaction.security sell) p = true)
  /\ Permutation lots
       (List.filter (eligible (Transaction.security sell)) (ParcelObjects.all db))
  /\ (strategy = "fifo" -> StronglySorted by_date_asc lots)
  /\ (strategy = "lifo" -> StronglySorted by_date_desc lots)
  /\ (need <= total caps ->
      exists ms,
        match_ sell strategy None None db = (Ok ms, db)
        /\ List.map ParcelMatch.parcel ms = take (length ms) lots
        /\ List.map (matched_units s) ms = greedy caps need
        /\ Forall (built_for sell) ms
        /\ total (List.map (matched_units s) ms) = need)
  /\ (total caps < need ->
      exists available,
        match_ sell strategy None None db
        = (Raise (EMatching
                    (InsufficientParcels (Transaction.quantity sell) available)),
           db)
        /\ units s available = total caps).
Proof.
  intros Hs Hsell Hstrat Hgrid Hgq Hq lots caps need.
  destruct (available_parcels_spec sell strategy db) as (Hin & Hperm & Hasc & Hdesc).
  assert (Hrun : match_ sell strategy None None db
                 = _match_auto sell (Transaction.quantity sell) strategy db).
  { unfold match_. rewrite Hsell. now destruct Hstrat as [-> | ->]. }
  rewrite Hrun.
  destruct (match_auto_outcome s sell strategy db Hs Hgrid Hgq Hq) as [Hok Hfail].
  split; [exact Hin|]. split; [exact Hperm|]. split; [exact Hasc|].
  split; [intros ->; now apply Hdesc|]. split; assumption.
Qed.

Lemma db0_grid (k : Z) (row : Parcel.t) :
  parcel_table Samples.db0 !! k = Some row ->
  on_grid 0 (Parcel.remaining_quantity row).
Proof. intros H. now destruct (db0_rows_ok k row H) as [[Hg _] _]. Qed.

(** The specification's second example, earliest-first: 60 units against
    the lots of 30 and 50 take 30 from each; 100 units are refused. *)
Lemma match_auto_greedy_witness :
  Transaction.is_sell Samples.sell_60 = true
  /\ on_grid 0 (Transaction.quantity Samples.sell_60)
  /\ 0 <= units 0 (Transaction.quantity Samples.sell_60) < 10 ^ prec
  /\ match_ Samples.sell_60 "fifo" None None Samples.db0
     = (Ok Samples.proposals_60, Samples.db0)
  /\ exists available,
       match_ Samples.sell_100 "fifo" None None Samples.db0
       = (Raise (EMatching (InsufficientParcels (mkDec 100 0) available)),
          Samples.db0)
       /\ units 0 available = 80.
Proof.
  assert (H60 : 0 <= units 0 (Transaction.quantity Samples.sell_60) < 10 ^ prec)
    by (vm_compute; split; congruence).
  assert (H100 : 0 <= units 0 (Transaction.quantity Samples.sell_100) < 10 ^ prec)
    by (vm_compute; split; congruence).
  assert (Hg : on_grid 0 (mkDec 60 0)) by (vm_compute; congruence).
  assert (Hg' : on_grid 0 (mkDec 100 0)) by (vm_compute; congruence).
  split; [reflexivity|]. split; [exact Hg|]. split; [exact H60|]. split.
  - destruct (match_auto_greedy 0 Samples.sell_60 "fifo" Samples.db0
                (Z.le_refl 0) eq_refl (or_introl eq_refl) db0_grid Hg H60)
      as (_ & _ & _ & _ & Hok & _).
    destruct Hok as (ms & Hrun & _); [vm_compute; congruence|].
    rewrite Hrun. f_equal. f_equal.
    assert (Hfst : fst (match_ Samples.sell_60 "fifo" None None Samples.db0)
                   = Ok Samples.proposals_60) by (vm_compute; reflexivity).
    rewrite Hrun in Hfst. now injection Hfst.
  - destruct (match_auto_greedy 0 Samples.sell_100 "fifo" Samples.db0
                (Z.le_refl 0) eq_refl (or_introl eq_refl) db0_grid Hg' H100)
      as (_ & _ & _ & _ & _ & Hfail).
    destruct Hfail as (available & Hrun & Hu); [vm_compute; reflexivity|].
    exists available. split; [exact Hrun|].
    rewrite Hu. vm_compute. reflexivity.
Defined.

(** The conditions on the quantity are needed.  A transaction's quantity is
    positive and has at most 18 digits; outside that, a disposal of -5
    units is answered by an empty list of proposals, and a disposal of
    50.00000000000000000000000000001 units by proposals of 30 and
    20.00000000000000000000000000 units. *)
Lemma match_auto_negative_quantity :
  match_ Samples.sell_negative "fifo" None None Samples.db0 = (Ok [], Samples.db0)
  /\ ~ (Dsum [] == Transaction.quantity Samples.sell_negative)%D.
Proof. split; [vm_compute; reflexivity|]. vm_compute. discriminate. Qed.

Lemma match_auto_beyond_precision :
  exists ms,
    match_ Samples.sell_31 "fifo" None None Samples.db0 = (Ok ms, Samples.db0)
    /\ List.map ParcelMatch.matched_quantity ms
       = [mkDec 30 0; mkDec 2000000000000000000000000000 (-26)]
    /\ ~ (Dsum (List.map ParcelMatch.matched_quantity ms)
          == Transaction.quantity Samples.sell_31)%D.
Proof.
  eexists. split; [vm_compute; reflexivity|]. split; [reflexivity|].
  vm_compute. discriminate.
Qed.

End Allocation.

(** ** The allocation engine: manual *)

Section Manual.
Import ManualSpec matching.

Lemma manual_loop_spec (sell : Transaction.t) (pairs : list (Parcel.t * Decimal)) :
  forall matches total_matched,
    let positives := List.filter (fun pq => negb (snd pq <=? D0)%D) pairs in
    (forallb (pair_ok sell) positives = true ->
     manual_loop sell pairs matches total_matched
     = Ok (matches
           ++ List.map (fun pq => _build_match (fst pq) sell (snd pq)) positives,
           fold_left Dadd (List.map snd positives) total_matched))
    /\ (forallb (pair_ok sell) positives = false ->
        exists e, manual_loop sell pairs matches total_matched
                  = Raise (EMatching e)).
Proof.
  induction pairs as [|[p q] pairs IH]; intros matches total_matched positives.
  - cbn. rewrite app_nil_r. split; [reflexivity|discriminate].
  - subst positives. cbn [List.filter manual_loop snd].
    destruct (q <=? D0)%D; cbn [negb]; [apply IH|].
    cbn [forallb List.map fold_left fst snd]. unfold pair_ok at 1 3.
    cbn [fst snd].
    destruct (Parcel.remaining_quantity p <? q)%D; cbn [negb andb].
    { split; [discriminate|eauto]. }
    destruct (Parcel.security_id p =? Transaction.security_id sell);
      cbn [negb andb].
    + destruct (IH (matches ++ [_build_match p sell q]) (total_matched + q)%D)
        as [IH1 IH2].
      split; [|exact IH2].
      intros H. rewrite (IH1 H), <- app_assoc. reflexivity.
    + split; [discriminate|eauto].
Qed.

(** C6, as the code has it.  Pairs whose quantity is zero or negative are
    skipped without any check and yield no proposal.  A manual allocation
    succeeds exactly when both lists are non-empty and of the same length,
    every pair with a quantity above zero has a quantity of at most its
    lot's remaining quantity and a lot of the disposal's security, and the
    quantities above zero add up to the disposal's quantity; it then returns
    one proposal per such pair, in order.  In every other case the whole
    call fails with an error and returns no proposal.  The database is not
    modified. *)
Theorem match_manual_all_or_nothing (sell : Transaction.t)
    (ps : list Parcel.t) (qs : list Decimal) (db : DB) :
  Transaction.is_sell sell = true ->
  (acceptable sell ps qs = true ->
   match_ sell "manual" (Some ps) (Some qs) db = (Ok (proposals sell ps qs), db)
   /\ length (proposals sell ps qs) = length (positive_pairs ps qs))
  /\ (acceptable sell ps qs = false ->
      exists e, match_ sell "manual" (Some ps) (Some qs) db
                = (Raise (EMatching e), db))
  /\ match_ sell "manual" None (Some qs) db
     = (Raise (EMatching ManualRequiresParcels), db)
  /\ match_ sell "manual" (Some ps) None db
     = (Raise (EMatching ManualRequiresParcels), db).
Proof.
  intros Hsell.
  assert (Hrun : forall a b,
             match_ sell "manual" a b db
             = (_match_manual sell (Transaction.quantity sell) a b, db)).
  { intros a b. unfold match_. rewrite Hsell. reflexivity. }
  rewrite !Hrun. unfold acceptable, proposals, _match_manual.
  split; [|split; [|split]].
  - intros Hacc. apply andb_true_iff in Hacc as [Hacc Hsum].
    apply andb_true_iff in Hacc as [Hacc Hall].
    apply andb_true_iff in Hacc as [Hacc Hlen].
    apply andb_true_iff in Hacc as [Hps Hqs].
    destruct ps as [|p ps]; [discriminate|]. destruct qs as [|q qs]; [discriminate|].
    unfold default, id. cbn [is_empty orb]. rewrite Hlen. cbn [negb].
    destruct (manual_loop_spec sell (combine (p :: ps) (q :: qs)) [] D0) as [Hok _].
    rewrite (Hok Hall). cbn [app]. fold (positive_pairs (p :: ps) (q :: qs)).
    unfold Dsum in Hsum. rewrite Hsum. cbn [negb].
    split; [reflexivity|]. apply length_map.
  - intros Hacc.
    destruct ps as [|p ps]; [cbn; eauto|]. destruct qs as [|q qs]; [cbn; eauto|].
    unfold default, id. cbn [is_empty orb].
    change (negb (length (p :: ps) =? 0)%nat) with true in Hacc.
    change (negb (length (q :: qs) =? 0)%nat) with true in Hacc.
    cbn [andb] in Hacc.
    destruct (length (p :: ps) =? length (q :: qs))%nat;
      cbn [negb andb] in *; [|eauto].
    destruct (manual_loop_spec sell (combine (p :: ps) (q :: qs)) [] D0)
      as [Hok Hbad].
    fold (positive_pairs (p :: ps) (q :: qs)) in Hok, Hbad.
    destruct (forallb (pair_ok sell) (positive_pairs (p :: ps) (q :: qs))).
    + rewrite (Hok eq_refl). cbn [andb] in Hacc. unfold Dsum in Hacc.
      rewrite Hacc. cbn [negb]. eauto.
    + destruct (Hbad eq_refl) as [e ->]. eauto.
  - reflexivity.
  - destruct ps; reflexivity.
Qed.

(** A manual allocation of the 60 units, 30 from each lot, and one that
    asks 60 units of lot 2. *)
Lemma match_manual_all_or_nothing_witness :
  Transaction.is_sell Samples.sell_60 = true
  /\ acceptable Samples.sell_60 [Samples.lot_1; Samples.lot_2]
       [mkDec 30 0; mkDec 30 0] = true
  /\ match_ Samples.sell_60 "manual" (Some [Samples.lot_1; Samples.lot_2])
       (Some [mkDec 30 0; mkDec 30 0]) Samples.db0
     = (Ok Samples.proposals_60, Samples.db0)
  /\ acceptable Samples.sell_60 [Samples.lot_2] [mkDec 60 0] = false
  /\ exists e, match_ Samples.sell_60 "manual" (Some [Samples.lot_2])
                 (Some [mkDec 60 0]) Samples.db0
               = (Raise (EMatching e), Samples.db0).
Proof.
  assert (Hs : Transaction.is_sell Samples.sell_60 = true) by reflexivity.
  assert (Ha : acceptable Samples.sell_60 [Samples.lot_1; Samples.lot_2]
                 [mkDec 30 0; mkDec 30 0] = true) by (vm_compute; reflexivity).
  assert (Hb : acceptable Samples.sell_60 [Samples.lot_2] [mkDec 60 0] = false)
    by (vm_compute; reflexivity).
  split; [exact Hs|]. split; [exact Ha|]. split; [|split; [exact Hb|]].
  - exact (proj1 (proj1 (match_manual_all_or_nothing Samples.sell_60
                           [Samples.lot_1; Samples.lot_2]
                           [mkDec 30 0; mkDec 30 0] Samples.db0 Hs) Ha)).
  - exact (proj1 (proj2 (match_manual_all_or_nothing Samples.sell_60
                           [Samples.lot_2] [mkDec 60 0] Samples.db0 Hs)) Hb).
Defined.

(** C6 as stated fails: with the pairs (lot 2, 50) and (CBA lot, -20) for a
    disposal of 50 BHP units the call succeeds and returns one proposal for
    the two pairs, although the second lot is of another security and the
    supplied quantities add up to 30. *)
Lemma match_manual_counterexample :
  match_ Samples.sell_50 "manual" (Some [Samples.lot_2; Samples.lot_cba])
    (Some [mkDec 50 0; mkDec (-20) 0]) Samples.db0
  = (Ok [_build_match Samples.lot_2 Samples.sell_50 (mkDec 50 0)], Samples.db0)
  /\ Parcel.security_id Samples.lot_cba
     <> Transaction.security_id Samples.sell_50
  /\ ~ (Dsum [mkDec 50 0; mkDec (-20) 0]
        == Transaction.quantity Samples.sell_50)%D.
Proof.
  split; [vm_compute; reflexivity|]. split; vm_compute; discriminate.
Qed.

End Manual.

(** ** The forecast engine *)

Section Forecast.
Import AllocSpec forecasting.

Lemma available_nil_iff (security : Security.t) (db : DB) :
  ParcelObjects.available security db = []
  <-> forall k row, parcel_table db !! k = Some row ->
                    eligible security row = false.
Proof.
  split.
  - intros Hnil k row Hk. apply not_true_is_false. intros He.
    assert (Hin : In row (ParcelObjects.available security db))
      by (apply available_In; eauto).
    rewrite Hnil in Hin. destruct Hin.
  - intros Hall. destruct (ParcelObjects.available security db) as [|p l] eqn:Ha;
      [reflexivity|].
    assert (Hin : In p (ParcelObjects.available security db))
      by (rewrite Ha; now left).
    apply available_In in Hin as [[k Hk] He].
    rewrite (Hall k p Hk) in He. discriminate.
Qed.

(** The straight-line form of [forecast]. *)
Lemma forecast_run (today : Date.date) (security : Security.t)
    (quantity sell_price : Decimal) (sell_date : option Date.date) (db : DB) :
  forecast today security quantity sell_price sell_date db
  = if coef quantity <=? 0 then (Raise (EForecast QuantityNotPositive), db)
    else if coef sell_price <=? 0 then (Raise (EForecast PriceNotPositive), db)
    else
      match ParcelObjects.available security db with
      | [] => (Raise (EForecast (NoAvailableParcels (Security.ticker security))),
               db)
      | _ :: _ =>
          if (total_available security db <? quantity)%D
          then (Raise (EForecast
                         (InsufficientForecast quantity
                            (total_available security db)
                            (Security.ticker security))), db)
          else
            let d := default today sell_date in
            let run le :=
              _simulate_strategy
                (sort_by le (ParcelObjects.available security db))
                security quantity sell_price d in
            (Ok (mkForecast security quantity sell_price d
                   (run ParcelObjects.by_acquisition_date)
                   (run ParcelObjects.by_acquisition_date_desc)
                   (run ParcelObjects.by_cost_per_unit_desc)), db)
      end.
Proof.
  unfold forecast. rewrite !Dleb_D0.
  destruct (coef quantity <=? 0); [reflexivity|].
  destruct (coef sell_price <=? 0); [reflexivity|].
  unfold bind, query, raise, ret.
  destruct (ParcelObjects.available security db) as [|p l] eqn:Ha;
    [reflexivity|].
  cbn [length Nat.eqb negb].
  destruct (total_available security db <? quantity)%D; rewrite ?Ha; reflexivity.
Qed.

(** C8.  A forecast fails, with a forecast error, exactly when the quantity
    is not above zero, the price is not above zero, no stored lot of the
    security has a remaining quantity above zero, or the total remaining
    quantity of those lots is below the quantity asked; otherwise it
    returns a report.  In every case the database is left as it was. *)
Theorem forecast_fails_iff (today : Date.date) (security : Security.t)
    (quantity sell_price : Decimal) (sell_date : option Date.date) (db : DB) :
  let r := forecast today security quantity sell_price sell_date db in
  snd r = db
  /\ ((exists e, fst r = Raise (EForecast e))
      <-> (coef quantity <= 0
           \/ coef sell_price <= 0
           \/ (forall k row, parcel_table db !! k = Some row ->
                             eligible security row = false)
           \/ (total_available security db <? quantity)%D = true))
  /\ ((exists report, fst r = Ok report)
      <-> ~ (coef quantity <= 0
             \/ coef sell_price <= 0
             \/ (forall k row, parcel_table db !! k = Some row ->
                               eligible security row = false)
             \/ (total_available security db <? quantity)%D = true)).
Proof.
  intros r. subst r. rewrite forecast_run.
  rewrite <- (available_nil_iff security db).
  assert (Hfail : forall (e : ForecastError) (P : Prop), P ->
            snd (@Raise forecast_dict (EForecast e), db) = db
            /\ ((exists e', fst (@Raise forecast_dict (EForecast e), db)
                            = Raise (EForecast e')) <-> P)
            /\ ((exists report, fst (@Raise forecast_dict (EForecast e), db)
                                = Ok report) <-> ~ P)).
  { intros e P HP. cbn. split; [reflexivity|]. split; split.
    - intros _. exact HP.
    - intros _. eauto.
    - intros [? H]. discriminate H.
    - intros Hn. contradiction. }
  destruct (Z.leb_spec (coef quantity) 0) as [Hq|Hq].
  { apply Hfail. tauto. }
  destruct (Z.leb_spec (coef sell_price) 0) as [Hp|Hp].
  { apply Hfail. tauto. }
  destruct (ParcelObjects.available security db) as [|p l] eqn:Ha.
  { apply Hfail. right. right. left. reflexivity. }
  destruct (total_available security db <? quantity)%D eqn:Ht.
  { apply Hfail. tauto. }
  cbn. split; [reflexivity|]. split; split.
  - intros [? H]; discriminate H.
  - intros [?|[?|[?|?]]]; (lia || discriminate).
  - intros _ [?|[?|[?|?]]]; (lia || discriminate).
  - eauto.
Qed.

Lemma total_perm (xs ys : list Z) : Permutation xs ys -> total xs = total ys.
Proof.
  induction 1 as [|x xs ys _ IH|x y xs|xs ys zs _ IH1 _ IH2];
    rewrite ?total_cons; lia.
Qed.

Lemma fold_Dadd_grid (s : Z) (ds : list Decimal) :
  forall acc,
    on_grid s acc -> 0 <= units s acc ->
    Forall (fun d => on_grid s d /\ 0 < units s d) ds ->
    units s acc + total (List.map (units s) ds) < 10 ^ prec ->
    on_grid s (fold_left Dadd ds acc)
    /\ units s (fold_left Dadd ds acc)
       = units s acc + total (List.map (units s) ds).
Proof.
  induction ds as [|d ds IH]; intros acc Hg Hacc Hds Hlt.
  - cbn. split; [assumption|lia].
  - inversion Hds as [|? ? [Hgd Hd] Hrest]; subst.
    cbn [List.map] in Hlt. rewrite total_cons in Hlt.
    assert (Hpos : Forall (fun c => 0 < c) (List.map (units s) ds)).
    { apply List.Forall_forall. intros c Hc.
      apply in_map_iff in Hc as (x & <- & Hx).
      rewrite List.Forall_forall in Hrest. now apply Hrest. }
    pose proof (total_nonneg _ Hpos) as Htot.
    destruct (Dadd_grid s acc d Hg Hgd) as (_ & Hg' & Hu'); [lia|].
    cbn [fold_left List.map]. rewrite total_cons.
    destruct (IH (acc + d)%D Hg' ltac:(lia) Hrest ltac:(lia)) as [IH1 IH2].
    split; [assumption|]. rewrite IH2, Hu'. lia.
Qed.

Lemma base_qs_grid (s : Z) (security : Security.t) (db : DB)
    (le : Parcel.t -> Parcel.t -> bool) :
  (forall k row, parcel_table db !! k = Some row ->
                 on_grid s (Parcel.remaining_quantity row)) ->
  Forall (fun p => on_grid s (Parcel.remaining_quantity p)
                   /\ 0 < remaining_units s p)
         (sort_by le (ParcelObjects.available security db)).
Proof.
  intros Hgrid. apply List.Forall_forall. intros p Hin.
  eapply Permutation_in in Hin; [|apply sort_by_perm].
  apply available_In in Hin as [[k Hk] He].
  pose proof (Hgrid k p Hk) as Hg. split; [assumption|].
  unfold eligible in He. apply andb_true_iff in He as [_ He].
  now apply units_pos.
Qed.

(** When the check of the total passes, the lots hold at least the
    quantity asked, in whatever order they are listed. *)
Lemma total_available_enough (s : Z) (security : Security.t) (db : DB)
    (quantity : Decimal) (le : Parcel.t -> Parcel.t -> bool) :
  0 <= s ->
  (forall k row, parcel_table db !! k = Some row ->
                 on_grid s (Parcel.remaining_quantity row)) ->
  on_grid s quantity -> units s quantity < 10 ^ prec ->
  (total_available security db <? quantity)%D = false ->
  units s quantity
  <= total (List.map (remaining_units s)
              (sort_by le (ParcelObjects.available security db))).
Proof.
  intros Hs Hgrid Hgq Hq Hcheck.
  rewrite (total_perm _ (List.map (remaining_units s) (base_qs security db))).
  2:{ apply Permutation_map. unfold base_qs.
      rewrite sort_by_perm. symmetry. apply sort_by_perm. }
  destruct (Z_lt_le_dec
              (total (List.map (remaining_units s) (base_qs security db)))
              (units s quantity)) as [Hlt|]; [exfalso|assumption].
  pose proof (base_qs_grid s security db ParcelObjects.by_acquisition_date Hgrid)
    as Hlots. fold (base_qs security db) in Hlots.
  destruct (fold_Dadd_grid s
              (List.map Parcel.remaining_quantity (base_qs security db)) D0
              (on_grid_D0 s Hs)) as [Hg Hu].
  - rewrite units_D0. lia.
  - rewrite List.Forall_forall in *. intros d Hd.
    apply in_map_iff in Hd as (p & <- & Hp). now apply Hlots.
  - rewrite units_D0, List.map_map. unfold remaining_units in Hlt. lia.
  - unfold total_available, Dsum in Hcheck.
    rewrite (Dltb_units s) in Hcheck by assumption.
    rewrite Hu, units_D0, List.map_map in Hcheck.
    unfold remaining_units in Hlt. apply Z.ltb_ge in Hcheck. lia.
Qed.

Lemma simulate_loop_spec (s : Z) (fake_sell : _FakeSellTransaction)
    (lots : list Parcel.t) :
  0 <= s ->
  forall st,
    Forall (fun p => on_grid s (Parcel.remaining_quantity p)
                     /\ 0 < remaining_units s p) lots ->
    on_grid s (sim_remaining st) -> 0 <= units s (sim_remaining st) < 10 ^ prec ->
    let st' := simulate_loop fake_sell lots st in
    let caps := List.map (remaining_units s) lots in
    exists new,
      sim_consumed st' = sim_consumed st ++ new
      /\ List.map (fun c => units s (matched_quantity c)) new
         = greedy caps (units s (sim_remaining st))
      /\ List.map parcel_id new = List.map Parcel.pk (take (length new) lots)
      /\ on_grid s (sim_remaining st')
      /\ units s (sim_remaining st')
         = units s (sim_remaining st)
           - total (greedy caps (units s (sim_remaining st))).
Proof.
  intros Hs. pose proof (on_grid_D0 s Hs) as Hg0.
  induction lots as [|p lots IH]; intros st Hlots Hg Hr.
  - exists []. cbn. rewrite app_nil_r. repeat split; auto. lia.
  - inversion Hlots as [|? ? [Hgp Hp] Hrest]; subst.
    cbn [simulate_loop List.map greedy].
    rewrite (Dleb_units s (sim_remaining st) D0), units_D0 by assumption.
    destruct (Z.leb_spec (units s (sim_remaining st)) 0) as [Hle|Hgt].
    + exists []. cbn. rewrite app_nil_r. repeat split; auto. lia.
    + destruct (Dmin_units s (Parcel.remaining_quantity p) (sim_remaining st)
                  Hgp Hg) as [Hgq Hq].
      set (qty := Dmin (Parcel.remaining_quantity p) (sim_remaining st)) in *.
      fold (remaining_units s p) in Hq.
      destruct (Dsub_grid s (sim_remaining st) qty Hg Hgq) as (_ & Hgr & Hur);
        [unfold remaining_units in *; lia|].
      match goal with
      | |- context [simulate_loop fake_sell lots ?st1] =>
          destruct (IH st1 Hrest) as (new & Hc & Hunits & Hids & Hgrest & Hurest)
      end.
      { exact Hgr. }
      { cbn [sim_remaining]. unfold remaining_units in *. lia. }
      cbn [sim_consumed sim_remaining] in Hc, Hunits, Hurest.
      eexists (_ :: new). rewrite Hc, <- app_assoc. cbn [app].
      split; [reflexivity|].
      cbn [List.map length take matched_quantity parcel_id].
      rewrite Hunits, Hids, Hurest, Hur, Hq, total_cons.
      repeat split; auto. lia.
Qed.

Lemma simulate_strategy_full (s : Z) (lots : list Parcel.t)
    (security : Security.t) (quantity sell_price : Decimal)
    (sell_date : Date.date) :
  0 <= s ->
  Forall (fun p => on_grid s (Parcel.remaining_quantity p)
                   /\ 0 < remaining_units s p) lots ->
  on_grid s quantity -> 0 <= units s quantity < 10 ^ prec ->
  units s quantity <= total (List.map (remaining_units s) lots) ->
  let r := _simulate_strategy lots security quantity sell_price sell_date in
  (quantity_matched r == quantity)%D
  /\ (quantity_shortfall r == D0)%D
  /\ total (List.map (fun c => units s (matched_quantity c)) (parcels_consumed r))
     = units s quantity.
Proof.
  intros Hs Hlots Hgq Hq Hle r. subst r. unfold _simulate_strategy.
  match goal with
  | |- context [simulate_loop ?fake lots ?st0] =>
      destruct (simulate_loop_spec s fake lots Hs st0 Hlots Hgq Hq)
        as (new & Hc & Hunits & _ & Hgrest & Hurest);
      set (st' := simulate_loop fake lots st0) in *
  end.
  cbn [sim_remaining sim_consumed app] in Hc, Hunits, Hurest.
  assert (Hpos : Forall (fun c => 0 < c) (List.map (remaining_units s) lots)).
  { apply List.Forall_forall. intros c Hc'.
    apply in_map_iff in Hc' as (p & <- & Hp).
    rewrite List.Forall_forall in Hlots. now apply Hlots. }
  rewrite (greedy_total _ _ Hpos (proj1 Hq)) in Hurest.
  cbn [quantity_matched quantity_shortfall parcels_consumed].
  destruct (Dsub_grid s quantity (sim_remaining st') Hgq Hgrest)
    as (_ & Hgm & Hum); [lia|].
  pose proof (on_grid_D0 s Hs) as Hg0.
  rewrite (Deq_units s _ _ Hgm Hgq), (Deq_units s _ _ Hgrest Hg0), units_D0.
  rewrite Hc, Hunits, (greedy_total _ _ Hpos (proj1 Hq)). lia.
Qed.

(** C10, as the code has it.  When the quantity asked and the lots'
    remaining quantities are whole numbers of a common unit 10^-s and the
    quantity asked has at most 28 digits in that unit, every strategy
    result of a successful forecast reports a matched quantity equal to the
    quantity asked and a shortfall of zero, whatever the order in which the
    strategy lists the lots. *)
Theorem forecast_fully_matched (s : Z) (today : Date.date)
    (security : Security.t) (quantity sell_price : Decimal)
    (sell_date : option Date.date) (db db' : DB) (report : forecast_dict) :
  0 <= s ->
  (forall k row, parcel_table db !! k = Some row ->
                 on_grid s (Parcel.remaining_quantity row)) ->
  on_grid s quantity -> units s quantity < 10 ^ prec ->
  forecast today security quantity sell_price sell_date db = (Ok report, db') ->
  forall r, r = fifo report \/ r = lifo report \/ r = optimal report ->
    (quantity_matched r == quantity)%D
    /\ (quantity_shortfall r == D0)%D
    /\ total (List.map (fun c => units s (matched_quantity c))
                (parcels_consumed r))
       = units s quantity.
Proof.
  intros Hs Hgrid Hgq Hq Hrun r Hr. rewrite forecast_run in Hrun.
  destruct (Z.leb_spec (coef quantity) 0) as [|Hpos]; [discriminate|].
  destruct (coef sell_price <=? 0); [discriminate|].
  destruct (ParcelObjects.available security db) as [|p l] eqn:Ha;
    [discriminate|].
  destruct (total_available security db <? quantity)%D eqn:Hcheck;
    [discriminate|].
  cbv zeta in Hrun. rewrite <- Ha in Hrun. injection Hrun as <- _.
  assert (Hq0 : 0 <= units s quantity < 10 ^ prec).
  { split; [|assumption]. rewrite (units_coef s _ Hgq). unfold on_grid in Hgq.
    pose proof (pow10_pos (expo quantity + s) ltac:(lia)). nia. }
  cbn [fifo lifo optimal] in Hr.
  destruct Hr as [-> | [-> | ->]];
    (apply simulate_strategy_full;
     [assumption | now apply base_qs_grid | assumption | assumption
     | now apply total_available_enough]).
Qed.

Lemma forecast_fully_matched_witness :
  on_grid 0 (mkDec 60 0) /\ units 0 (mkDec 60 0) < 10 ^ prec
  /\ exists report,
       forecast Samples.today Samples.bhp (mkDec 60 0) (mkDec 5500 (-2)) None
         Samples.db0 = (Ok report, Samples.db0)
       /\ (quantity_matched (fifo report) == mkDec 60 0)%D
       /\ (quantity_shortfall (lifo report) == D0)%D.
Proof.
  assert (Hg : on_grid 0 (mkDec 60 0)) by (vm_compute; congruence).
  assert (Hq : units 0 (mkDec 60 0) < 10 ^ prec) by (vm_compute; reflexivity).
  split; [exact Hg|]. split; [exact Hq|].
  destruct (forecast Samples.today Samples.bhp (mkDec 60 0) (mkDec 5500 (-2)) None
              Samples.db0) as [r db'] eqn:Hrun.
  assert (Hdb : db' = Samples.db0).
  { change db' with (snd (r, db')). rewrite <- Hrun. vm_compute. reflexivity. }
  assert (Hok : is_ok r = true).
  { change r with (fst (r, db')). rewrite <- Hrun. vm_compute. reflexivity. }
  destruct r as [report|e]; [|discriminate]. subst db'.
  exists report. split; [reflexivity|].
  pose proof (forecast_fully_matched 0 Samples.today Samples.bhp (mkDec 60 0)
                (mkDec 5500 (-2)) None Samples.db0 Samples.db0 report
                (Z.le_refl 0) db0_grid Hg Hq Hrun) as H.
  split.
  - exact (proj1 (H (fifo report) (or_introl eq_refl))).
  - exact (proj1 (proj2 (H (lifo report) (or_intror (or_introl eq_refl))))).
Defined.

(** C10 as stated fails: a forecast of 50.00000000000000000000000000001
    units against the lots of 30 and 50 succeeds and reports
    50.00000000000000000000000000 units matched, which is not the quantity
    asked. *)
Lemma forecast_rounding_counterexample :
  exists report,
    forecast Samples.today Samples.bhp Samples.q_31 (mkDec 5500 (-2)) None
      Samples.db0 = (Ok report, Samples.db0)
    /\ quantity_matched (fifo report) = mkDec 5000000000000000000000000000 (-26)
    /\ ~ (quantity_matched (fifo report) == Samples.q_31)%D.
Proof.
  eexists. split; [vm_compute; reflexivity|]. split; [reflexivity|].
  vm_compute. discriminate.
Qed.

End Forecast.

(** ** Numeric equality is a congruence for decimal arithmetic *)

Section DecCongruence.

Lemma round_half_even_shift (a k j : Z) :
  0 <= k -> 0 <= j ->
  round_half_even (a * 10 ^ j) (k + j) = round_half_even a k.
Proof.
  intros Hk Hj. unfold round_half_even.
  pose proof (pow10_pos k Hk) as Hpk. pose proof (pow10_pos j Hj) as Hpj.
  rewrite Z.pow_add_r by lia.
  rewrite Z.div_mul_cancel_r by lia.
  rewrite Z.mul_mod_distr_r by lia.
  set (q := a / 10 ^ k). set (r := a mod 10 ^ k).
  replace (10 ^ k * 10 ^ j <? 2 * (r * 10 ^ j)) with (10 ^ k <? 2 * r).
  2:{ destruct (Z.ltb_spec (10 ^ k) (2 * r));
        destruct (Z.ltb_spec (10 ^ k * 10 ^ j) (2 * (r * 10 ^ j)));
        (reflexivity || nia). }
  replace (2 * (r * 10 ^ j) =? 10 ^ k * 10 ^ j) with (2 * r =? 10 ^ k).
  2:{ destruct (Z.eqb_spec (2 * r) (10 ^ k));
        destruct (Z.eqb_spec (2 * (r * 10 ^ j)) (10 ^ k * 10 ^ j));
        (reflexivity || nia). }
  reflexivity.
Qed.

Lemma round_half_even_zeros (a k j : Z) :
  0 <= a -> 0 < k <= j ->
  round_half_even (a * 10 ^ j) k = a * 10 ^ (j - k).
Proof.
  intros Ha Hk. unfold round_half_even.
  pose proof (pow10_pos k ltac:(lia)) as Hpk.
  rewrite (pow10_split j k) by lia.
  rewrite Z.mul_assoc, Z.div_mul, Z.mod_mul by lia.
  cbn [Z.mul]. change (2 * 0) with 0.
  destruct (Z.ltb_spec (10 ^ k) 0); [lia|].
  destruct (Z.eqb_spec 0 (10 ^ k)); [lia|]. reflexivity.
Qed.

Lemma shift_Deq (c e j : Z) : 0 <= j -> (mkDec (c * 10 ^ j) (e - j) == mkDec c e)%D.
Proof.
  intros Hj. apply (Deq_at _ _ (e - j)); cbn [expo]; try lia.
  unfold scaled. cbn [coef expo].
  replace (e - j - (e - j)) with 0 by lia. replace (e - (e - j)) with j by lia.
  change (10 ^ 0) with 1. lia.
Qed.

Lemma Dfix_shift (c e j : Z) :
  0 <= j -> (Dfix (mkDec (c * 10 ^ j) (e - j)) == Dfix (mkDec c e))%D.
Proof.
  intros Hj. pose proof (pow10_pos j Hj) as Hpj.
  destruct (Z.eq_dec c 0) as [->|Hc].
  { rewrite Z.mul_0_l. unfold Dfix. cbn [coef Z.eqb].
    now apply (shift_Deq 0 e j) in Hj; rewrite Z.mul_0_l in Hj. }
  assert (Hc' : c * 10 ^ j <> 0) by nia.
  destruct (ndigits_spec c Hc) as (Hn1 & Hlo & Hhi).
  pose proof (ndigits_shift c j Hc Hj) as Hn'.
  unfold Dfix. cbn [coef expo].
  destruct (Z.eqb_spec (c * 10 ^ j) 0) as [|_]; [contradiction|].
  destruct (Z.eqb_spec c 0) as [|_]; [contradiction|].
  rewrite Hn'.
  destruct (Z.leb_spec (ndigits c + j) prec) as [Hsmall|Hbig].
  - destruct (Z.leb_spec (ndigits c) prec); [|lia]. now apply shift_Deq.
  - destruct (Z.leb_spec (ndigits c) prec) as [Hle|Hgt].
    + (* only the padding zeros are dropped *)
      rewrite Z.abs_mul, (Z.abs_eq (10 ^ j)) by lia.
      rewrite round_half_even_zeros by lia.
      set (k' := ndigits c + j - prec) in *.
      assert (Hq : Z.abs c * 10 ^ (j - k') < 10 ^ prec).
      { replace prec with (ndigits c + (j - k')) by (unfold k'; lia).
        rewrite Z.pow_add_r by lia.
        pose proof (pow10_pos (j - k') ltac:(lia)). nia. }
      destruct (Z.leb_spec (10 ^ prec) (Z.abs c * 10 ^ (j - k'))); [lia|].
      rewrite Z.sgn_mul, (Z.sgn_pos (10 ^ j)), Z.mul_1_r by lia.
      rewrite Z.mul_assoc, (Z.mul_comm (Z.sgn c) (Z.abs c)), Z.abs_sgn.
      replace (e - j + k') with (e - (j - k')) by lia.
      apply shift_Deq. lia.
    + (* the same digits are rounded away on both sides *)
      rewrite Z.abs_mul, (Z.abs_eq (10 ^ j)) by lia.
      replace (ndigits c + j - prec) with ((ndigits c - prec) + j) by lia.
      rewrite round_half_even_shift by lia.
      rewrite Z.sgn_mul, (Z.sgn_pos (10 ^ j)), Z.mul_1_r by lia.
      replace (e - j + (ndigits c - prec + j) + 1)
        with (e + (ndigits c - prec) + 1) by lia.
      replace (e - j + (ndigits c - prec + j))
        with (e + (ndigits c - prec)) by lia.
      apply Deq_refl.
Qed.




Lemma scaled_exact_add (a b : Decimal) (m : Z) :
  m <= expo a -> m <= expo b ->
  scaled (exact_add a b) m = scaled a m + scaled b m.
Proof.
  intros Ha Hb. set (m0 := Z.min (expo a) (expo b)).
  rewrite (scaled_lower (exact_add a b) m0 m) by (cbn [exact_add expo]; lia).
  rewrite (scaled_lower a m0 m), (scaled_lower b m0 m) by lia.
  unfold scaled at 1. cbn [exact_add coef expo]. fold m0.
  replace (m0 - m0) with 0 by lia. change (10 ^ 0) with 1. lia.
Qed.










End DecCongruence.

(** ** Forecast and commit agree *)

Section Refinement.
Import AllocSpec CommitSpec ForecastSpec matching forecasting.


Lemma Dmin_not_exceeds (a b : Decimal) : Dltb a (Dmin a b) = false.
Proof.
  unfold Dmin. destruct (Dltb b a) eqn:Hba; [|apply Dltb_irrefl].
  set (m := Z.min (expo a) (expo b)).
  rewrite (Dltb_at b a m) in Hba by lia. rewrite (Dltb_at a b m) by lia.
  apply Z.ltb_lt in Hba. apply Z.ltb_ge. lia.
Qed.


Lemma NoDup_map_filter {A B : Type} (f : A -> B) (g : A -> bool) (l : list A) :
  List.NoDup (List.map f l) -> List.NoDup (List.map f (List.filter g l)).
Proof.
  induction l as [|x l IH]; cbn; intros Hnd; [constructor|].
  apply List.NoDup_cons_iff in Hnd as [Hx Hnd].
  destruct (g x); cbn; auto. constructor; [|auto].
  intros Hin. apply Hx. apply in_map_iff in Hin as (y & Hy & Hin).
  apply filter_In in Hin as [Hin _]. apply in_map_iff. eauto.
Qed.

Lemma NoDup_map_take {A B : Type} (f : A -> B) (l : list A) :
  forall n, List.NoDup (List.map f l) -> List.NoDup (List.map f (take n l)).
Proof.
  induction l as [|x l IH]; intros [|n] Hnd; cbn; try constructor.
  - apply List.NoDup_cons_iff in Hnd as [Hx _]. intros Hin. apply Hx.
    apply in_map_iff in Hin as (y & Hy & Hin). apply in_map_iff.
    exists y. split; [assumption|].
    rewrite <- (firstn_skipn n l). apply in_or_app. now left.
  - apply IH. now apply List.NoDup_cons_iff in Hnd as [_ Hnd].
Qed.

Lemma available_pks_NoDup (security : Security.t) (db : DB)
    (le : Parcel.t -> Parcel.t -> bool) :
  table_wf (parcel_table db) ->
  List.NoDup (List.map Parcel.pk (sort_by le (ParcelObjects.available security db))).
Proof.
  intros Hwf. eapply Permutation_NoDup.
  - apply Permutation_map, Permutation_sym, sort_by_perm.
  - unfold ParcelObjects.available. apply NoDup_map_filter.
    unfold ParcelObjects.all. rewrite List.map_map.
    rewrite (map_ext_in _ fst).
    + apply NoDup_ListNoDup, NoDup_fst_map_to_list.
    + intros [k row] Hin. cbn.
      apply list_elem_of_In, elem_of_map_to_list in Hin. now apply Hwf.
Qed.

(** Proposals for distinct stored lots, none above its lot's remaining
    quantity, commit without a race. *)
Lemma distinct_lots_no_race (ms : list ParcelMatch.t) :
  forall tbl,
    List.NoDup (List.map ParcelMatch.parcel_id ms) ->
    (forall m, In m ms ->
               tbl !! ParcelMatch.parcel_id m = Some (ParcelMatch.parcel m)
               /\ (Parcel.remaining_quantity (ParcelMatch.parcel m)
                   <? ParcelMatch.matched_quantity m)%D = false) ->
    lost_race ms tbl = false.
Proof.
  induction ms as [|m ms IH]; intros tbl Hnd Hall; [reflexivity|].
  cbn [List.map] in Hnd. apply List.NoDup_cons_iff in Hnd as [Hm Hnd].
  destruct (Hall m ltac:(now left)) as [Hrow Hle].
  cbn [lost_race]. unfold exceeds at 1. rewrite Hrow, Hle. cbn [orb].
  apply IH; [assumption|].
  intros m' Hin. destruct (Hall m' ltac:(now right)) as [Hrow' Hle'].
  split; [|assumption].
  unfold debit. rewrite Hrow. rewrite lookup_insert_ne; [assumption|].
  intros Heq. apply Hm. rewrite Heq. now apply in_map.
Qed.












End Refinement.

(** * Further properties of the services *)

(** ** The allocation engine: what every proposal satisfies *)

Section MatchFacts.
Import AllocSpec CommitSpec ManualSpec matching.

Lemma Dsub_self (a : Decimal) : coef (a - a)%D = 0.
Proof.
  unfold Dsub, Dadd, Dneg, scaled. cbn [coef expo].
  rewrite Z.min_id, Z.sub_diag. change (10 ^ 0) with 1.
  replace (coef a * 1 + - coef a * 1) with 0 by lia.
  reflexivity.
Qed.

Lemma Dleb_false_pos (r : Decimal) : (r <=? D0)%D = false -> (D0 <? r)%D = true.
Proof.
  rewrite Dleb_D0, Dltb_D0. intros H.
  apply Z.leb_gt in H. now apply Z.ltb_lt.
Qed.

Lemma Dmin_pos (a b : Decimal) :
  (D0 <? a)%D = true -> (D0 <? b)%D = true -> (D0 <? Dmin a b)%D = true.
Proof. intros Ha Hb. unfold Dmin. now destruct (b <? a)%D. Qed.

Lemma auto_loop_done (sell : Transaction.t) (lots : list Parcel.t)
    (matches : list ParcelMatch.t) (remaining : Decimal) :
  (remaining <=? D0)%D = true ->
  auto_loop sell lots matches remaining = (matches, remaining).
Proof. intros H. destruct lots; cbn [auto_loop]; [reflexivity|]. now rewrite H. Qed.

(** What the loop of [_match_auto] appends: proposals for a prefix of the
    lots, each built by the tax calculator, none above its lot's remaining
    quantity, positive when the lot holds something, and every one but the
    last taking its lot's whole remaining quantity. *)
Lemma auto_loop_shape (sell : Transaction.t) (lots : list Parcel.t) :
  forall matches remaining,
    exists new rest,
      auto_loop sell lots matches remaining = (matches ++ new, rest)
      /\ List.map ParcelMatch.parcel new = take (length new) lots
      /\ Forall (built_for sell) new
      /\ Forall (fun m => (Parcel.remaining_quantity (ParcelMatch.parcel m)
                           <? ParcelMatch.matched_quantity m)%D = false) new
      /\ Forall (fun m => (D0 <? Parcel.remaining_quantity (ParcelMatch.parcel m))%D
                          = true ->
                          (D0 <? ParcelMatch.matched_quantity m)%D = true) new
      /\ Forall (fun m => ParcelMatch.matched_quantity m
                          = Parcel.remaining_quantity (ParcelMatch.parcel m))
                (removelast new).
Proof.
  induction lots as [|p lots IH]; intros matches remaining.
  - exists [], remaining. cbn. rewrite app_nil_r. repeat split; constructor.
  - cbn [auto_loop]. destruct (remaining <=? D0)%D eqn:Hrem.
    + exists [], remaining. cbn. rewrite app_nil_r. repeat split; constructor.
    + set (qty := Dmin (Parcel.remaining_quantity p) remaining).
      assert (Hhead : built_for sell (_build_match p sell qty)) by reflexivity.
      assert (Hle : (Parcel.remaining_quantity (ParcelMatch.parcel
                                                  (_build_match p sell qty))
                     <? ParcelMatch.matched_quantity (_build_match p sell qty))%D
                    = false) by apply Dmin_not_exceeds.
      assert (Hpos : (D0 <? Parcel.remaining_quantity
                              (ParcelMatch.parcel (_build_match p sell qty)))%D
                     = true ->
                     (D0 <? ParcelMatch.matched_quantity
                              (_build_match p sell qty))%D = true).
      { cbn [_build_match ParcelMatch.parcel ParcelMatch.matched_quantity].
        intros Hp. apply Dmin_pos; [assumption|now apply Dleb_false_pos]. }
      destruct (Dmin_cases (Parcel.remaining_quantity p) remaining)
        as [[Hlt Hq]|[Hlt Hq]]; fold qty in Hq.
      * rewrite auto_loop_done.
        2:{ rewrite Hq, Dleb_D0, Dsub_self. reflexivity. }
        exists [_build_match p sell qty], (remaining - qty)%D.
        repeat split; try (constructor; [assumption|constructor]).
        cbn. constructor.
      * destruct (IH (matches ++ [_build_match p sell qty]) (remaining - qty)%D)
          as (new & rest & Hrun & Hparcels & Hbuilt & Hles & Hposs & Hfull).
        exists (_build_match p sell qty :: new), rest.
        rewrite Hrun, <- app_assoc. cbn [app length take List.map].
        rewrite Hparcels.
        repeat split; try (constructor; assumption).
        destruct new as [|m new]; [constructor|].
        change (removelast (_build_match p sell qty :: m :: new))
          with (_build_match p sell qty :: removelast (m :: new)).
        constructor; [exact Hq|assumption].
Qed.

Lemma In_take {A} (x : A) (n : nat) (l : list A) : In x (take n l) -> In x l.
Proof.
  intros H. rewrite <- (firstn_skipn n l). apply in_or_app. now left.
Qed.

Lemma match_auto_inv (sell : Transaction.t) (strategy : string) (db db' : DB)
    (ms : list ParcelMatch.t) :
  _match_auto sell (Transaction.quantity sell) strategy db = (Ok ms, db') ->
  exists rest,
    auto_loop sell (available_parcels sell strategy db) []
      (Transaction.quantity sell) = (ms, rest)
    /\ db' = db.
Proof.
  unfold _match_auto, bind, query.
  destruct (auto_loop sell (available_parcels sell strategy db) []
              (Transaction.quantity sell)) as [ms' rest].
  destruct (D0 <? rest)%D; [discriminate|]. intros [= <- <-]. eauto.
Qed.

Lemma match_manual_inv (sell : Transaction.t) (ps : option (list Parcel.t))
    (qs : option (list Decimal)) (ms : list ParcelMatch.t) :
  _match_manual sell (Transaction.quantity sell) ps qs = Ok ms ->
  exists ps' qs',
    ps = Some ps' /\ qs = Some qs'
    /\ ms = proposals sell ps' qs'
    /\ forallb (pair_ok sell) (positive_pairs ps' qs') = true.
Proof.
  unfold _match_manual.
  destruct ps as [[|p ps]|]; cbn [is_empty orb]; try discriminate.
  destruct qs as [[|q qs]|]; cbn [is_empty orb]; try discriminate.
  unfold default, id.
  destruct (negb (length (p :: ps) =? length (q :: qs))%nat); [discriminate|].
  destruct (manual_loop_spec sell (combine (p :: ps) (q :: qs)) [] D0)
    as [Hok Hbad].
  fold (positive_pairs (p :: ps) (q :: qs)) in Hok, Hbad.
  destruct (forallb (pair_ok sell) (positive_pairs (p :: ps) (q :: qs))) eqn:Hall.
  - rewrite (Hok eq_refl). cbn [app].
    destruct (negb _); [discriminate|]. intros [= <-].
    exists (p :: ps), (q :: qs). auto.
  - destruct (Hbad eq_refl) as [e ->]. discriminate.
Qed.


(** X1.  [match] never writes to the database, raises matching errors
    only, refuses a transaction that is not a sell and a strategy other
    than manual, fifo and lifo, and does not look at the allocations already
    saved. *)
Theorem match_read_only (sell : Transaction.t) (strategy : string)
    (ps : option (list Parcel.t)) (qs : option (list Decimal)) (db : DB) :
  snd (match_ sell strategy ps qs db) = db
  /\ (forall e, fst (match_ sell strategy ps qs db) = Raise e ->
                exists me, e = EMatching me)
  /\ (Transaction.is_sell sell = false ->
      fst (match_ sell strategy ps qs db) = Raise (EMatching MustBeSell))
  /\ (Transaction.is_sell sell = true ->
      strategy <> "manual" -> strategy <> "fifo" -> strategy <> "lifo" ->
      fst (match_ sell strategy ps qs db)
      = Raise (EMatching (UnknownStrategy strategy)))
  /\ (forall saved,
        fst (match_ sell strategy ps qs (mkDB (parcel_table db) saved))
        = fst (match_ sell strategy ps qs db)).
Proof.
  assert (Hauto : forall q d,
            snd (_match_auto sell q strategy d) = d
            /\ forall e, fst (_match_auto sell q strategy d) = Raise e ->
                         exists me, e = EMatching me).
  { intros q d. unfold _match_auto, bind, query.
    destruct (auto_loop sell (available_parcels sell strategy d) [] q) as [ms r].
    destruct (D0 <? r)%D; cbn; split; try reflexivity.
    - intros e [= <-]. eauto.
    - discriminate. }
  assert (Hind : forall q saved,
            fst (_match_auto sell q strategy (mkDB (parcel_table db) saved))
            = fst (_match_auto sell q strategy db)).
  { intros q saved. unfold _match_auto, bind, query.
    change (available_parcels sell strategy (mkDB (parcel_table db) saved))
      with (available_parcels sell strategy db).
    destruct (auto_loop sell (available_parcels sell strategy db) [] q) as [ms r].
    now destruct (D0 <? r)%D. }
  assert (Hman : forall e,
            _match_manual sell (Transaction.quantity sell) ps qs = Raise e ->
            exists me, e = EMatching me).
  { unfold _match_manual.
    destruct (is_empty ps || is_empty qs); [intros e [= <-]; eauto|].
    destruct (negb _); [intros e [= <-]; eauto|].
    destruct (manual_loop_spec sell (combine (default [] ps) (default [] qs))
                [] D0) as [Hok Hbad].
    destruct (forallb _ _).
    - rewrite (Hok eq_refl). destruct (negb _); [intros e [= <-]; eauto|discriminate].
    - destruct (Hbad eq_refl) as [e' ->]. intros e [= <-]. eauto. }
  unfold match_. destruct (Transaction.is_sell sell); cbn [negb].
  2:{ repeat split; try reflexivity; try discriminate. intros e [= <-]. eauto. }
  destruct (String.eqb_spec strategy "manual") as [->|Hm].
  { repeat split; try reflexivity; try discriminate; try congruence.
    cbn. apply Hman. }
  destruct (String.eqb_spec strategy "fifo") as [->|Hf];
    [|destruct (String.eqb_spec strategy "lifo") as [->|Hl]]; cbn [orb].
  - destruct (Hauto (Transaction.quantity sell) db).
    repeat split; try assumption; try discriminate; try congruence.
    all: try apply Hind.
  - destruct (Hauto (Transaction.quantity sell) db).
    repeat split; try assumption; try discriminate; try congruence.
    all: try apply Hind.
  - repeat split; try reflexivity; try discriminate.
    intros e [= <-]. eauto.
Qed.

(** X2.  Every proposal [match] returns, whatever the strategy, is what the
    tax calculator gives for its lot and the sell, is for a lot of the
    sell's security, has a matched quantity above zero and not above the
    remaining quantity of its lot. *)
Theorem match_proposals_sound (sell : Transaction.t) (strategy : string)
    (ps : option (list Parcel.t)) (qs : option (list Decimal)) (db db' : DB)
    (ms : list ParcelMatch.t) :
  match_ sell strategy ps qs db = (Ok ms, db') ->
  Transaction.is_sell sell = true
  /\ Forall (fun m =>
               built_for sell m
               /\ Parcel.security_id (ParcelMatch.parcel m)
                  = Transaction.security_id sell
               /\ (D0 <? ParcelMatch.matched_quantity m)%D = true
               /\ (Parcel.remaining_quantity (ParcelMatch.parcel m)
                   <? ParcelMatch.matched_quantity m)%D = false) ms.
Proof.
  unfold match_. destruct (Transaction.is_sell sell); cbn [negb]; [|discriminate].
  intros Hrun. split; [reflexivity|].
  destruct (String.eqb strategy "manual").
  - unfold lift in Hrun. injection Hrun as Hrun _.
    apply match_manual_inv in Hrun as (ps' & qs' & -> & -> & -> & Hall).
    unfold proposals. rewrite forallb_forall in Hall.
    apply List.Forall_forall. intros m Hm.
    apply in_map_iff in Hm as ([p q] & <- & Hin).
    pose proof (Hall _ Hin) as Hok. unfold pair_ok in Hok.
    apply andb_true_iff in Hok as [Hle Hsec].
    apply filter_In in Hin as [_ Hpos]. cbn [fst snd] in *.
    cbn [_build_match ParcelMatch.parcel ParcelMatch.matched_quantity].
    repeat split.
    + now apply Z.eqb_eq.
    + apply Dleb_false_pos. now apply negb_true_iff.
    + now apply negb_true_iff.
  - destruct (String.eqb strategy "fifo" || String.eqb strategy "lifo");
      [|discriminate].
    apply match_auto_inv in Hrun as (rest & Hloop & _).
    destruct (auto_loop_shape sell (available_parcels sell strategy db) []
                (Transaction.quantity sell))
      as (new & rest' & Hrun & Hparcels & Hbuilt & Hle & Hpos & _).
    rewrite Hloop in Hrun. cbn [app] in Hrun. injection Hrun as <- _.
    apply List.Forall_forall. intros m Hm.
    rewrite List.Forall_forall in Hbuilt, Hle, Hpos.
    assert (Hin : In (ParcelMatch.parcel m) (available_parcels sell strategy db)).
    { apply (In_take _ (length ms)). rewrite <- Hparcels. now apply in_map. }
    apply (proj1 (available_parcels_spec sell strategy db)) in Hin as [_ Hel].
    unfold eligible in Hel. apply andb_true_iff in Hel as [Hsec Hrem].
    repeat split; auto. now apply Z.eqb_eq.
Qed.

(** X3.  The proposals of an automatic allocation are for the first lots
    of the ordered candidates, one proposal per lot and no lot twice, and
    every proposal but the last takes the whole remaining quantity of its
    lot. *)
Theorem match_auto_whole_lots (sell : Transaction.t) (strategy : string)
    (db db' : DB) (ms : list ParcelMatch.t) :
  table_wf (parcel_table db) ->
  strategy = "fifo" \/ strategy = "lifo" ->
  match_ sell strategy None None db = (Ok ms, db') ->
  List.map ParcelMatch.parcel ms
  = take (length ms) (available_parcels sell strategy db)
  /\ List.NoDup (List.map ParcelMatch.parcel_id ms)
  /\ Forall (fun m => ParcelMatch.matched_quantity m
                      = Parcel.remaining_quantity (ParcelMatch.parcel m))
            (removelast ms).
Proof.
  intros Hwf Hstrat. unfold match_.
  destruct (Transaction.is_sell sell); cbn [negb]; [|discriminate].
  assert (Hrun : (if String.eqb strategy "manual"
                  then lift (_match_manual sell (Transaction.quantity sell)
                               None None)
                  else if String.eqb strategy "fifo" || String.eqb strategy "lifo"
                       then _match_auto sell (Transaction.quantity sell) strategy
                       else raise (EMatching (UnknownStrategy strategy)))
                 = _match_auto sell (Transaction.quantity sell) strategy)
    by (now destruct Hstrat as [-> | ->]).
  rewrite Hrun. clear Hrun. intros Hrun.
  apply match_auto_inv in Hrun as (rest & Hloop & _).
  destruct (auto_loop_shape sell (available_parcels sell strategy db) []
              (Transaction.quantity sell))
    as (new & rest' & Hrun & Hparcels & _ & _ & _ & Hfull).
  rewrite Hloop in Hrun. cbn [app] in Hrun. injection Hrun as <- _.
  split; [exact Hparcels|]. split; [|exact Hfull].
  unfold ParcelMatch.parcel_id.
  rewrite <- (List.map_map ParcelMatch.parcel Parcel.pk), Hparcels.
  apply NoDup_map_take. now apply available_pks_NoDup.
Qed.

End MatchFacts.

(** ** The commit engine: what it changes and what it keeps *)

Section CommitFacts.
Import AllocSpec CommitSpec ManualSpec CommitFrame matching.

(** A commit that succeeds found every parcel and lost no race: the
    database it leaves is the one described by [debit_all]. *)
Lemma confirm_loop_ok_inv (ms : list ParcelMatch.t) :
  forall saved db out db',
    table_wf (parcel_table db) ->
    confirm_loop ms saved db = (Ok out, db') ->
    refs_exist ms (parcel_table db) /\ lost_race ms (parcel_table db) = false.
Proof.
  induction ms as [|m ms IH]; intros saved db out db' Hwf Hrun.
  - split; [intros m []|reflexivity].
  - cbn [confirm_loop] in Hrun. unfold bind in Hrun.
    destruct (parcel_table db !! ParcelMatch.parcel_id m) as [row|] eqn:Hrow.
    + rewrite (confirm_one_spec m db row Hwf Hrow) in Hrun.
      destruct (exceeds m (parcel_table db)) eqn:Hex; [discriminate|].
      cbv zeta in Hrun.
      apply IH in Hrun as [Hrefs Hrace]; [|now apply debit_wf].
      cbn [parcel_table] in Hrefs, Hrace. split.
      * intros m' [<-|Hin]; [rewrite Hrow; eauto|].
        apply (debit_is_Some m). now apply Hrefs.
      * cbn [lost_race]. rewrite Hex. exact Hrace.
    + unfold confirm_one, bind, ParcelObjects.get in Hrun.
      rewrite Hrow in Hrun. discriminate.
Qed.

Lemma confirm_matches_ok_inv (ms saved : list ParcelMatch.t) (db db' : DB) :
  table_wf (parcel_table db) ->
  confirm_matches ms db = (Ok saved, db') ->
  lost_race ms (parcel_table db) = false
  /\ db' = mkDB (debit_all ms (parcel_table db)) (parcel_match_table db ++ saved)
  /\ Forall2 persisted ms saved.
Proof.
  intros Hwf. unfold confirm_matches, atomic.
  destruct (confirm_loop ms [] db) as [[out|e] db''] eqn:Hloop; [|discriminate].
  intros [= <- <-].
  destruct (confirm_loop_ok_inv ms [] db out db'' Hwf Hloop) as [Hrefs Hrace].
  pose proof (confirm_loop_spec ms [] db Hwf Hrefs) as H.
  rewrite Hrace, Hloop in H. destruct H as (saved' & Heq & Hall).
  cbn [app] in Heq. injection Heq as -> ->. auto.
Qed.

Lemma confirm_distinct_proposals (ms : list ParcelMatch.t) (db : DB) :
  table_wf (parcel_table db) ->
  List.NoDup (List.map ParcelMatch.parcel_id ms) ->
  (forall m, In m ms ->
             parcel_table db !! ParcelMatch.parcel_id m
             = Some (ParcelMatch.parcel m)
             /\ (Parcel.remaining_quantity (ParcelMatch.parcel m)
                 <? ParcelMatch.matched_quantity m)%D = false) ->
  exists saved,
    confirm_matches ms db
    = (Ok saved, mkDB (debit_all ms (parcel_table db))
                      (parcel_match_table db ++ saved))
    /\ Forall2 persisted ms saved.
Proof.
  intros Hwf Hnd Hall.
  assert (Hrefs : refs_exist ms (parcel_table db)).
  { intros m Hm. destruct (Hall m Hm) as [-> _]. eauto. }
  pose proof (confirm_loop_spec ms [] db Hwf Hrefs) as H.
  rewrite (distinct_lots_no_race ms _ Hnd Hall) in H.
  destruct H as (saved & Heq & Hp).
  exists saved. unfold confirm_matches, atomic. rewrite Heq. cbn [app]. auto.
Qed.



Lemma debit_lookup_ne (m : ParcelMatch.t) (tbl : gmap Z Parcel.t) (k : Z) :
  ParcelMatch.parcel_id m <> k -> debit m tbl !! k = tbl !! k.
Proof.
  intros Hne. unfold debit.
  destruct (tbl !! ParcelMatch.parcel_id m); [|reflexivity].
  now rewrite lookup_insert_ne.
Qed.

Lemma debit_lookup_eq (m : ParcelMatch.t) (tbl : gmap Z Parcel.t) :
  debit m tbl !! ParcelMatch.parcel_id m
  = debited (ParcelMatch.matched_quantity m) <$> tbl !! ParcelMatch.parcel_id m.
Proof.
  unfold debit. destruct (tbl !! ParcelMatch.parcel_id m) eqn:Hrow.
  - now rewrite lookup_insert_eq.
  - now rewrite Hrow.
Qed.

Lemma same_lot_refl (row : Parcel.t) : same_lot row row.
Proof. unfold same_lot. tauto. Qed.

Lemma same_lot_debited (q : Decimal) (row row' : Parcel.t) :
  same_lot row row' -> same_lot row (debited q row').
Proof.
  unfold same_lot, debited.
  cbn [Parcel.pk Parcel.security Parcel.acquisition_date Parcel.original_quantity
       Parcel.cost_per_unit_aud Parcel.total_cost_base_aud
       Parcel.is_fully_matched Parcel.set_is_fully_matched
       Parcel.set_remaining_quantity].
  intros (H1 & H2 & H3 & H4 & H5 & H6 & H7). repeat split; try assumption.
  intros Hflag. rewrite (H7 Hflag). now destruct (_ =? _)%D.
Qed.

Lemma debit_all_frame (ms : list ParcelMatch.t) :
  forall tbl k,
    (is_Some (debit_all ms tbl !! k) <-> is_Some (tbl !! k))
    /\ ((forall m, In m ms -> ParcelMatch.parcel_id m <> k) ->
        debit_all ms tbl !! k = tbl !! k)
    /\ (forall row row0 row',
          same_lot row0 row -> tbl !! k = Some row ->
          debit_all ms tbl !! k = Some row' -> same_lot row0 row').
Proof.
  induction ms as [|m ms IH]; intros tbl k; cbn [debit_all fold_left].
  - split; [tauto|]. split; [tauto|].
    intros row row0 row' Hs Hrow. rewrite Hrow. now intros [= <-].
  - fold (debit_all ms (debit m tbl)).
    destruct (IH (debit m tbl) k) as (Hkeys & Hframe & Hrows).
    split; [|split].
    + rewrite Hkeys. apply debit_is_Some.
    + intros Hne. rewrite Hframe by (intros m' Hin; apply Hne; now right).
      apply debit_lookup_ne, Hne. now left.
    + intros row row0 row' Hs Hrow.
      destruct (decide (ParcelMatch.parcel_id m = k)) as [<-|Hne].
      * apply (Hrows (debited (ParcelMatch.matched_quantity m) row)).
        -- now apply same_lot_debited.
        -- now rewrite debit_lookup_eq, Hrow.
      * apply (Hrows row); [assumption|]. now rewrite debit_lookup_ne.
Qed.

(** X5.  A successful commit creates and deletes no parcel, leaves the
    parcels no allocation refers to as they were, changes nothing of a
    parcel but its remaining quantity and its depleted flag, never clears
    a depleted flag, and keeps the allocations saved before, adding one
    allocation per proposal after them. *)
Theorem commit_frame (ms saved : list ParcelMatch.t) (db db' : DB) :
  table_wf (parcel_table db) ->
  confirm_matches ms db = (Ok saved, db') ->
  (forall k, is_Some (parcel_table db' !! k) <-> is_Some (parcel_table db !! k))
  /\ (forall k, (forall m, In m ms -> ParcelMatch.parcel_id m <> k) ->
                parcel_table db' !! k = parcel_table db !! k)
  /\ (forall k row row',
        parcel_table db !! k = Some row -> parcel_table db' !! k = Some row' ->
        same_lot row row')
  /\ parcel_match_table db' = parcel_match_table db ++ saved
  /\ length saved = length ms.
Proof.
  intros Hwf Hrun.
  destruct (confirm_matches_ok_inv ms saved db db' Hwf Hrun) as (_ & -> & Hp).
  cbn [parcel_table parcel_match_table].
  split; [|split; [|split; [|split]]].
  - intros k. apply (debit_all_frame ms).
  - intros k. apply (debit_all_frame ms).
  - intros k row row' Hrow Hrow'.
    apply (proj2 (proj2 (debit_all_frame ms (parcel_table db) k)) row row row');
      auto using same_lot_refl.
  - reflexivity.
  - symmetry. exact (Forall2_length _ _ _ Hp).
Qed.




End CommitFacts.

(** ** The year selector of the report *)

Section ReportFacts.
Import FySpec cgt reports.

Lemma valid_date_bounds (d : Date.date) :
  valid_date d ->
  1 <= Date.month d <= 12 /\ 1 <= Date.day d
  /\ (Date.month d = 6 -> Date.day d <= 30).
Proof.
  unfold valid_date, Date.new.
  destruct (_ && _) eqn:H; [|discriminate]. intros _.
  repeat (apply andb_true_iff in H as [H ?]).
  repeat match goal with H : (_ <=? _) = true |- _ => apply Z.leb_le in H end.
  repeat split; try lia. intros H6. rewrite H6 in *.
  change (Date.days_in_month (Date.year d) 6) with 30 in *. lia.
Qed.

Lemma get_fy_range_Some (Y : Z) (a b : Date.date) :
  get_fy_range Y = Some (a, b) -> a = fy_start Y /\ b = fy_end Y.
Proof.
  unfold get_fy_range, Date.new.
  destruct (_ && _); [|discriminate]. destruct (_ && _); [|discriminate].
  now intros [= <- <-].
Qed.

Lemma in_window_fy_of (Y : Z) (d : Date.date) :
  valid_date d -> in_window Y d = true <-> Y = fy_of d.
Proof.
  intros Hd. destruct (valid_date_bounds d Hd) as (Hm & Hday & H6).
  rewrite in_window_iff, !Date_leb_iff. unfold fy_start, fy_end, fy_of.
  cbn [Date.year Date.month Date.day].
  destruct (Z.leb_spec 7 (Date.month d)); lia.
Qed.

(** X7.  The windows of the financial years partition the calendar: a
    date lies in the window of exactly one year, the one the report's
    year selector computes for it (the next year from July on). *)
Theorem fy_windows_partition (Y : Z) (d a b : Date.date) :
  valid_date d ->
  get_fy_range Y = Some (a, b) ->
  (Date.leb a d && Date.leb d b = true <-> Y = fy_of d).
Proof.
  intros Hd Hr. apply get_fy_range_Some in Hr as [-> ->].
  now apply in_window_fy_of.
Qed.

Lemma date_eqb_eq (a b : Date.date) : date_eqb a b = true <-> a = b.
Proof.
  destruct a as [y m d], b as [y' m' d']. unfold date_eqb.
  cbn [Date.year Date.month Date.day].
  rewrite !andb_true_iff, !Z.eqb_eq. split.
  - now intros [[-> ->] ->].
  - intros [= -> -> ->]. auto.
Qed.

Lemma distinct_In (l : list Date.date) (d : Date.date) :
  In d (distinct l) <-> In d l.
Proof.
  induction l as [|x l IH]; cbn [distinct]; [tauto|].
  destruct (existsb (date_eqb x) l) eqn:Hex; cbn [In]; rewrite IH; [|tauto].
  split; [tauto|]. intros [<-|H]; [|assumption].
  apply existsb_exists in Hex as (x' & Hin & Heq).
  apply date_eqb_eq in Heq. now subst.
Qed.

Lemma fold_fys_elem (dates : list Date.date) :
  forall (acc : gset Z) (y : Z),
    y ∈ fold_left (fun (fys : gset Z) d => fys ∪ {[ fy_of d ]}) dates acc
    <-> y ∈ acc \/ exists d, In d dates /\ fy_of d = y.
Proof.
  induction dates as [|d dates IH]; intros acc y; cbn [fold_left].
  - split; [tauto|]. intros [H|(d & [] & _)]. exact H.
  - rewrite IH, elem_of_union, elem_of_singleton. cbn [In]. split.
    + intros [[H|H]|(d' & Hin & H)]; eauto.
    + intros [H|(d' & [<-|Hin] & H)]; eauto.
Qed.

Lemma Sorted_NoDup_strict (l : list Z) :
  Sorted (fun a b => (b <=? a) = true) l -> List.NoDup l ->
  StronglySorted (fun a b => b < a) l.
Proof.
  intros Hs Hnd.
  apply Sorted_StronglySorted in Hs.
  2:{ intros a b c Hab Hbc. apply Z.leb_le in Hab, Hbc. apply Z.leb_le. lia. }
  induction Hs as [|a l Hs IH Hall]; constructor.
  - apply IH. now apply List.NoDup_cons_iff in Hnd as [_ Hnd].
  - apply List.NoDup_cons_iff in Hnd as [Ha _].
    rewrite List.Forall_forall in *. intros b Hb.
    pose proof (Hall b Hb) as Hle. apply Z.leb_le in Hle.
    assert (a <> b) by (intros ->; contradiction). lia.
Qed.

Lemma available_fys_run (db : DB) :
  exists years,
    _get_available_fys db
    = (Ok (List.map (fun y => mkFy y (fy_label y)) years), db)
    /\ StronglySorted (fun a b => b < a) years
    /\ forall y, In y years
                 <-> exists m, In m (parcel_match_table db)
                               /\ fy_of (disposal_date m) = y.
Proof.
  unfold _get_available_fys, bind, query, ret.
  set (fys := fold_left _ (sell_dates db) ∅).
  exists (sort_by (fun a b => b <=? a) (elements fys)).
  split; [reflexivity|]. split.
  - apply Sorted_NoDup_strict.
    + apply sort_by_sorted. intros a b.
      destruct (Z.leb_spec b a), (Z.leb_spec a b); auto; lia.
    + eapply Permutation_NoDup; [apply Permutation_sym, sort_by_perm|].
      apply NoDup_ListNoDup, NoDup_elements.
  - intros y. transitivity (y ∈ fys).
    + rewrite <- elem_of_elements, list_elem_of_In. split; apply Permutation_in.
      * apply sort_by_perm.
      * apply Permutation_sym, sort_by_perm.
    + unfold fys. rewrite fold_fys_elem. split.
      * intros [H|(d & Hin & Hy)]; [set_solver|].
        apply (Permutation_in _ (sort_by_perm _ _)) in Hin.
        apply distinct_In, in_map_iff in Hin as (m & <- & Hm). eauto.
      * intros (m & Hm & Hy). right. exists (disposal_date m). split; [|exact Hy].
        apply (Permutation_in _ (Permutation_sym (sort_by_perm _ _))).
        apply distinct_In, in_map_iff. eauto.
Qed.

Lemma fy_summary_count (y : Z) (db : DB) :
  Date.MINYEAR < y <= Date.MAXYEAR ->
  exists s,
    fy_summary y db = (Ok s, db)
    /\ match_count s
       = Z.of_nat (length (List.filter (fun m => in_window y (disposal_date m))
                             (parcel_match_table db))).
Proof.
  intros Hy. unfold fy_summary. rewrite (get_fy_range_ok y Hy).
  unfold bind, query, ret. eexists. split; [reflexivity|].
  cbn [match_count]. f_equal. unfold matches_in_range.
  apply Permutation_length, sort_by_perm.
Qed.

(** X8.  The years the report offers are strictly decreasing, each with
    its label, and they are the financial years of the sell dates of the
    saved allocations; a year from 2 to 9999 is offered exactly when its
    summary counts at least one allocation. *)
Theorem available_fys_have_summaries (db : DB) :
  (forall m, In m (parcel_match_table db) -> valid_date (disposal_date m)) ->
  exists entries,
    _get_available_fys db = (Ok entries, db)
    /\ StronglySorted (fun a b => b < a) (List.map fy entries)
    /\ Forall (fun e => label e = fy_label (fy e)) entries
    /\ (forall y, In y (List.map fy entries)
                  <-> exists m, In m (parcel_match_table db)
                                /\ fy_of (disposal_date m) = y)
    /\ (forall y, Date.MINYEAR < y <= Date.MAXYEAR ->
                  (In y (List.map fy entries)
                   <-> exists s, fy_summary y db = (Ok s, db)
                                 /\ 0 < match_count s)).
Proof.
  intros Hvalid. destruct (available_fys_run db) as (years & Hrun & Hsorted & Hin).
  exists (List.map (fun y => mkFy y (fy_label y)) years).
  assert (Hmap : List.map fy (List.map (fun y => mkFy y (fy_label y)) years) = years).
  { rewrite List.map_map. cbn [fy]. apply List.map_id. }
  rewrite Hmap. split; [exact Hrun|]. split; [exact Hsorted|].
  split; [apply List.Forall_forall; intros e He;
          apply in_map_iff in He as (y & <- & _); reflexivity|].
  split; [exact Hin|].
  intros y Hy. rewrite Hin.
  destruct (fy_summary_count y db Hy) as (s & Hs & Hcount).
  split.
  - intros (m & Hm & Hfy). exists s. split; [exact Hs|]. rewrite Hcount.
    assert (Hf : In m (List.filter (fun m => in_window y (disposal_date m))
                         (parcel_match_table db))).
    { apply filter_In. split; [assumption|].
      apply in_window_fy_of; [now apply Hvalid|now symmetry]. }
    destruct (List.filter _ _); [destruct Hf|cbn [length]; lia].
  - intros (s' & Hs' & Hpos). rewrite Hs in Hs'. injection Hs' as <-.
    rewrite Hcount in Hpos.
    destruct (List.filter _ _) as [|m l] eqn:Hf; [cbn in Hpos; lia|].
    assert (Hm : In m (List.filter (fun m => in_window y (disposal_date m))
                         (parcel_match_table db))) by (rewrite Hf; now left).
    apply filter_In in Hm as [Hm Hw]. exists m. split; [assumption|].
    symmetry. apply in_window_fy_of; [now apply Hvalid|assumption].
Qed.

End ReportFacts.

(** ** Signs and counts of a summary *)

Section SummaryFacts.
Import FySpec AllocSpec cgt.

Lemma round_half_even_ge (a k : Z) : a / 10 ^ k <= round_half_even a k.
Proof.
  unfold round_half_even. cbv zeta.
  destruct (_ || _); lia.
Qed.

Lemma Dfix_sgn (d : Decimal) : Z.sgn (coef (Dfix d)) = Z.sgn (coef d).
Proof.
  unfold Dfix. cbv zeta.
  destruct (Z.eqb_spec (coef d) 0) as [|Hc]; [reflexivity|].
  destruct (Z.leb_spec (ndigits (coef d)) prec) as [|Hn]; [reflexivity|].
  destruct (ndigits_spec (coef d) Hc) as (_ & Hlo & _).
  set (n := ndigits (coef d)) in *. set (k := n - prec).
  assert (Hk : 0 < k) by (unfold k; lia).
  assert (Hq : 10 ^ (prec - 1) <= round_half_even (Z.abs (coef d)) k).
  { etransitivity; [|apply round_half_even_ge].
    apply Z.div_le_lower_bound; [apply pow10_pos; lia|].
    rewrite <- Z.pow_add_r by (unfold prec; lia).
    replace (k + (prec - 1)) with (n - 1) by (unfold k; lia). exact Hlo. }
  assert (Hp : 0 < 10 ^ (prec - 1)) by (apply pow10_pos; unfold prec; lia).
  set (q := round_half_even (Z.abs (coef d)) k) in *.
  destruct (Z.leb_spec (10 ^ prec) q) as [Hcarry|_]; cbn [coef].
  - assert (0 < q / 10).
    { apply Z.div_str_pos. split; [lia|].
      assert (10 ^ 1 <= 10 ^ prec) by (apply pow10_le; unfold prec; lia).
      change (10 ^ 1) with 10 in *. lia. }
    rewrite Z.sgn_mul, (Z.sgn_pos (q / 10)) by assumption. lia.
  - rewrite Z.sgn_mul, (Z.sgn_pos q) by lia. lia.
Qed.

Lemma Dadd_nonneg (a b : Decimal) :
  0 <= coef a -> 0 <= coef b -> 0 <= coef (a + b)%D.
Proof.
  intros Ha Hb. unfold Dadd. cbv zeta.
  set (m := Z.min (expo a) (expo b)).
  pose proof (Dfix_sgn (mkDec (scaled a m + scaled b m) m)) as Hs.
  cbn [coef] in Hs.
  assert (0 <= scaled a m + scaled b m).
  { unfold scaled.
    assert (0 <= 10 ^ (expo a - m)) by (apply Z.pow_nonneg; lia).
    assert (0 <= 10 ^ (expo b - m)) by (apply Z.pow_nonneg; lia).
    nia. }
  lia.
Qed.

Lemma Dadd_nonpos (a b : Decimal) :
  coef a <= 0 -> coef b <= 0 -> coef (a + b)%D <= 0.
Proof.
  intros Ha Hb. unfold Dadd. cbv zeta.
  set (m := Z.min (expo a) (expo b)).
  pose proof (Dfix_sgn (mkDec (scaled a m + scaled b m) m)) as Hs.
  cbn [coef] in Hs.
  assert (scaled a m + scaled b m <= 0).
  { unfold scaled.
    assert (0 <= 10 ^ (expo a - m)) by (apply Z.pow_nonneg; lia).
    assert (0 <= 10 ^ (expo b - m)) by (apply Z.pow_nonneg; lia).
    nia. }
  lia.
Qed.

Lemma fold_Dadd_nonneg (xs : list Decimal) :
  forall a, 0 <= coef a -> Forall (fun x => 0 <= coef x) xs ->
            0 <= coef (fold_left Dadd xs a).
Proof.
  induction xs as [|x xs IH]; intros a Ha Hxs; [exact Ha|].
  apply Forall_cons_iff in Hxs as [Hx Hxs]. cbn [fold_left].
  apply IH; [now apply Dadd_nonneg|assumption].
Qed.

Lemma fold_Dadd_nonpos (xs : list Decimal) :
  forall a, coef a <= 0 -> Forall (fun x => coef x <= 0) xs ->
            coef (fold_left Dadd xs a) <= 0.
Proof.
  induction xs as [|x xs IH]; intros a Ha Hxs; [exact Ha|].
  apply Forall_cons_iff in Hxs as [Hx Hxs]. cbn [fold_left].
  apply IH; [now apply Dadd_nonpos|assumption].
Qed.

Lemma sum_gains_nonneg (ms : list ParcelMatch.t) : 0 <= coef (sum_gains ms).
Proof.
  unfold sum_gains, Dsum. apply fold_Dadd_nonneg; [reflexivity|].
  apply List.Forall_forall. intros x Hx.
  apply in_map_iff in Hx as (m & <- & Hm). apply filter_In in Hm as [_ Hg].
  unfold is_gain in Hg. rewrite Dltb_D0 in Hg. apply Z.ltb_lt in Hg. lia.
Qed.

Lemma sum_losses_nonpos (ms : list ParcelMatch.t) : coef (sum_losses ms) <= 0.
Proof.
  unfold sum_losses, Dsum. apply fold_Dadd_nonpos; [reflexivity|].
  apply List.Forall_forall. intros x Hx.
  apply in_map_iff in Hx as (m & <- & Hm). apply filter_In in Hm as [_ Hg].
  unfold is_gain in Hg. rewrite Dltb_D0 in Hg.
  apply negb_true_iff, Z.ltb_ge in Hg. exact Hg.
Qed.

Lemma fy_summary_ok_inv (year : Z) (db db' : DB) (s : summary) :
  fy_summary year db = (Ok s, db') ->
  exists a b,
    get_fy_range year = Some (a, b) /\ db' = db
    /\ s = (let ms := matches_in_range a b db in
            let acc := fold_left fy_step ms acc0 in
            mkSummary year a b (acc_gains acc) (acc_losses acc)
              (acc_discounts acc) (acc_net acc) (Z.of_nat (length ms))
              (sort_by by_ticker
                 (List.map snd (map_to_list (acc_per_security acc))))).
Proof.
  unfold fy_summary. destruct (get_fy_range year) as [[a b]|]; [|discriminate].
  unfold bind, query, ret. intros [= <- <-]. eauto.
Qed.

(** X9.  In a financial-year summary the total of the gains is never
    negative and the total of the losses never positive, for the year and
    for every security of the breakdown, whatever the rounding of the
    sums. *)
Theorem fy_summary_signs (year : Z) (db db' : DB) (s : summary) :
  fy_summary year db = (Ok s, db') ->
  0 <= coef (total_gains s)
  /\ coef (total_losses s) <= 0
  /\ Forall (fun e => 0 <= coef (sec_gains e) /\ coef (sec_losses e) <= 0)
            (per_security s).
Proof.
  intros Hrun. apply fy_summary_ok_inv in Hrun as (a & b & _ & _ & ->).
  cbv zeta. cbn [total_gains total_losses per_security].
  set (ms := matches_in_range a b db).
  split; [|split].
  - rewrite fold_fy_gains. apply sum_gains_nonneg.
  - rewrite fold_fy_losses. apply sum_losses_nonpos.
  - apply List.Forall_forall. intros e He.
    apply (Permutation_in _ (sort_by_perm _ _)) in He.
    apply per_security_In in He as (_ & ->). cbn [sec_entry sec_gains sec_losses].
    split; [apply sum_gains_nonneg|apply sum_losses_nonpos].
Qed.

Lemma total_indicator (t0 : string) (T : list string) :
  List.NoDup T -> In t0 T ->
  total (List.map (fun t => if String.eqb t0 t then 1 else 0) T) = 1.
Proof.
  induction T as [|t T IH]; intros Hnd Hin; [destruct Hin|].
  apply List.NoDup_cons_iff in Hnd as [Ht Hnd].
  cbn [List.map]. rewrite total_cons.
  destruct (String.eqb_spec t0 t) as [->|Hne].
  - assert (Hz : total (List.map (fun t' => if String.eqb t t' then 1 else 0) T) = 0).
    { clear IH Hnd Hin. induction T as [|t' T IH]; [reflexivity|].
      cbn [List.map]. rewrite total_cons.
      destruct (String.eqb_spec t t') as [->|_]; [exfalso; apply Ht; now left|].
      rewrite IH; [reflexivity|]. intros H. apply Ht. now right. }
    lia.
  - destruct Hin as [->|Hin]; [contradiction|]. rewrite (IH Hnd Hin). lia.
Qed.

Lemma total_map_add {A} (f g : A -> Z) (l : list A) :
  total (List.map (fun x => f x + g x) l)
  = total (List.map f l) + total (List.map g l).
Proof.
  induction l as [|x l IH]; [reflexivity|].
  cbn [List.map]. rewrite !total_cons, IH. lia.
Qed.

(** The allocations split by ticker: the counts per ticker add up to the
    number of allocations. *)
Lemma count_by_ticker (T : list string) (ms : list ParcelMatch.t) :
  List.NoDup T ->
  (forall m, In m ms -> In (match_ticker m) T) ->
  total (List.map (fun t => Z.of_nat (length (for_ticker t ms))) T)
  = Z.of_nat (length ms).
Proof.
  intros Hnd. induction ms as [|m ms IH]; intros Hcover.
  - cbn [for_ticker List.filter length]. clear Hnd Hcover.
    induction T as [|t T IHT]; [reflexivity|].
    cbn [List.map]. rewrite total_cons, IHT. reflexivity.
  - rewrite (map_ext _ (fun t => (if String.eqb (match_ticker m) t then 1 else 0)
                                  + Z.of_nat (length (for_ticker t ms)))).
    2:{ intros t. unfold for_ticker. cbn [List.filter].
        destruct (String.eqb (match_ticker m) t); cbn [length]; lia. }
    rewrite total_map_add, IH by (intros m' Hin; apply Hcover; now right).
    rewrite total_indicator; [|assumption|apply Hcover; now left].
    cbn [length]. lia.
Qed.

(** X10.  The number of allocations of a summary is the sum of the counts
    of its per-security entries, every entry counts at least one
    allocation, and a year with no disposal has zero totals and an empty
    breakdown. *)
Theorem fy_summary_counts (year : Z) (db db' : DB) (s : summary) :
  fy_summary year db = (Ok s, db') ->
  match_count s = total (List.map sec_match_count (per_security s))
  /\ Forall (fun e => 1 <= sec_match_count e) (per_security s)
  /\ (match_count s = 0 ->
      per_security s = [] /\ total_gains s = D0 /\ total_losses s = D0
      /\ total_discounts s = D0 /\ net_capital_gain_total s = D0).
Proof.
  intros Hrun. apply fy_summary_ok_inv in Hrun as (a & b & _ & _ & ->).
  cbv zeta. cbn [match_count per_security total_gains total_losses
                 total_discounts net_capital_gain_total].
  set (ms := matches_in_range a b db).
  set (L0 := List.map snd (map_to_list (acc_per_security (fold_left fy_step ms acc0)))).
  assert (Hentry : forall e, In e L0 ->
            (exists m, In m ms /\ match_ticker m = sec_ticker e)
            /\ e = sec_entry (sec_ticker e) ms).
  { intros e He. now apply per_security_In. }
  split; [|split].
  - rewrite (total_perm _ (List.map sec_match_count L0))
      by (apply Permutation_map, sort_by_perm).
    rewrite (map_ext_in _ (fun e => Z.of_nat (length (for_ticker (sec_ticker e) ms)))).
    2:{ intros e He. destruct (Hentry e He) as [_ ->]. reflexivity. }
    rewrite <- (List.map_map sec_ticker
                  (fun t => Z.of_nat (length (for_ticker t ms)))).
    symmetry. apply count_by_ticker.
    + unfold L0. rewrite per_security_tickers.
      apply NoDup_ListNoDup, NoDup_fst_map_to_list.
    + intros m Hm. apply in_map_iff.
      exists (sec_entry (match_ticker m) ms). split; [reflexivity|].
      apply per_security_In. split; [|reflexivity]. cbn [sec_entry sec_ticker]. eauto.
  - apply List.Forall_forall. intros e He.
    apply (Permutation_in _ (sort_by_perm _ _)) in He.
    destruct (Hentry e He) as [(m & Hm & Ht) ->]. cbn [sec_entry sec_match_count].
    assert (Hin : In m (for_ticker (sec_ticker e) ms)).
    { apply filter_In. split; [assumption|]. now apply String.eqb_eq. }
    destruct (for_ticker (sec_ticker e) ms); [destruct Hin|cbn [length]; lia].
  - intros Hzero. destruct ms as [|m ms']; [|cbn [length] in Hzero; lia].
    unfold L0. cbn [fold_left acc0 acc_gains acc_losses acc_discounts acc_net
                    acc_per_security].
    rewrite map_to_list_empty. repeat split; reflexivity.
Qed.

End SummaryFacts.

(** ** The split of a gain into discount and net gain *)

Section CgtFacts.
Import cgt.

Lemma round_half_even_le (a k : Z) : round_half_even a k <= a / 10 ^ k + 1.
Proof.
  unfold round_half_even. cbv zeta.
  destruct (_ || _); lia.
Qed.

(** The result of an operation has at most 28 digits. *)
Lemma Dfix_out_fits (d : Decimal) : fits (Dfix d).
Proof.
  unfold fits, Dfix. cbv zeta.
  assert (Hp : 0 < 10 ^ prec) by (apply pow10_pos; unfold prec; lia).
  destruct (Z.eqb_spec (coef d) 0) as [->|Hc]; [exact Hp|].
  destruct (Z.leb_spec (ndigits (coef d)) prec) as [Hn|Hn].
  { apply ndigits_le_iff; [assumption|unfold prec; lia|assumption]. }
  destruct (ndigits_spec (coef d) Hc) as (_ & _ & Hhi).
  set (n := ndigits (coef d)) in *. set (k := n - prec).
  assert (Hq : round_half_even (Z.abs (coef d)) k <= 10 ^ prec).
  { etransitivity; [apply round_half_even_le|].
    assert (Z.abs (coef d) / 10 ^ k < 10 ^ prec); [|lia].
    apply Z.div_lt_upper_bound; [apply pow10_pos; unfold k; lia|].
    rewrite <- Z.pow_add_r by (unfold k, prec in *; lia).
    replace (k + prec) with n by (unfold k; lia). exact Hhi. }
  assert (Hq0 : 0 <= round_half_even (Z.abs (coef d)) k).
  { etransitivity; [|apply round_half_even_ge].
    apply Z.div_pos; [lia|apply pow10_pos; unfold k; lia]. }
  set (q := round_half_even (Z.abs (coef d)) k) in *.
  destruct (Z.leb_spec (10 ^ prec) q) as [Hcarry|Hno]; cbn [coef].
  - rewrite Z.abs_mul.
    assert (0 <= q / 10 <= q) by (split; [apply Z.div_pos; lia|apply Z.div_le_upper_bound; lia]).
    assert (q / 10 < 10 ^ prec).
    { apply Z.div_lt_upper_bound; [lia|]. lia. }
    destruct (Z.sgn_spec (coef d)) as [[_ ->]|[[_ ->]|[_ ->]]]; cbn; lia.
  - rewrite Z.abs_mul.
    destruct (Z.sgn_spec (coef d)) as [[_ ->]|[[_ ->]|[_ ->]]]; cbn; lia.
Qed.

Lemma expo_exact_sub (a b : Decimal) :
  expo (exact_sub a b) = Z.min (expo a) (expo b).
Proof. reflexivity. Qed.

Lemma scaled_exact_sub (a b : Decimal) (m : Z) :
  m <= expo a -> m <= expo b ->
  scaled (exact_sub a b) m = scaled a m - scaled b m.
Proof.
  intros Ha Hb. unfold exact_sub.
  rewrite scaled_exact_add by (cbn; assumption).
  unfold scaled, Dneg. cbn [coef expo]. lia.
Qed.

Lemma exact_add_sub_cancel (a b : Decimal) :
  (exact_add (exact_sub a b) b == a)%D.
Proof.
  apply (Deq_at _ _ (Z.min (expo a) (expo b))).
  - cbn [exact_add exact_sub expo Dneg]. lia.
  - lia.
  - rewrite scaled_exact_add by (rewrite ?expo_exact_sub; lia).
    rewrite scaled_exact_sub by lia. lia.
Qed.

(** Rounding a decimal whose digits beyond the 28th are zeros does not
    change its value. *)
Lemma Dfix_lossless (c e j : Z) :
  0 <= j -> Z.abs c < 10 ^ prec ->
  (Dfix (mkDec (c * 10 ^ j) (e - j)) == mkDec (c * 10 ^ j) (e - j))%D.
Proof.
  intros Hj Hc.
  eapply Deq_trans; [apply Dfix_shift, Hj|].
  rewrite Dfix_fits by exact Hc.
  apply Deq_sym, shift_Deq, Hj.
Qed.

(** A coefficient of 29 digits below 5 * 10^28 loses its last digit. *)
Lemma Dfix_29 (c e : Z) :
  10 ^ prec <= c < 5 * 10 ^ prec ->
  Dfix (mkDec c e) = mkDec (round_half_even c 1) (e + 1).
Proof.
  intros [Hlo Hhi].
  assert (Hp : 0 < 10 ^ prec) by (apply pow10_pos; unfold prec; lia).
  assert (Hn : ndigits c = prec + 1).
  { apply ndigits_unique; [unfold prec; lia|].
    replace (prec + 1 - 1) with prec by lia.
    rewrite pow10_succ by (unfold prec; lia). lia. }
  unfold Dfix. cbv zeta. cbn [coef expo]. rewrite Hn.
  destruct (Z.eqb_spec c 0); [lia|].
  destruct (Z.leb_spec (prec + 1) prec); [lia|].
  replace (prec + 1 - prec) with 1 by lia.
  rewrite (Z.abs_eq c) by lia.
  pose proof (round_half_even_le c 1) as Hq. change (10 ^ 1) with 10 in Hq.
  assert (c / 10 < 5 * 10 ^ (prec - 1)).
  { apply Z.div_lt_upper_bound; [lia|].
    replace (10 * (5 * 10 ^ (prec - 1))) with (5 * (10 * 10 ^ (prec - 1))) by lia.
    rewrite <- pow10_succ by (unfold prec; lia).
    replace (prec - 1 + 1) with prec by lia. exact Hhi. }
  assert (10 * 10 ^ (prec - 1) = 10 ^ prec).
  { rewrite <- pow10_succ by (unfold prec; lia). f_equal; lia. }
  assert (0 < 10 ^ (prec - 1)) by (apply pow10_pos; unfold prec; lia).
  destruct (Z.leb_spec (10 ^ prec) (round_half_even c 1)); [lia|].
  rewrite (Z.sgn_pos c) by lia. f_equal. lia.
Qed.

(** Halving a positive result: the discount is positive and the rest is
    computed without rounding. *)
Lemma half_split (g : Decimal) :
  fits g -> 0 < coef g ->
  let d := (g * Dhalf)%D in
  0 < coef d /\ fits (exact_sub g d) /\ 0 <= coef (exact_sub g d).
Proof.
  intros Hfit Hpos. unfold fits in Hfit. rewrite Z.abs_eq in Hfit by lia.
  destruct g as [c e]. cbn [coef] in *.
  assert (Hp : 0 < 10 ^ prec) by (apply pow10_pos; unfold prec; lia).
  unfold Dmul, Dhalf. cbn [coef expo].
  destruct (Z_lt_le_dec (c * 5) (10 ^ prec)) as [Hsmall|Hbig].
  - rewrite Dfix_fits by (unfold fits; cbn [coef]; rewrite Z.abs_eq; lia).
    cbv zeta. unfold exact_sub, exact_add, Dneg, scaled, fits. cbn [coef expo].
    replace (Z.min e (e + -1)) with (e - 1) by lia.
    replace (e - (e - 1)) with 1 by lia.
    replace (e + -1 - (e - 1)) with 0 by lia.
    change (10 ^ 1) with 10. change (10 ^ 0) with 1.
    rewrite Z.abs_eq by lia. lia.
  - rewrite Dfix_29 by lia.
    pose proof (round_half_even_le (c * 5) 1) as Hq.
    pose proof (round_half_even_ge (c * 5) 1) as Hq'.
    change (10 ^ 1) with 10 in Hq, Hq'.
    assert (Hdiv : 10 * (c * 5 / 10) <= c * 5) by (apply Z.mul_div_le; lia).
    assert (Hdiv' : 10 ^ (prec - 1) <= c * 5 / 10).
    { apply Z.div_le_lower_bound; [lia|].
      rewrite <- pow10_succ by (unfold prec; lia).
      replace (prec - 1 + 1) with prec by lia. exact Hbig. }
    assert (0 < 10 ^ (prec - 1)) by (apply pow10_pos; unfold prec; lia).
    cbv zeta. unfold exact_sub, exact_add, Dneg, scaled, fits. cbn [coef expo].
    replace (Z.min e (e + -1 + 1)) with e by lia.
    replace (e - e) with 0 by lia.
    replace (e + -1 + 1 - e) with 0 by lia.
    change (10 ^ 0) with 1.
    set (q := round_half_even (c * 5) 1) in *.
    assert (q <= c) by lia.
    rewrite Z.abs_eq by lia. lia.
Qed.

Lemma exact_add_D0 (x : Decimal) : (exact_add x D0 == x)%D.
Proof.
  apply (Deq_at _ _ (Z.min (expo x) 0)).
  - cbn [exact_add expo D0 of_Z]. lia.
  - lia.
  - rewrite scaled_exact_add by (cbn [D0 of_Z expo]; lia).
    unfold scaled at 2. cbn [D0 of_Z coef]. lia.
Qed.

Lemma Dsub_D0 (g : Decimal) : fits g -> (g - D0 == g)%D.
Proof.
  intros Hfit. destruct g as [c e]. unfold fits in Hfit. cbn [coef] in Hfit.
  unfold Dsub, Dadd, Dneg, D0, of_Z, scaled. cbn [coef expo].
  assert (Hm : exists j, 0 <= j /\ Z.min e 0 = e - j)
    by (exists (e - Z.min e 0); lia).
  destruct Hm as (j & Hj & ->).
  replace (c * 10 ^ (e - (e - j)) + - 0 * 10 ^ (0 - (e - j)))
    with (c * 10 ^ j) by (replace (e - (e - j)) with j by lia; lia).
  eapply Deq_trans; [apply Dfix_lossless; assumption|].
  apply shift_Deq, Hj.
Qed.

(** X11.  In every result of the tax calculator the discount and the net
    gain add up exactly to the gross gain, whatever the rounding: without
    discount the net gain equals the gross gain, and with a discount both
    parts are computed from a positive gain, the discount is above zero
    and the net gain is not negative. *)
Theorem cgt_split_exact (parcel : Parcel.t) (sell : Transaction.t) (q : Decimal) :
  let r := calculate_cgt parcel sell q in
  (exact_add (net_capital_gain r) (discount_amount r) == capital_gain_loss r)%D
  /\ (cgt_discount_eligible r = false ->
      discount_amount r = D0
      /\ (net_capital_gain r == capital_gain_loss r)%D)
  /\ (cgt_discount_eligible r = true ->
      0 < coef (capital_gain_loss r)
      /\ 0 < coef (discount_amount r)
      /\ 0 <= coef (net_capital_gain r)).
Proof.
  intros r. set (g := capital_gain_loss r).
  assert (Hfit : fits g) by apply Dfix_out_fits.
  assert (Hd : discount_amount r
               = if cgt_discount_eligible r then (g * Dhalf)%D else D0)
    by reflexivity.
  assert (Hn : net_capital_gain r = (g - discount_amount r)%D) by reflexivity.
  assert (He : cgt_discount_eligible r = true -> 0 < coef g).
  { change (cgt_discount_eligible r)
      with ((365 <? holding_period_days r) && (D0 <? g)%D).
    rewrite Dltb_D0. intros H. apply andb_true_iff in H as [_ H].
    now apply Z.ltb_lt. }
  rewrite Hn, Hd. destruct (cgt_discount_eligible r).
  - destruct (half_split g Hfit (He eq_refl)) as (Hdpos & Hsfit & Hspos).
    cbv zeta in Hdpos, Hsfit, Hspos.
    rewrite (Dsub_fits _ _ Hsfit).
    split; [apply exact_add_sub_cancel|]. split; [discriminate|].
    intros _. auto.
  - pose proof (Dsub_D0 g Hfit) as H0.
    split; [|split; [auto|discriminate]].
    eapply Deq_trans; [|apply H0]. apply exact_add_D0.
Qed.

End CgtFacts.

(** ** The lines of a forecast *)

Section ForecastFacts.
Import AllocSpec CommitSpec ForecastLines cgt forecasting.

Lemma simulate_loop_done (fake : _FakeSellTransaction) (lots : list Parcel.t)
    (st : sim_state) :
  (sim_remaining st <=? D0)%D = true -> simulate_loop fake lots st = st.
Proof. intros H. destruct lots; cbn [simulate_loop]; [reflexivity|]. now rewrite H. Qed.

(** What the loop of [_simulate_strategy] appends: one line per lot of a
    prefix of the lots, with the lot's key, date and cost per unit, the
    figures of the tax calculator, a quantity not above the lot's remaining
    quantity and positive when the lot holds something, every line but the
    last taking the whole lot. *)
Lemma simulate_loop_shape (fake : _FakeSellTransaction) (lots : list Parcel.t) :
  forall st,
    exists new,
      sim_consumed (simulate_loop fake lots st) = sim_consumed st ++ new
      /\ Forall2 (line_of fake) (take (length new) lots) new
      /\ Forall2 (fun p c => parcel_id c = Parcel.pk p
                             /\ matched_quantity c = Parcel.remaining_quantity p)
                 (take (length new - 1) lots) (removelast new).
Proof.
  induction lots as [|p lots IH]; intros st.
  - exists []. cbn. rewrite app_nil_r. repeat split; constructor.
  - cbn [simulate_loop]. destruct (sim_remaining st <=? D0)%D eqn:Hrem.
    + exists []. cbn. rewrite app_nil_r. repeat split; constructor.
    + set (qty := Dmin (Parcel.remaining_quantity p) (sim_remaining st)).
      set (c := calculate_cgt p fake qty).
      set (line := mkConsumed (Parcel.pk p) (Parcel.acquisition_date p) qty
                     (Parcel.cost_per_unit_aud p) c).
      assert (Hline : line_of fake p line).
      { unfold line_of. cbn [line parcel_id acquisition_date cost_per_unit_aud
                             matched_quantity cgt_fields].
        repeat split; [apply Dmin_not_exceeds|].
        intros Hp. apply Dmin_pos; [assumption|now apply Dleb_false_pos]. }
      destruct (Dmin_cases (Parcel.remaining_quantity p) (sim_remaining st))
        as [[Hlt Hq]|[Hlt Hq]]; fold qty in Hq.
      * rewrite simulate_loop_done.
        2:{ cbn [sim_remaining]. rewrite Hq, Dleb_D0, Dsub_self. reflexivity. }
        exists [line]. cbn [sim_consumed length removelast]. simpl take.
        split; [reflexivity|]. split; [|constructor].
        constructor; [exact Hline|constructor].
      * match goal with
        | |- context [simulate_loop fake lots ?st1] =>
            destruct (IH st1) as (new & Hc & Hall & Hfull)
        end.
        cbn [sim_consumed] in Hc.
        exists (line :: new). rewrite Hc, <- app_assoc.
        cbn [app length]. simpl take. split; [reflexivity|]. split.
        -- constructor; assumption.
        -- destruct new as [|l new]; [constructor|].
           change (removelast (line :: l :: new))
             with (line :: removelast (l :: new)).
           cbn [length] in *.
           replace (S (S (length new)) - 1)%nat with (S (length new)) by lia.
           replace (S (length new) - 1)%nat with (length new) in Hfull by lia.
           simpl take. constructor; [split; [reflexivity|exact Hq]|exact Hfull].
Qed.

Lemma Dleb_trans (a b c : Decimal) :
  (a <=? b)%D = true -> (b <=? c)%D = true -> (a <=? c)%D = true.
Proof.
  set (m := Z.min (expo a) (Z.min (expo b) (expo c))).
  rewrite (Dleb_at a b m), (Dleb_at b c m), (Dleb_at a c m) by (unfold m; lia).
  rewrite !Z.leb_le. lia.
Qed.

Lemma Forall2_right {A B} (P : A -> B -> Prop) (l : list A) (l' : list B) :
  Forall2 P l l' -> Forall (fun y => exists x, In x l /\ P x y) l'.
Proof.
  induction 1 as [|x y l l' Hxy _ IH]; constructor.
  - exists x. split; [now left|assumption].
  - eapply Forall_impl; [exact IH|]. intros y' (x' & Hin & Hp).
    exists x'. split; [now right|assumption].
Qed.

Lemma Forall2_map_eq {A B C} (P : A -> B -> Prop) (f : A -> C) (g : B -> C)
    (l : list A) (l' : list B) :
  (forall x y, P x y -> g y = f x) -> Forall2 P l l' ->
  List.map g l' = List.map f l.
Proof.
  intros Hp. induction 1 as [|x y l l' Hxy _ IH]; [reflexivity|].
  cbn [List.map]. now rewrite IH, (Hp x y Hxy).
Qed.

Lemma StronglySorted_map_take {A B} (R : B -> B -> Prop) (f : A -> B)
    (l : list A) :
  forall n,
    StronglySorted (fun a b => R (f a) (f b)) l ->
    StronglySorted R (List.map f (take n l)).
Proof.
  induction l as [|x l IH]; intros [|n] Hs; simpl take; try constructor.
  - apply IH. now apply StronglySorted_inv in Hs as [Hs _].
  - apply StronglySorted_inv in Hs as [_ Hall].
    rewrite List.Forall_forall in *. intros y Hy.
    apply in_map_iff in Hy as (z & <- & Hz). apply Hall.
    now apply (In_take z n).
Qed.

Lemma StronglySorted_weaken {A} (R R' : A -> A -> Prop) (l : list A) :
  (forall a b, R a b -> R' a b) -> StronglySorted R l -> StronglySorted R' l.
Proof.
  intros Hr. induction 1 as [|x l _ IH Hall]; constructor; [assumption|].
  eapply Forall_impl; [exact Hall|]. auto.
Qed.

Lemma sort_by_strongly_sorted {A} (le : A -> A -> bool) (l : list A) :
  (forall a b, le a b = true \/ le b a = true) ->
  (forall a b c, le a b = true -> le b c = true -> le a c = true) ->
  StronglySorted (fun a b => le a b = true) (sort_by le l).
Proof.
  intros Htotal Htrans. apply Sorted_StronglySorted; [exact Htrans|].
  now apply sort_by_sorted.
Qed.

Lemma forecast_ok_shape (today : Date.date) (security : Security.t)
    (quantity sell_price : Decimal) (sell_date : option Date.date) (db db' : DB)
    (report : forecast_dict) :
  forecast today security quantity sell_price sell_date db = (Ok report, db') ->
  db' = db
  /\ 0 < coef quantity /\ 0 < coef sell_price
  /\ (total_available security db <? quantity)%D = false
  /\ exists d,
       let run le :=
         _simulate_strategy (sort_by le (ParcelObjects.available security db))
           security quantity sell_price d in
       report = mkForecast security quantity sell_price d
                  (run ParcelObjects.by_acquisition_date)
                  (run ParcelObjects.by_acquisition_date_desc)
                  (run ParcelObjects.by_cost_per_unit_desc).
Proof.
  rewrite forecast_run.
  destruct (Z.leb_spec (coef quantity) 0) as [|Hq]; [discriminate|].
  destruct (Z.leb_spec (coef sell_price) 0) as [|Hp]; [discriminate|].
  destruct (ParcelObjects.available security db) as [|p l] eqn:Ha;
    [discriminate|].
  destruct (total_available security db <? quantity)%D eqn:Hcheck;
    [discriminate|].
  cbv zeta. rewrite <- Ha. intros [= <- <-].
  repeat split; try assumption. eauto.
Qed.

(** The lines of one simulated strategy over the ordered candidates. *)
Lemma simulate_lines (le : Parcel.t -> Parcel.t -> bool) (security : Security.t)
    (quantity sell_price : Decimal) (d : Date.date) (db : DB) :
  table_wf (parcel_table db) ->
  let lots := sort_by le (ParcelObjects.available security db) in
  let lines := parcels_consumed
                 (_simulate_strategy lots security quantity sell_price d) in
  exists fake,
    Forall2 (line_of fake) (take (length lines) lots) lines
    /\ Forall2 (fun p c => parcel_id c = Parcel.pk p
                           /\ matched_quantity c = Parcel.remaining_quantity p)
               (take (length lines - 1) lots) (removelast lines)
    /\ List.NoDup (List.map parcel_id lines)
    /\ Forall (fun c => exists p,
                          parcel_table db !! parcel_id c = Some p
                          /\ eligible security p = true
                          /\ (D0 <? matched_quantity c)%D = true
                          /\ (Parcel.remaining_quantity p <? matched_quantity c)%D
                             = false) lines.
Proof.
  intros Hwf lots lines. unfold lines, _simulate_strategy. cbv zeta.
  cbn [parcels_consumed].
  match goal with
  | |- context [simulate_loop ?fake lots ?st] =>
      destruct (simulate_loop_shape fake lots st) as (new & Hc & Hall & Hfull);
      exists fake
  end.
  cbn [sim_consumed app] in Hc. rewrite Hc.
  split; [exact Hall|]. split; [exact Hfull|]. split.
  - rewrite (Forall2_map_eq _ Parcel.pk parcel_id _ _ (fun p c H => proj1 H) Hall).
    apply NoDup_map_take. now apply available_pks_NoDup.
  - eapply Forall_impl; [apply (Forall2_right _ _ _ Hall)|].
    intros c (p & Hin & Hid & _ & _ & _ & Hle & Hpos). exists p.
    apply In_take in Hin.
    apply (Permutation_in _ (sort_by_perm _ _)) in Hin.
    apply available_In in Hin as [[k Hk] Hel].
    rewrite Hid, (Hwf k p Hk). repeat split; try assumption.
    apply Hpos. unfold eligible in Hel. now apply andb_true_iff in Hel as [_ Hel].
Qed.

(** X12.  In a successful forecast the lines of the earliest-first result
    are in ascending order of acquisition date, those of the latest-first
    result in descending order, and those of the third result in
    descending order of cost per unit.  In each result no lot appears
    twice, every line is for a stored lot of the security with a matched
    quantity above zero and not above the lot's remaining quantity, and
    every line but the last takes its lot's whole remaining quantity. *)
Theorem forecast_lines_ordered (today : Date.date) (security : Security.t)
    (quantity sell_price : Decimal) (sell_date : option Date.date) (db db' : DB)
    (report : forecast_dict) :
  table_wf (parcel_table db) ->
  forecast today security quantity sell_price sell_date db = (Ok report, db') ->
  StronglySorted (fun a b => Date.leb a b = true)
    (List.map acquisition_date (parcels_consumed (fifo report)))
  /\ StronglySorted (fun a b => Date.leb b a = true)
       (List.map acquisition_date (parcels_consumed (lifo report)))
  /\ StronglySorted (fun a b => (b <=? a)%D = true)
       (List.map cost_per_unit_aud (parcels_consumed (optimal report)))
  /\ forall r, r = fifo report \/ r = lifo report \/ r = optimal report ->
       List.NoDup (List.map parcel_id (parcels_consumed r))
       /\ Forall (fun c => exists p,
                             parcel_table db !! parcel_id c = Some p
                             /\ eligible security p = true
                             /\ (D0 <? matched_quantity c)%D = true
                             /\ (Parcel.remaining_quantity p
                                 <? matched_quantity c)%D = false)
                 (parcels_consumed r)
       /\ Forall (fun c => exists p,
                             parcel_table db !! parcel_id c = Some p
                             /\ matched_quantity c = Parcel.remaining_quantity p)
                 (removelast (parcels_consumed r)).
Proof.
  intros Hwf Hrun.
  apply forecast_ok_shape in Hrun as (_ & _ & _ & _ & d & ->).
  cbv zeta. cbn [fifo lifo optimal].
  assert (Hsorted : forall (le : Parcel.t -> Parcel.t -> bool) B (f : Parcel.t -> B)
                      (g : consumed -> B) (R : B -> B -> Prop),
            (forall a b, le a b = true \/ le b a = true) ->
            (forall a b c, le a b = true -> le b c = true -> le a c = true) ->
            (forall a b, le a b = true -> R (f a) (f b)) ->
            (forall fake p c, line_of fake p c -> g c = f p) ->
            StronglySorted R
              (List.map g (parcels_consumed
                             (_simulate_strategy
                                (sort_by le (ParcelObjects.available security db))
                                security quantity sell_price d)))).
  { intros le B f g R Htotal Htrans Hr Hg.
    destruct (simulate_lines le security quantity sell_price d db Hwf)
      as (fake & Hall & _).
    rewrite (Forall2_map_eq _ f g _ _ (Hg fake) Hall).
    apply StronglySorted_map_take.
    eapply StronglySorted_weaken; [|apply sort_by_strongly_sorted; eassumption].
    exact Hr. }
  split; [|split; [|split]].
  - apply (Hsorted ParcelObjects.by_acquisition_date _ Parcel.acquisition_date).
    + intros a b. apply Date_leb_total.
    + intros a b c. apply Date_leb_trans.
    + auto.
    + now intros fake p c (_ & H & _).
  - apply (Hsorted ParcelObjects.by_acquisition_date_desc _ Parcel.acquisition_date).
    + intros a b. apply Date_leb_total.
    + intros a b c H1 H2. exact (Date_leb_trans _ _ _ H2 H1).
    + auto.
    + now intros fake p c (_ & H & _).
  - apply (Hsorted ParcelObjects.by_cost_per_unit_desc _ Parcel.cost_per_unit_aud).
    + intros a b. apply Dleb_total.
    + intros a b c H1 H2. exact (Dleb_trans _ _ _ H2 H1).
    + auto.
    + now intros fake p c (_ & _ & H & _).
  - assert (Hlines : forall le,
              let r := _simulate_strategy
                         (sort_by le (ParcelObjects.available security db))
                         security quantity sell_price d in
              List.NoDup (List.map parcel_id (parcels_consumed r))
              /\ Forall (fun c => exists p,
                            parcel_table db !! parcel_id c = Some p
                            /\ eligible security p = true
                            /\ (D0 <? matched_quantity c)%D = true
                            /\ (Parcel.remaining_quantity p
                                <? matched_quantity c)%D = false)
                        (parcels_consumed r)
              /\ Forall (fun c => exists p,
                            parcel_table db !! parcel_id c = Some p
                            /\ matched_quantity c = Parcel.remaining_quantity p)
                        (removelast (parcels_consumed r))).
    { intros le r.
      destruct (simulate_lines le security quantity sell_price d db Hwf)
        as (fake & Hall & Hfull & Hnd & Hstored).
      fold r in Hall, Hfull, Hnd, Hstored.
      split; [exact Hnd|]. split; [exact Hstored|].
      eapply Forall_impl; [apply (Forall2_right _ _ _ Hfull)|].
      intros c (p & Hin & Hid & Hq). exists p. split; [|exact Hq].
      apply In_take in Hin.
      apply (Permutation_in _ (sort_by_perm _ _)) in Hin.
      apply available_In in Hin as [[k Hk] _].
      now rewrite Hid, (Hwf k p Hk). }
    intros r [-> | [-> | ->]]; apply Hlines.
Qed.

End ForecastFacts.

(** ** Products without rounding *)

Section ExactFacts.
Import AllocSpec CommitSpec ForecastLines cgt forecasting.

Lemma Dfix_expo_ge (d : Decimal) : expo d <= expo (Dfix d).
Proof.
  unfold Dfix. cbv zeta.
  destruct (coef d =? 0); [lia|].
  destruct (Z.leb_spec (ndigits (coef d)) prec); [lia|].
  destruct (_ <=? _); cbn [expo]; lia.
Qed.

Lemma Dadd_on_grid (s : Z) (a b : Decimal) :
  on_grid s a -> on_grid s b -> on_grid s (a + b)%D.
Proof.
  unfold on_grid, Dadd. intros Ha Hb. cbv zeta.
  etransitivity; [|apply Dfix_expo_ge]. cbn [expo]. lia.
Qed.

Lemma Dsub_on_grid (s : Z) (a b : Decimal) :
  on_grid s a -> on_grid s b -> on_grid s (a - b)%D.
Proof. intros Ha Hb. apply Dadd_on_grid; [assumption|exact Hb]. Qed.

Lemma Dmin_on_grid (s : Z) (a b : Decimal) :
  on_grid s a -> on_grid s b -> on_grid s (Dmin a b).
Proof. intros Ha Hb. unfold Dmin. now destruct (b <? a)%D. Qed.

Lemma units_abs_ge (s : Z) (d : Decimal) :
  on_grid s d -> Z.abs (coef d) <= Z.abs (units s d).
Proof.
  intros Hg. rewrite (units_coef s d Hg). apply abs_le_mul_pow.
  unfold on_grid in Hg. lia.
Qed.

Lemma Dmul_grid (s t : Z) (a b : Decimal) :
  on_grid s a -> on_grid t b ->
  Z.abs (units s a * units t b) < 10 ^ prec ->
  (a * b)%D = exact_mul a b
  /\ on_grid (s + t) (a * b)%D
  /\ units (s + t) (a * b)%D = units s a * units t b.
Proof.
  intros Ha Hb Hbound.
  assert (Hfit : fits (exact_mul a b)).
  { unfold fits, exact_mul. cbn [coef]. rewrite Z.abs_mul.
    rewrite Z.abs_mul in Hbound.
    pose proof (units_abs_ge s a Ha). pose proof (units_abs_ge t b Hb).
    pose proof (Z.abs_nonneg (coef a)). pose proof (Z.abs_nonneg (coef b)).
    nia. }
  rewrite (Dmul_fits a b Hfit). split; [reflexivity|].
  unfold on_grid in *. unfold exact_mul, units, scaled. cbn [coef expo].
  split; [lia|].
  replace (expo a + expo b - - (s + t)) with ((expo a - - s) + (expo b - - t))
    by lia.
  rewrite Z.pow_add_r by lia. lia.
Qed.

Lemma total_map_mul (k : Z) (xs : list Z) :
  total (List.map (fun x => k * x) xs) = k * total xs.
Proof.
  induction xs as [|x xs IH]; [cbn; lia|].
  cbn [List.map]. rewrite !total_cons, IH. lia.
Qed.

Lemma total_map_mul_f {A} (k : Z) (f : A -> Z) (l : list A) :
  total (List.map (fun x => k * f x) l) = k * total (List.map f l).
Proof.
  induction l as [|x l IH]; [cbn; lia|].
  cbn [List.map]. rewrite !total_cons, IH. lia.
Qed.

Lemma greedy_pos (caps : list Z) :
  forall need, Forall (fun c => 0 < c) caps ->
               Forall (fun u => 0 < u) (greedy caps need).
Proof.
  induction caps as [|c caps IH]; intros need Hcaps; cbn [greedy]; [constructor|].
  apply Forall_cons_iff in Hcaps as [Hc Hcaps].
  destruct (Z.leb_spec need 0); constructor; [lia|]. now apply IH.
Qed.

(** The running totals of the simulation are the sums of the figures of
    the lines, and the quantities of the lines stay on the grid of the
    lots and of the quantity asked. *)
Lemma simulate_loop_sums (s : Z) (fake : _FakeSellTransaction)
    (lots : list Parcel.t) :
  forall st,
    exists new,
      sim_consumed (simulate_loop fake lots st) = sim_consumed st ++ new
      /\ sim_cost_base (simulate_loop fake lots st)
         = fold_left Dadd (List.map (fun c => cost_base_aud (cgt_fields c)) new)
             (sim_cost_base st)
      /\ sim_proceeds (simulate_loop fake lots st)
         = fold_left Dadd (List.map (fun c => proceeds_aud (cgt_fields c)) new)
             (sim_proceeds st)
      /\ sim_gain_loss (simulate_loop fake lots st)
         = fold_left Dadd (List.map (fun c => capital_gain_loss (cgt_fields c)) new)
             (sim_gain_loss st)
      /\ (Forall (fun p => on_grid s (Parcel.remaining_quantity p)) lots ->
          on_grid s (sim_remaining st) ->
          Forall (fun c => on_grid s (matched_quantity c)) new).
Proof.
  induction lots as [|p lots IH]; intros st.
  - exists []. cbn. rewrite app_nil_r. repeat split. constructor.
  - cbn [simulate_loop]. destruct (sim_remaining st <=? D0)%D.
    + exists []. cbn. rewrite app_nil_r. repeat split. constructor.
    + set (qty := Dmin (Parcel.remaining_quantity p) (sim_remaining st)).
      set (c := calculate_cgt p fake qty).
      match goal with
      | |- context [simulate_loop fake lots ?st1] =>
          destruct (IH st1) as (new & Hc & H1 & H2 & H3 & Hg)
      end.
      cbn [sim_consumed sim_cost_base sim_proceeds sim_gain_loss sim_remaining]
        in Hc, H1, H2, H3, Hg.
      exists (mkConsumed (Parcel.pk p) (Parcel.acquisition_date p) qty
                (Parcel.cost_per_unit_aud p) c :: new).
      rewrite Hc, H1, H2, H3, <- app_assoc. cbn [app List.map fold_left cgt_fields].
      repeat split.
      intros Hlots Hrem. apply Forall_cons_iff in Hlots as [Hp Hlots].
      assert (Hq : on_grid s qty) by now apply Dmin_on_grid.
      constructor; [exact Hq|].
      apply Hg; [assumption|]. now apply Dsub_on_grid.
Qed.

Lemma on_grid_D1 : on_grid 0 D1.
Proof. unfold on_grid. cbn. lia. Qed.

(** The proceeds of a line at exchange rate 1, without rounding. *)
Lemma proceeds_exact (s t : Z) (price q : Decimal) :
  on_grid t price -> on_grid s q ->
  0 < units t price -> 0 < units s q ->
  units t price * units s q < 10 ^ prec ->
  on_grid (t + s) (price * D1 * q)%D
  /\ units (t + s) (price * D1 * q)%D = units t price * units s q.
Proof.
  intros Hgp Hgq Hp Hq Hbound.
  destruct (Dmul_grid t 0 price D1 Hgp on_grid_D1) as (_ & Hg1 & Hu1).
  { change (units 0 D1) with 1. rewrite Z.abs_eq by lia. nia. }
  change (units 0 D1) with 1 in Hu1.
  destruct (Dmul_grid (t + 0) s (price * D1)%D q Hg1 Hgq) as (_ & Hg2 & Hu2).
  { rewrite Hu1, Z.abs_eq by nia. lia. }
  rewrite Hu1 in Hu2. replace (t + 0 + s) with (t + s) in Hg2, Hu2 by lia.
  split; [exact Hg2|]. rewrite Hu2. lia.
Qed.

(** The lines of a simulated strategy when the lots hold enough: their
    quantities are on the grid, positive, and add up to the quantity
    asked. *)
Lemma simulate_exact_lines (s : Z) (le : Parcel.t -> Parcel.t -> bool)
    (security : Security.t) (quantity sell_price : Decimal) (d : Date.date)
    (db : DB) :
  0 <= s ->
  (forall k row, parcel_table db !! k = Some row ->
                 on_grid s (Parcel.remaining_quantity row)) ->
  on_grid s quantity -> 0 <= units s quantity < 10 ^ prec ->
  (total_available security db <? quantity)%D = false ->
  let lots := sort_by le (ParcelObjects.available security db) in
  let r := _simulate_strategy lots security quantity sell_price d in
  let fake := mkFake security (Security.pk security) d sell_price D1
                Transaction.SELL in
  Forall2 (line_of fake) (take (length (parcels_consumed r)) lots)
    (parcels_consumed r)
  /\ Forall (fun c => on_grid s (matched_quantity c)
                      /\ 0 < units s (matched_quantity c)) (parcels_consumed r)
  /\ total (List.map (fun c => units s (matched_quantity c)) (parcels_consumed r))
     = units s quantity
  /\ total_cost_base r
     = Dsum (List.map (fun c => cost_base_aud (cgt_fields c)) (parcels_consumed r))
  /\ total_proceeds r
     = Dsum (List.map (fun c => proceeds_aud (cgt_fields c)) (parcels_consumed r))
  /\ total_gain_loss r
     = Dsum (List.map (fun c => capital_gain_loss (cgt_fields c))
               (parcels_consumed r))
  /\ List.map (fun c => units s (matched_quantity c)) (parcels_consumed r)
     = greedy (List.map (remaining_units s) lots) (units s quantity).
Proof.
  intros Hs Hgrid Hgq Hq Hcheck lots r fake.
  pose proof (base_qs_grid s security db le Hgrid) as Hlots. fold lots in Hlots.
  pose proof (total_available_enough s security db quantity le Hs Hgrid Hgq
                (proj2 Hq) Hcheck) as Henough. fold lots in Henough.
  set (st0 := mkSim [] quantity D0 D0 D0 D0 D0).
  assert (Hr : r = let st := simulate_loop fake lots st0 in
                   mkResult (sim_consumed st) (sim_cost_base st) (sim_proceeds st)
                     (sim_gain_loss st) (sim_discount st) (sim_net_gain st)
                     (quantity - sim_remaining st)%D (sim_remaining st))
    by reflexivity.
  destruct (simulate_loop_spec s fake lots Hs st0 Hlots Hgq Hq)
    as (new1 & Hc1 & Hunits & _).
  destruct (simulate_loop_shape fake lots st0) as (new2 & Hc2 & Hall & _).
  destruct (simulate_loop_sums s fake lots st0)
    as (new3 & Hc3 & Hcost & Hproc & Hgain & Hg).
  cbn [st0 sim_consumed sim_remaining sim_cost_base sim_proceeds sim_gain_loss app]
    in Hc1, Hc2, Hc3, Hunits, Hcost, Hproc, Hgain, Hg.
  fold st0 in Hc1, Hc2, Hc3, Hcost, Hproc, Hgain.
  rewrite Hc1 in Hc2, Hc3. subst new2 new3. rewrite Hr. cbv zeta.
  cbn [parcels_consumed total_cost_base total_proceeds total_gain_loss].
  rewrite Hc1.
  assert (Hcaps : Forall (fun c => 0 < c) (List.map (remaining_units s) lots)).
  { apply List.Forall_forall. intros c Hc.
    apply in_map_iff in Hc as (p & <- & Hp).
    rewrite List.Forall_forall in Hlots. now apply Hlots. }
  split; [exact Hall|]. split; [|split].
  - assert (Hgs : Forall (fun c => on_grid s (matched_quantity c)) new1).
    { apply Hg; [|assumption].
      eapply Forall_impl; [exact Hlots|]. now intros p [Hp _]. }
    pose proof (greedy_pos _ (units s quantity) Hcaps) as Hpos.
    rewrite <- Hunits in Hpos.
    apply List.Forall_forall. intros c Hc. split.
    + rewrite List.Forall_forall in Hgs. now apply Hgs.
    + rewrite List.Forall_forall in Hpos. apply Hpos.
      apply in_map_iff. eauto.
  - rewrite Hunits, (greedy_total _ _ Hcaps (proj1 Hq)). lia.
  - rewrite Hcost, Hproc, Hgain. repeat split. exact Hunits.
Qed.

Lemma fold_Dadd_units (g : Z) (xs : list Decimal) (us : list Z) :
  0 <= g ->
  Forall2 (fun x u => on_grid g x /\ units g x = u /\ 0 < u) xs us ->
  total us < 10 ^ prec ->
  on_grid g (Dsum xs) /\ units g (Dsum xs) = total us.
Proof.
  intros Hg Hall Hbound.
  assert (Hmap : List.map (units g) xs = us).
  { clear Hbound. induction Hall as [|x u xs us (_ & Hu & _) _ IH];
      [reflexivity|]. cbn [List.map]. now rewrite Hu, IH. }
  destruct (fold_Dadd_grid g xs D0 (on_grid_D0 g Hg)) as [Hgrid Hu].
  - rewrite units_D0. lia.
  - clear Hmap Hbound. induction Hall as [|x u xs us (Hx & Hu & Hp) _ IH];
      constructor; [|exact IH]. split; [exact Hx|]. now rewrite Hu.
  - rewrite units_D0, Hmap. lia.
  - unfold Dsum. split; [exact Hgrid|]. rewrite Hu, units_D0, Hmap. lia.
Qed.

Lemma Forall_Forall2_maps {A B C} (R : B -> C -> Prop) (f : A -> B)
    (g : A -> C) (l : list A) :
  Forall (fun x => R (f x) (g x)) l -> Forall2 R (List.map f l) (List.map g l).
Proof. induction 1; cbn [List.map]; constructor; assumption. Qed.

Lemma elem_le_total (us : list Z) :
  Forall (fun u => 0 < u) us -> forall u, In u us -> u <= total us.
Proof.
  induction 1 as [|x us Hx Hus IH]; intros u Hin; [destruct Hin|].
  rewrite total_cons. pose proof (total_nonneg us Hus).
  destruct Hin as [->|Hin]; [lia|]. specialize (IH u Hin). lia.
Qed.

(** The units of the lines of a simulated strategy, each at most the
    quantity asked. *)
Lemma line_units_le (s : Z) (lines : list consumed) (Q : Z) :
  Forall (fun c => on_grid s (matched_quantity c)
                   /\ 0 < units s (matched_quantity c)) lines ->
  total (List.map (fun c => units s (matched_quantity c)) lines) = Q ->
  Forall (fun c => units s (matched_quantity c) <= Q) lines.
Proof.
  intros Hlines <-. apply List.Forall_forall. intros c Hc.
  apply elem_le_total.
  - apply List.Forall_forall. intros u Hu.
    apply in_map_iff in Hu as (c' & <- & Hc').
    rewrite List.Forall_forall in Hlines. now apply Hlines.
  - apply in_map_iff. eauto.
Qed.

(** X13.  With quantities and price on grids and the product of the price
    and the quantity within the decimal precision, the total proceeds of
    every strategy of a successful forecast are the price times the
    quantity asked: the three strategies differ in cost base and gain
    only. *)
Theorem forecast_proceeds_agree (s t : Z) (today : Date.date)
    (security : Security.t) (quantity sell_price : Decimal)
    (sell_date : option Date.date) (db db' : DB) (report : forecast_dict) :
  0 <= s -> 0 <= t ->
  (forall k row, parcel_table db !! k = Some row ->
                 on_grid s (Parcel.remaining_quantity row)) ->
  on_grid s quantity -> on_grid t sell_price ->
  units t sell_price * units s quantity < 10 ^ prec ->
  forecast today security quantity sell_price sell_date db = (Ok report, db') ->
  forall r, r = fifo report \/ r = lifo report \/ r = optimal report ->
    (total_proceeds r == sell_price * quantity)%D
    /\ (total_proceeds r == total_proceeds (fifo report))%D.
Proof.
  intros Hs Ht Hgrid Hgq Hgp Hbound Hrun.
  apply forecast_ok_shape in Hrun as (_ & Hq & Hp & Hcheck & d & ->).
  cbv zeta. cbn [fifo lifo optimal].
  assert (HP : 0 < units t sell_price).
  { rewrite (units_coef t _ Hgp). unfold on_grid in Hgp.
    pose proof (pow10_pos (expo sell_price + t) ltac:(lia)). nia. }
  assert (HQ : 0 < units s quantity).
  { rewrite (units_coef s _ Hgq). unfold on_grid in Hgq.
    pose proof (pow10_pos (expo quantity + s) ltac:(lia)). nia. }
  assert (HQ' : 0 <= units s quantity < 10 ^ prec) by nia.
  destruct (Dmul_grid t s sell_price quantity Hgp Hgq) as (_ & Hgpq & Hupq).
  { rewrite Z.abs_eq by nia. exact Hbound. }
  assert (Hmain : forall le,
            let r := _simulate_strategy
                       (sort_by le (ParcelObjects.available security db))
                       security quantity sell_price d in
            on_grid (t + s) (total_proceeds r)
            /\ units (t + s) (total_proceeds r)
               = units t sell_price * units s quantity).
  { intros le r.
    destruct (simulate_exact_lines s le security quantity sell_price d db
                Hs Hgrid Hgq HQ' Hcheck) as (Hall & Hlines & Htotal & _ & Hproc & _).
    fold r in Hall, Hlines, Htotal, Hproc. rewrite Hproc.
    set (lines := parcels_consumed r) in *.
    pose proof (line_units_le s lines _ Hlines Htotal) as Hle.
    assert (Hcgt : Forall (fun c => proceeds_aud (cgt_fields c)
                                    = (sell_price * D1 * matched_quantity c)%D)
                     lines).
    { eapply Forall_impl; [apply (Forall2_right _ _ _ Hall)|].
      intros c (p & _ & _ & _ & _ & Hc & _). now rewrite Hc. }
    destruct (fold_Dadd_units (t + s)
                (List.map (fun c => proceeds_aud (cgt_fields c)) lines)
                (List.map (fun c => units t sell_price * units s (matched_quantity c))
                   lines)) as [Hg Hu].
    - lia.
    - apply Forall_Forall2_maps. apply List.Forall_forall. intros c Hc.
      rewrite List.Forall_forall in Hlines, Hle, Hcgt.
      destruct (Hlines c Hc) as [Hgc Hpos]. specialize (Hle c Hc).
      rewrite (Hcgt c Hc).
      destruct (proceeds_exact s t sell_price (matched_quantity c) Hgp Hgc HP Hpos)
        as [Hg Hu]; [nia|].
      split; [exact Hg|]. split; [exact Hu|nia].
    - rewrite (total_map_mul_f (units t sell_price)), Htotal. exact Hbound.
    - split; [exact Hg|]. now rewrite Hu, (total_map_mul_f (units t sell_price)), Htotal. }
  intros r Hr.
  pose proof (Hmain ParcelObjects.by_acquisition_date) as [Hg1 Hu1].
  assert (Hany : on_grid (t + s) (total_proceeds r)
                 /\ units (t + s) (total_proceeds r)
                    = units t sell_price * units s quantity)
    by (destruct Hr as [-> | [-> | ->]]; apply Hmain).
  destruct Hany as [Hg Hu]. split.
  - apply (Deq_units (t + s)); [assumption|assumption|]. now rewrite Hu, Hupq.
  - apply (Deq_units (t + s)); [assumption|assumption|]. now rewrite Hu, Hu1.
Qed.

End ExactFacts.

(** ** The highest-cost-first order gives the largest cost base *)

Section Optimal.
Import AllocSpec CommitSpec ForecastLines OptimalSpec cgt forecasting.

Lemma gval_lipschitz (L : list lot) :
  forall C m d,
    0 <= C -> 0 <= m -> 0 <= d ->
    Forall (fun l => cost l <= C /\ 0 <= cap l) L ->
    gval L (m + d) <= gval L m + C * d.
Proof.
  induction L as [|l L IH]; intros C m d HC Hm Hd Hall; cbn [gval]; [nia|].
  apply Forall_cons_iff in Hall as [[Hl Hcap] Hall].
  set (a := Z.min (cap l) m). set (a' := Z.min (cap l) (m + d)).
  assert (Ha : 0 <= a' - a <= d) by (unfold a, a'; lia).
  replace (m + d - a') with ((m - a) + (d - (a' - a))) by lia.
  pose proof (IH C (m - a) (d - (a' - a)) HC ltac:(unfold a; lia) ltac:(lia) Hall).
  nia.
Qed.

(** No allocation of [n] units beats the greedy one when the lots are in
    descending order of cost. *)
Lemma greedy_optimal (L : list lot) :
  StronglySorted (fun a b => cost b <= cost a) L ->
  Forall (fun l => 0 <= cost l /\ 0 <= cap l) L ->
  forall T n,
    List.map fst T = L -> feasible T -> amount T = n ->
    value T <= gval L n.
Proof.
  induction 1 as [|l L Hs IH Hhead]; intros Hall T n Hmap Hfeas Hn.
  - destruct T; [|discriminate]. cbn. lia.
  - destruct T as [|[l' u] T]; [discriminate|].
    cbn [List.map fst] in Hmap. injection Hmap as -> HT.
    apply Forall_cons_iff in Hall as [[HC Hcap] Hall].
    apply Forall_cons_iff in Hfeas as [Hu Hfeas]. cbn [fst snd] in Hu.
    assert (Hv : value ((l, u) :: T) = cost l * u + value T)
      by (unfold value; cbn [List.map fst snd]; now rewrite total_cons).
    assert (Ha : amount ((l, u) :: T) = u + amount T)
      by (unfold amount; cbn [List.map snd]; now rewrite total_cons).
    rewrite Hv. rewrite Ha in Hn.
    assert (Hrest : 0 <= amount T).
    { unfold amount. clear -Hfeas. induction Hfeas as [|x T Hx _ IHf]; [cbn; lia|].
      cbn [List.map]. rewrite total_cons. lia. }
    cbn [gval]. set (g := Z.min (cap l) n).
    assert (Hg : u <= g) by (unfold g; lia).
    pose proof (IH Hall T (n - u) HT Hfeas ltac:(lia)) as Hval.
    assert (Hlip : gval L ((n - g) + (g - u)) <= gval L (n - g) + cost l * (g - u)).
    { apply gval_lipschitz; [assumption|unfold g; lia|lia|].
      rewrite List.Forall_forall in *. intros x Hx.
      split; [now apply Hhead|now apply Hall]. }
    replace (n - g + (g - u)) with (n - u) in Hlip by lia.
    nia.
Qed.

Lemma value_perm (T T' : list (lot * Z)) :
  Permutation T T' -> value T = value T'.
Proof. intros H. apply total_perm, Permutation_map, H. Qed.

Lemma amount_perm (T T' : list (lot * Z)) :
  Permutation T T' -> amount T = amount T'.
Proof. intros H. apply total_perm, Permutation_map, H. Qed.

Lemma feasible_perm (T T' : list (lot * Z)) :
  Permutation T T' -> feasible T -> feasible T'.
Proof. intros H. unfold feasible. now rewrite H. Qed.

Lemma total_nonneg0 (xs : list Z) : Forall (fun x => 0 <= x) xs -> 0 <= total xs.
Proof.
  induction 1 as [|x xs Hx _ IH]; [cbn; lia|]. rewrite total_cons. lia.
Qed.

Lemma galloc_spec (L : list lot) :
  forall n,
    0 <= n -> Forall (fun l => 0 <= cap l) L ->
    List.map fst (combine L (galloc L n)) = L
    /\ feasible (combine L (galloc L n))
    /\ value (combine L (galloc L n)) = gval L n
    /\ amount (combine L (galloc L n)) = Z.min n (total (List.map cap L)).
Proof.
  induction L as [|l L IH]; intros n Hn Hcaps.
  - cbn. repeat split; [constructor|lia].
  - apply Forall_cons_iff in Hcaps as [Hc Hcaps].
    cbn [galloc gval combine List.map fst].
    destruct (IH (n - Z.min (cap l) n) ltac:(lia) Hcaps) as (Hmap & Hfeas & Hval & Ham).
    rewrite Hmap. split; [reflexivity|]. split; [|split].
    + constructor; [cbn [fst snd]; lia|exact Hfeas].
    + unfold value in *. cbn [List.map fst snd]. rewrite total_cons, Hval. reflexivity.
    + unfold amount in *. cbn [List.map snd]. rewrite !total_cons, Ham.
      pose proof (total_nonneg0 (List.map cap L)) as Hpos.
      assert (0 <= total (List.map cap L)).
      { apply Hpos. apply List.Forall_forall. intros x Hx.
        apply in_map_iff in Hx as (y & <- & Hy).
        rewrite List.Forall_forall in Hcaps. now apply Hcaps. }
      lia.
Qed.

(** Among the orders of the same lots, the descending order of cost gives
    the greedy allocation of the largest cost. *)
Lemma sorted_order_best (L L' : list lot) (n : Z) :
  StronglySorted (fun a b => cost b <= cost a) L ->
  Forall (fun l => 0 <= cost l /\ 0 <= cap l) L ->
  Permutation L' L ->
  0 <= n <= total (List.map cap L) ->
  gval L' n <= gval L n.
Proof.
  intros Hs Hall Hperm Hn.
  assert (Hcaps' : Forall (fun l => 0 <= cap l) L').
  { rewrite Hperm. eapply Forall_impl; [exact Hall|]. now intros l [_ H]. }
  destruct (galloc_spec L' n (proj1 Hn) Hcaps') as (Hmap & Hfeas & Hval & Ham).
  rewrite (total_perm _ _ (Permutation_map cap Hperm)) in Ham.
  rewrite Z.min_l in Ham by lia.
  assert (Hp : Permutation L (List.map fst (combine L' (galloc L' n))))
    by (rewrite Hmap; now symmetry).
  apply Permutation_map_inv in Hp as (T & HT & HpT).
  rewrite <- Hval, (value_perm _ _ HpT).
  apply (greedy_optimal L Hs Hall T n).
  - now symmetry.
  - now apply (feasible_perm _ _ HpT).
  - now rewrite <- (amount_perm _ _ HpT).
Qed.

Lemma gval_zero (L : list lot) :
  Forall (fun l => 0 <= cap l) L -> gval L 0 = 0.
Proof.
  induction 1 as [|l L Hl _ IH]; [reflexivity|].
  cbn [gval]. rewrite Z.min_r by lia. rewrite Z.sub_0_r, IH. lia.
Qed.

(** The cost of the greedy allocation, from the quantities [greedy]
    lists. *)
Lemma gval_greedy (L : list lot) :
  forall n,
    0 <= n -> Forall (fun l => 0 < cap l) L ->
    value (combine L (greedy (List.map cap L) n)) = gval L n.
Proof.
  induction L as [|l L IH]; intros n Hn Hcaps; [reflexivity|].
  apply Forall_cons_iff in Hcaps as [Hc Hcaps].
  cbn [List.map greedy]. destruct (Z.leb_spec n 0) as [Hz|Hpos].
  - assert (n = 0) by lia. subst n. cbn [combine]. symmetry.
    apply (gval_zero (l :: L)). constructor; [lia|].
    eapply Forall_impl; [exact Hcaps|]. intros x Hx. cbn beta in Hx. lia.
  - cbn [combine gval]. unfold value in *. cbn [List.map fst snd].
    rewrite total_cons, IH by (assumption || lia). reflexivity.
Qed.

Lemma gval_le_full (L : list lot) :
  forall n,
    0 <= n -> Forall (fun l => 0 <= cost l /\ 0 <= cap l) L ->
    0 <= gval L n <= total (List.map (fun l => cost l * cap l) L).
Proof.
  induction L as [|l L IH]; intros n Hn Hall; [cbn; lia|].
  apply Forall_cons_iff in Hall as [[Hc Hcap] Hall].
  cbn [gval List.map]. rewrite total_cons.
  pose proof (IH (n - Z.min (cap l) n) ltac:(lia) Hall). nia.
Qed.

Lemma fold_Dadd_grid0 (g : Z) (xs : list Decimal) :
  forall acc,
    on_grid g acc -> 0 <= units g acc ->
    Forall (fun d => on_grid g d /\ 0 <= units g d) xs ->
    units g acc + total (List.map (units g) xs) < 10 ^ prec ->
    on_grid g (fold_left Dadd xs acc)
    /\ units g (fold_left Dadd xs acc)
       = units g acc + total (List.map (units g) xs).
Proof.
  induction xs as [|x xs IH]; intros acc Hg Hacc Hxs Hbound.
  - cbn. split; [assumption|lia].
  - apply Forall_cons_iff in Hxs as [[Hgx Hx] Hxs].
    cbn [List.map] in Hbound. rewrite total_cons in Hbound.
    assert (Hrest : 0 <= total (List.map (units g) xs)).
    { apply total_nonneg0, List.Forall_forall. intros u Hu.
      apply in_map_iff in Hu as (d & <- & Hd).
      rewrite List.Forall_forall in Hxs. now apply Hxs. }
    destruct (Dadd_grid g acc x Hg Hgx) as (_ & Hg' & Hu'); [lia|].
    cbn [fold_left List.map]. rewrite total_cons.
    destruct (IH (acc + x)%D Hg' ltac:(lia) Hxs ltac:(lia)) as [Hgf Huf].
    split; [exact Hgf|]. rewrite Huf, Hu'. lia.
Qed.

Lemma Dsum_units0 (g : Z) (xs : list Decimal) (us : list Z) :
  0 <= g ->
  Forall2 (fun x u => on_grid g x /\ units g x = u /\ 0 <= u) xs us ->
  total us < 10 ^ prec ->
  on_grid g (Dsum xs) /\ units g (Dsum xs) = total us.
Proof.
  intros Hg Hall Hbound.
  assert (Hmap : List.map (units g) xs = us).
  { clear Hbound. induction Hall as [|x u xs us (_ & Hu & _) _ IH];
      [reflexivity|]. cbn [List.map]. now rewrite Hu, IH. }
  destruct (fold_Dadd_grid0 g xs D0 (on_grid_D0 g Hg)) as [Hgrid Hu].
  - rewrite units_D0. lia.
  - clear Hmap Hbound. induction Hall as [|x u xs us (Hx & Hu & Hp) _ IH];
      constructor; [|exact IH]. split; [exact Hx|]. now rewrite Hu.
  - rewrite units_D0, Hmap. lia.
  - unfold Dsum. split; [exact Hgrid|]. rewrite Hu, units_D0, Hmap. lia.
Qed.

Lemma elem_le_total0 (us : list Z) :
  Forall (fun u => 0 <= u) us -> forall u, In u us -> u <= total us.
Proof.
  induction 1 as [|x us Hx Hus IH]; intros u Hin; [destruct Hin|].
  rewrite total_cons. pose proof (total_nonneg0 us Hus).
  destruct Hin as [->|Hin]; [lia|]. specialize (IH u Hin). lia.
Qed.

(** The costs of the lines, as the costs of the lots paired with the
    quantities taken. *)
Lemma lines_value (s t : Z) (fake : _FakeSellTransaction) (lines : list consumed) :
  forall lots,
    Forall2 (line_of fake) (take (length lines) lots) lines ->
    List.map (fun c => units t (cost_per_unit_aud c) * units s (matched_quantity c))
      lines
    = List.map (fun lu => cost (fst lu) * snd lu)
        (combine (List.map (lot_units s t) lots)
           (List.map (fun c => units s (matched_quantity c)) lines)).
Proof.
  induction lines as [|c lines IH]; intros lots Hall; [now destruct lots|].
  destruct lots as [|p lots]; [inversion Hall|].
  cbn [length] in Hall. simpl take in Hall.
  apply Forall2_cons_iff in Hall as [Hline Hall].
  cbn [List.map combine fst snd lot_units cost]. rewrite (IH lots Hall).
  destruct Hline as (_ & _ & -> & _). reflexivity.
Qed.

(** The lines of a simulated strategy, in units: the cost base of each
    line is exact, and the costs add up to the cost of the greedy
    allocation over the lots in the strategy's order. *)
Lemma strategy_lines (s t : Z) (le : Parcel.t -> Parcel.t -> bool)
    (security : Security.t) (quantity sell_price : Decimal) (d : Date.date)
    (db : DB) :
  0 <= s -> 0 <= t ->
  (forall k row, parcel_table db !! k = Some row ->
                 on_grid s (Parcel.remaining_quantity row)
                 /\ on_grid t (Parcel.cost_per_unit_aud row)
                 /\ 0 <= coef (Parcel.cost_per_unit_aud row)) ->
  on_grid s quantity -> 0 <= units s quantity < 10 ^ prec ->
  total (List.map (fun p => units t (Parcel.cost_per_unit_aud p)
                            * units s (Parcel.remaining_quantity p))
           (ParcelObjects.available security db)) < 10 ^ prec ->
  (total_available security db <? quantity)%D = false ->
  let lots := sort_by le (ParcelObjects.available security db) in
  let r := _simulate_strategy lots security quantity sell_price d in
  let L := List.map (lot_units s t) lots in
  let term := fun c => units t (cost_per_unit_aud c)
                       * units s (matched_quantity c) in
  Forall (fun c =>
            on_grid s (matched_quantity c) /\ 0 < units s (matched_quantity c)
            /\ on_grid (t + s) (cost_base_aud (cgt_fields c))
            /\ units (t + s) (cost_base_aud (cgt_fields c)) = term c
            /\ 0 <= term c
            /\ proceeds_aud (cgt_fields c)
               = (sell_price * D1 * matched_quantity c)%D
            /\ capital_gain_loss (cgt_fields c)
               = (proceeds_aud (cgt_fields c) - cost_base_aud (cgt_fields c))%D)
         (parcels_consumed r)
  /\ total (List.map term (parcels_consumed r)) = gval L (units s quantity)
  /\ gval L (units s quantity) < 10 ^ prec
  /\ Forall (fun l => 0 <= cost l /\ 0 < cap l) L
  /\ units s quantity <= total (List.map cap L)
  /\ total (List.map (fun c => units s (matched_quantity c)) (parcels_consumed r))
     = units s quantity
  /\ total_cost_base r
     = Dsum (List.map (fun c => cost_base_aud (cgt_fields c)) (parcels_consumed r))
  /\ total_gain_loss r
     = Dsum (List.map (fun c => capital_gain_loss (cgt_fields c))
               (parcels_consumed r)).
Proof.
  intros Hs Ht Hrows Hgq HQ Hfull Hcheck lots r L term.
  set (fake := mkFake security (Security.pk security) d sell_price D1
                 Transaction.SELL).
  assert (Hgrid : forall k row, parcel_table db !! k = Some row ->
                                on_grid s (Parcel.remaining_quantity row))
    by (intros k row Hk; now apply (Hrows k row)).
  destruct (simulate_exact_lines s le security quantity sell_price d db
              Hs Hgrid Hgq HQ Hcheck)
    as (Hall & Hlines & Htotal & Hcost & _ & Hgain & Hgreedy).
  fold lots in Hall, Hlines, Htotal, Hcost, Hgain, Hgreedy.
  fold r in Hall, Hlines, Htotal, Hcost, Hgain, Hgreedy.
  pose proof (base_qs_grid s security db le Hgrid) as Hlots. fold lots in Hlots.
  pose proof (total_available_enough s security db quantity le Hs Hgrid Hgq
                (proj2 HQ) Hcheck) as Henough. fold lots in Henough.
  assert (HlotsT : forall p, In p lots ->
                     on_grid t (Parcel.cost_per_unit_aud p)
                     /\ 0 <= units t (Parcel.cost_per_unit_aud p)).
  { intros p Hin. eapply Permutation_in in Hin; [|apply sort_by_perm].
    apply available_In in Hin as [[k Hk] _].
    destruct (Hrows k p Hk) as (_ & Hg & Hc). split; [exact Hg|].
    rewrite (units_coef t _ Hg). unfold on_grid in Hg.
    pose proof (pow10_pos (expo (Parcel.cost_per_unit_aud p) + t) ltac:(lia)).
    nia. }
  assert (HL : Forall (fun l => 0 <= cost l /\ 0 < cap l) L).
  { apply List.Forall_forall. intros l Hl.
    apply in_map_iff in Hl as (p & <- & Hp). cbn [lot_units cost cap fst snd].
    split; [now apply HlotsT|].
    rewrite List.Forall_forall in Hlots. now apply Hlots. }
  assert (HL0 : Forall (fun l => 0 <= cost l /\ 0 <= cap l) L).
  { eapply Forall_impl; [exact HL|]. intros l [H1 H2]. split; [exact H1|lia]. }
  assert (Hcaps : List.map cap L = List.map (remaining_units s) lots).
  { unfold L. rewrite List.map_map. reflexivity. }
  assert (HfullL : total (List.map (fun l => cost l * cap l) L) < 10 ^ prec).
  { unfold L. rewrite List.map_map.
    change (total (List.map (fun p => units t (Parcel.cost_per_unit_aud p)
                                      * units s (Parcel.remaining_quantity p))
                     lots) < 10 ^ prec).
    unfold lots.
    rewrite (total_perm _ _ (Permutation_map _ (sort_by_perm le _))).
    exact Hfull. }
  set (lines := parcels_consumed r) in *.
  assert (Hval : total (List.map term lines) = gval L (units s quantity)).
  { unfold term. rewrite (lines_value s t fake lines lots Hall), Hgreedy, <- Hcaps.
    apply (gval_greedy L); [lia|].
    eapply Forall_impl; [exact HL|]. now intros l [_ H]. }
  pose proof (gval_le_full L (units s quantity) (proj1 HQ) HL0) as Hle.
  assert (Hpair : Forall (fun c => exists p, In p lots /\ line_of fake p c) lines).
  { eapply Forall_impl; [apply (Forall2_right _ _ _ Hall)|].
    intros c (p & Hin & Hline). exists p. split; [|exact Hline].
    eapply In_take, Hin. }
  assert (Hterm : Forall (fun c => 0 <= term c) lines).
  { apply List.Forall_forall. intros c Hc.
    rewrite List.Forall_forall in Hpair, Hlines.
    destruct (Hpair c Hc) as (p & Hp & _ & _ & Hcpu & _).
    destruct (Hlines c Hc) as [_ Hpos]. unfold term. rewrite Hcpu.
    destruct (HlotsT p Hp) as [_ H0]. nia. }
  assert (Hterms : Forall (fun u => 0 <= u) (List.map term lines)).
  { apply List.Forall_forall. intros u Hu.
    apply in_map_iff in Hu as (c & <- & Hc).
    rewrite List.Forall_forall in Hterm. now apply Hterm. }
  split; [|split; [exact Hval|]; split; [lia|]; split; [exact HL|];
           split; [now rewrite Hcaps|]; split; [exact Htotal|];
           split; [exact Hcost|exact Hgain]].
  apply List.Forall_forall. intros c Hc.
  rewrite List.Forall_forall in Hpair, Hlines, Hterm.
  destruct (Hpair c Hc) as (p & Hp & _ & _ & Hcpu & Hfields & _).
  destruct (Hlines c Hc) as [Hgc Hpos]. specialize (Hterm c Hc).
  destruct (HlotsT p Hp) as [Hgp H0].
  pose proof (elem_le_total0 _ Hterms (term c)
                ltac:(apply in_map_iff; eauto)) as Hbound.
  assert (Htc : term c = units t (Parcel.cost_per_unit_aud p)
                         * units s (matched_quantity c))
    by (unfold term; now rewrite Hcpu).
  rewrite Hfields.
  cbn [calculate_cgt cost_base_aud proceeds_aud capital_gain_loss
       sell_unit_price sell_exchange_rate Fake_SellLike fake_unit_price
       fake_exchange_rate fake].
  destruct (Dmul_grid t s (Parcel.cost_per_unit_aud p) (matched_quantity c)
              Hgp Hgc) as (_ & Hg & Hu).
  { rewrite <- Htc, Z.abs_eq by exact Hterm. lia. }
  split; [exact Hgc|]. split; [exact Hpos|]. split; [exact Hg|].
  split; [now rewrite Hu, Htc|]. split; [exact Hterm|]. split; reflexivity.
Qed.

(** The total cost base of a simulated strategy, in units. *)
Lemma strategy_cost_units (s t : Z) (le : Parcel.t -> Parcel.t -> bool)
    (security : Security.t) (quantity sell_price : Decimal) (d : Date.date)
    (db : DB) :
  0 <= s -> 0 <= t ->
  (forall k row, parcel_table db !! k = Some row ->
                 on_grid s (Parcel.remaining_quantity row)
                 /\ on_grid t (Parcel.cost_per_unit_aud row)
                 /\ 0 <= coef (Parcel.cost_per_unit_aud row)) ->
  on_grid s quantity -> 0 <= units s quantity < 10 ^ prec ->
  total (List.map (fun p => units t (Parcel.cost_per_unit_aud p)
                            * units s (Parcel.remaining_quantity p))
           (ParcelObjects.available security db)) < 10 ^ prec ->
  (total_available security db <? quantity)%D = false ->
  let lots := sort_by le (ParcelObjects.available security db) in
  let r := _simulate_strategy lots security quantity sell_price d in
  let L := List.map (lot_units s t) lots in
  on_grid (t + s) (total_cost_base r)
  /\ units (t + s) (total_cost_base r) = gval L (units s quantity)
  /\ Forall (fun l => 0 <= cost l /\ 0 < cap l) L
  /\ units s quantity <= total (List.map cap L).
Proof.
  intros Hs Ht Hrows Hgq HQ Hfull Hcheck lots r L.
  destruct (strategy_lines s t le security quantity sell_price d db
              Hs Ht Hrows Hgq HQ Hfull Hcheck)
    as (Hlines & Hval & Hlt & HL & Hen & _ & Hcost & _).
  fold lots in Hlines, Hval, Hlt, HL, Hen, Hcost.
  fold r in Hlines, Hval, Hcost. fold L in Hval, Hlt, HL, Hen.
  set (lines := parcels_consumed r) in *.
  set (term := fun c => units t (cost_per_unit_aud c)
                        * units s (matched_quantity c)) in *.
  destruct (Dsum_units0 (t + s)
              (List.map (fun c => cost_base_aud (cgt_fields c)) lines)
              (List.map term lines)) as [Hg Hu].
  - lia.
  - apply Forall_Forall2_maps. eapply Forall_impl; [exact Hlines|].
    intros c (_ & _ & H1 & H2 & H3 & _). now repeat split.
  - lia.
  - rewrite Hcost. split; [exact Hg|]. split; [now rewrite Hu|].
    split; [exact HL|exact Hen].
Qed.

(** The lots in descending order of cost per unit, in units. *)
Lemma optimal_order_sorted (s t : Z) (security : Security.t) (db : DB) :
  (forall k row, parcel_table db !! k = Some row ->
                 on_grid t (Parcel.cost_per_unit_aud row)) ->
  StronglySorted (fun a b => cost b <= cost a)
    (List.map (lot_units s t)
       (sort_by ParcelObjects.by_cost_per_unit_desc
          (ParcelObjects.available security db))).
Proof.
  intros Hrows.
  set (lots := sort_by _ _).
  assert (Hin : forall p, In p lots -> on_grid t (Parcel.cost_per_unit_aud p)).
  { intros p Hp. eapply Permutation_in in Hp; [|apply sort_by_perm].
    apply available_In in Hp as [[k Hk] _]. now apply (Hrows k). }
  assert (Hs : StronglySorted
                 (fun a b => ParcelObjects.by_cost_per_unit_desc a b = true) lots).
  { apply sort_by_strongly_sorted.
    - intros a b. apply Dleb_total.
    - intros a b c Hab Hbc. unfold ParcelObjects.by_cost_per_unit_desc in *.
      eapply Dleb_trans; eassumption. }
  clearbody lots. induction Hs as [|p lots Hs IH Hhd]; cbn [List.map];
    constructor.
  - apply IH. intros q Hq. apply Hin. now right.
  - apply List.Forall_forall. intros l Hl.
    apply in_map_iff in Hl as (q & <- & Hq).
    rewrite List.Forall_forall in Hhd. specialize (Hhd q Hq).
    unfold ParcelObjects.by_cost_per_unit_desc in Hhd.
    rewrite (Dleb_units t _ _ (Hin q (or_intror Hq)) (Hin p (or_introl eq_refl)))
      in Hhd.
    apply Z.leb_le in Hhd. exact Hhd.
Qed.

(** X14.  With quantities and costs per unit on grids, costs not negative
    and the cost of all the lots within the decimal precision, no strategy
    of a successful forecast has a larger total cost base than the one
    that takes the lots in descending order of cost per unit. *)
Theorem optimal_largest_cost_base (s t : Z) (today : Date.date)
    (security : Security.t) (quantity sell_price : Decimal)
    (sell_date : option Date.date) (db db' : DB) (report : forecast_dict) :
  0 <= s -> 0 <= t ->
  (forall k row, parcel_table db !! k = Some row ->
                 on_grid s (Parcel.remaining_quantity row)
                 /\ on_grid t (Parcel.cost_per_unit_aud row)
                 /\ 0 <= coef (Parcel.cost_per_unit_aud row)) ->
  on_grid s quantity -> units s quantity < 10 ^ prec ->
  total (List.map (fun p => units t (Parcel.cost_per_unit_aud p)
                            * units s (Parcel.remaining_quantity p))
           (ParcelObjects.available security db)) < 10 ^ prec ->
  forecast today security quantity sell_price sell_date db = (Ok report, db') ->
  forall r, r = fifo report \/ r = lifo report \/ r = optimal report ->
    (total_cost_base r <=? total_cost_base (optimal report))%D = true.
Proof.
  intros Hs Ht Hrows Hgq Hq Hfull Hrun.
  apply forecast_ok_shape in Hrun as (_ & Hcq & _ & Hcheck & d & ->).
  cbv zeta. cbn [fifo lifo optimal].
  assert (HQ : 0 <= units s quantity < 10 ^ prec).
  { split; [|exact Hq]. rewrite (units_coef s _ Hgq). unfold on_grid in Hgq.
    pose proof (pow10_pos (expo quantity + s) ltac:(lia)). nia. }
  pose proof (fun le => strategy_cost_units s t le security quantity sell_price d
                          db Hs Ht Hrows Hgq HQ Hfull Hcheck) as Hmain.
  cbv zeta in Hmain.
  destruct (Hmain ParcelObjects.by_cost_per_unit_desc)
    as (Hgo & Huo & HLo & Heno).
  assert (Hsorted := optimal_order_sorted s t security db
                       (fun k row Hk => proj1 (proj2 (Hrows k row Hk)))).
  assert (Hany : forall le,
            (total_cost_base
               (_simulate_strategy (sort_by le (ParcelObjects.available security db))
                  security quantity sell_price d)
             <=? total_cost_base
                   (_simulate_strategy
                      (sort_by ParcelObjects.by_cost_per_unit_desc
                         (ParcelObjects.available security db))
                      security quantity sell_price d))%D = true).
  { intros le. destruct (Hmain le) as (Hg & Hu & _).
    rewrite (Dleb_units (t + s)) by assumption. apply Z.leb_le.
    rewrite Hu, Huo. apply sorted_order_best.
    - exact Hsorted.
    - eapply Forall_impl; [exact HLo|]. intros l [H1 H2]. split; [exact H1|lia].
    - apply Permutation_map. rewrite sort_by_perm. symmetry. apply sort_by_perm.
    - split; [lia|exact Heno]. }
  intros r [-> | [-> | ->]]; apply Hany.
Qed.

(** A sum of differences of amounts that are not negative, without
    rounding when both sides stay within the precision. *)
Lemma fold_Dadd_diff {X} (g : Z) (x : X -> Decimal) (a b : X -> Z) (l : list X) :
  forall acc A B,
    on_grid g acc -> units g acc = A - B -> 0 <= A -> 0 <= B ->
    Forall (fun c => on_grid g (x c) /\ units g (x c) = a c - b c
                     /\ 0 <= a c /\ 0 <= b c) l ->
    A + total (List.map a l) < 10 ^ prec ->
    B + total (List.map b l) < 10 ^ prec ->
    on_grid g (fold_left Dadd (List.map x l) acc)
    /\ units g (fold_left Dadd (List.map x l) acc)
       = (A + total (List.map a l)) - (B + total (List.map b l)).
Proof.
  induction l as [|c l IH]; intros acc A B Hg Hacc HA HB Hall Ha Hb.
  - cbn. split; [assumption|lia].
  - apply Forall_cons_iff in Hall as [(Hgc & Hc & Hac & Hbc) Hall].
    cbn [List.map] in Ha, Hb. rewrite total_cons in Ha, Hb.
    assert (Hta : 0 <= total (List.map a l)).
    { apply total_nonneg0, List.Forall_forall. intros u Hu.
      apply in_map_iff in Hu as (c' & <- & Hc').
      rewrite List.Forall_forall in Hall. now apply Hall. }
    assert (Htb : 0 <= total (List.map b l)).
    { apply total_nonneg0, List.Forall_forall. intros u Hu.
      apply in_map_iff in Hu as (c' & <- & Hc').
      rewrite List.Forall_forall in Hall. now apply Hall. }
    destruct (Dadd_grid g acc (x c) Hg Hgc) as (_ & Hg' & Hu'); [lia|].
    cbn [fold_left List.map]. rewrite !total_cons.
    destruct (IH (acc + x c)%D (A + a c) (B + b c) Hg' ltac:(lia) ltac:(lia)
                ltac:(lia) Hall ltac:(lia) ltac:(lia)) as [Hgf Huf].
    split; [exact Hgf|]. rewrite Huf. lia.
Qed.

(** The total gain of a simulated strategy, in units: the proceeds of the
    quantity asked less the cost of the greedy allocation. *)
Lemma strategy_gain_units (s t : Z) (le : Parcel.t -> Parcel.t -> bool)
    (security : Security.t) (quantity sell_price : Decimal) (d : Date.date)
    (db : DB) :
  0 <= s -> 0 <= t ->
  (forall k row, parcel_table db !! k = Some row ->
                 on_grid s (Parcel.remaining_quantity row)
                 /\ on_grid t (Parcel.cost_per_unit_aud row)
                 /\ 0 <= coef (Parcel.cost_per_unit_aud row)) ->
  on_grid s quantity -> 0 <= units s quantity < 10 ^ prec ->
  on_grid t sell_price -> 0 < units t sell_price ->
  units t sell_price * units s quantity < 10 ^ prec ->
  total (List.map (fun p => units t (Parcel.cost_per_unit_aud p)
                            * units s (Parcel.remaining_quantity p))
           (ParcelObjects.available security db)) < 10 ^ prec ->
  (total_available security db <? quantity)%D = false ->
  let lots := sort_by le (ParcelObjects.available security db) in
  let r := _simulate_strategy lots security quantity sell_price d in
  let L := List.map (lot_units s t) lots in
  on_grid (t + s) (total_gain_loss r)
  /\ units (t + s) (total_gain_loss r)
     = units t sell_price * units s quantity - gval L (units s quantity)
  /\ Forall (fun l => 0 <= cost l /\ 0 < cap l) L
  /\ units s quantity <= total (List.map cap L).
Proof.
  intros Hs Ht Hrows Hgq HQ Hgp HP Hbound Hfull Hcheck lots r L.
  destruct (strategy_lines s t le security quantity sell_price d db
              Hs Ht Hrows Hgq HQ Hfull Hcheck)
    as (Hlines & Hval & Hlt & HL & Hen & Htotal & _ & Hgain).
  fold lots in Hlines, Hval, Hlt, HL, Hen, Htotal, Hgain.
  fold r in Hlines, Hval, Htotal, Hgain. fold L in Hval, Hlt, HL, Hen.
  set (lines := parcels_consumed r) in *.
  set (term := fun c => units t (cost_per_unit_aud c)
                        * units s (matched_quantity c)) in *.
  set (pay := fun c => units t sell_price * units s (matched_quantity c)).
  assert (Hpay : total (List.map pay lines)
                 = units t sell_price * units s quantity).
  { unfold pay. now rewrite (total_map_mul_f (units t sell_price)), Htotal. }
  assert (Hle : Forall (fun c => units s (matched_quantity c) <= units s quantity)
                  lines).
  { apply (line_units_le s lines _); [|exact Htotal].
    eapply Forall_impl; [exact Hlines|]. intros c (H1 & H2 & _). now split. }
  destruct (fold_Dadd_diff (t + s) (fun c => capital_gain_loss (cgt_fields c))
              pay term lines D0 0 0) as [Hg Hu].
  - apply on_grid_D0. lia.
  - now rewrite units_D0.
  - lia.
  - lia.
  - apply List.Forall_forall. intros c Hc.
    rewrite List.Forall_forall in Hlines, Hle.
    destruct (Hlines c Hc) as (Hgc & Hpos & Hgcost & Hucost & Hterm & Hproc & Hcgl).
    specialize (Hle c Hc).
    assert (Hterms : Forall (fun u => 0 <= u) (List.map term lines)).
    { apply List.Forall_forall. intros u Hin.
      apply in_map_iff in Hin as (c' & <- & Hc').
      now destruct (Hlines c' Hc') as (_ & _ & _ & _ & H & _). }
    pose proof (elem_le_total0 _ Hterms (term c)
                  ltac:(apply in_map_iff; eauto)) as Hb.
    destruct (proceeds_exact s t sell_price (matched_quantity c) Hgp Hgc HP Hpos)
      as [Hgpr Hupr]; [nia|].
    rewrite <- Hproc in Hgpr, Hupr.
    destruct (Dsub_grid (t + s) (proceeds_aud (cgt_fields c))
                (cost_base_aud (cgt_fields c)) Hgpr Hgcost) as (_ & Hgd & Hud).
    { rewrite Hupr, Hucost. change (term c <= total (List.map term lines)) in Hb.
      fold (term c) in Hterm |- *.
      assert (0 <= units t sell_price * units s (matched_quantity c)
              <= units t sell_price * units s quantity) by nia.
      lia. }
    rewrite Hcgl. split; [exact Hgd|].
    split; [rewrite Hud, Hupr, Hucost; reflexivity|].
    split; [unfold pay; nia|exact Hterm].
  - lia.
  - lia.
  - rewrite Hgain. unfold Dsum. split; [exact Hg|].
    split; [rewrite Hu, Hpay, Hval; lia|]. split; [exact HL|exact Hen].
Qed.

(** X15.  With quantities, price and costs per unit on grids, costs not
    negative, and the proceeds and the cost of all the lots within the
    decimal precision, no strategy of a successful forecast has a smaller
    total gain before discount than the one that takes the lots in
    descending order of cost per unit. *)
Theorem optimal_smallest_gain (s t : Z) (today : Date.date)
    (security : Security.t) (quantity sell_price : Decimal)
    (sell_date : option Date.date) (db db' : DB) (report : forecast_dict) :
  0 <= s -> 0 <= t ->
  (forall k row, parcel_table db !! k = Some row ->
                 on_grid s (Parcel.remaining_quantity row)
                 /\ on_grid t (Parcel.cost_per_unit_aud row)
                 /\ 0 <= coef (Parcel.cost_per_unit_aud row)) ->
  on_grid s quantity -> on_grid t sell_price ->
  units t sell_price * units s quantity < 10 ^ prec ->
  total (List.map (fun p => units t (Parcel.cost_per_unit_aud p)
                            * units s (Parcel.remaining_quantity p))
           (ParcelObjects.available security db)) < 10 ^ prec ->
  forecast today security quantity sell_price sell_date db = (Ok report, db') ->
  forall r, r = fifo report \/ r = lifo report \/ r = optimal report ->
    (total_gain_loss (optimal report) <=? total_gain_loss r)%D = true.
Proof.
  intros Hs Ht Hrows Hgq Hgp Hbound Hfull Hrun.
  apply forecast_ok_shape in Hrun as (_ & Hcq & Hcp & Hcheck & d & ->).
  cbv zeta. cbn [fifo lifo optimal].
  assert (HP : 0 < units t sell_price).
  { rewrite (units_coef t _ Hgp). unfold on_grid in Hgp.
    pose proof (pow10_pos (expo sell_price + t) ltac:(lia)). nia. }
  assert (HQ0 : 0 < units s quantity).
  { rewrite (units_coef s _ Hgq). unfold on_grid in Hgq.
    pose proof (pow10_pos (expo quantity + s) ltac:(lia)). nia. }
  assert (HQ : 0 <= units s quantity < 10 ^ prec) by nia.
  pose proof (fun le => strategy_gain_units s t le security quantity sell_price d
                          db Hs Ht Hrows Hgq HQ Hgp HP Hbound Hfull Hcheck)
    as Hmain.
  cbv zeta in Hmain.
  destruct (Hmain ParcelObjects.by_cost_per_unit_desc)
    as (Hgo & Huo & HLo & Heno).
  assert (Hsorted := optimal_order_sorted s t security db
                       (fun k row Hk => proj1 (proj2 (Hrows k row Hk)))).
  assert (Hany : forall le,
            (total_gain_loss
               (_simulate_strategy
                  (sort_by ParcelObjects.by_cost_per_unit_desc
                     (ParcelObjects.available security db))
                  security quantity sell_price d)
             <=? total_gain_loss
                   (_simulate_strategy
                      (sort_by le (ParcelObjects.available security db))
                      security quantity sell_price d))%D = true).
  { intros le. destruct (Hmain le) as (Hg & Hu & _).
    rewrite (Dleb_units (t + s)) by assumption. apply Z.leb_le.
    rewrite Hu, Huo.
    assert (Hbest : gval (List.map (lot_units s t)
                            (sort_by le (ParcelObjects.available security db)))
                      (units s quantity)
                    <= gval (List.map (lot_units s t)
                               (sort_by ParcelObjects.by_cost_per_unit_desc
                                  (ParcelObjects.available security db)))
                         (units s quantity)).
    { apply sorted_order_best.
      - exact Hsorted.
      - eapply Forall_impl; [exact HLo|]. intros l [H1 H2]. split; [exact H1|lia].
      - apply Permutation_map. rewrite sort_by_perm. symmetry. apply sort_by_perm.
      - split; [lia|exact Heno]. }
    lia. }
  intros r [-> | [-> | ->]]; apply Hany.
Qed.

End Optimal.

(** ** Previewed proposals, computed again and committed *)

Section PreviewFacts.
Import AllocSpec CommitSpec ManualSpec PreviewSpec matching views_matching.

Lemma Dltb_pos_not_le (q : Decimal) : (D0 <? q)%D = true -> (q <=? D0)%D = false.
Proof.
  rewrite Dltb_D0, Dleb_D0. intros H. apply Z.ltb_lt in H. now apply Z.leb_gt.
Qed.

Lemma replay_pairs (sell : Transaction.t) (ms : list ParcelMatch.t) :
  Forall (replayable sell) ms ->
  let pairs := combine (List.map ParcelMatch.parcel ms)
                 (List.map ParcelMatch.matched_quantity ms) in
  List.filter (fun pq => negb (snd pq <=? D0)%D) pairs = pairs
  /\ forallb (pair_ok sell) pairs = true
  /\ List.map (fun pq => _build_match (fst pq) sell (snd pq)) pairs = ms
  /\ List.map snd pairs = List.map ParcelMatch.matched_quantity ms.
Proof.
  induction 1 as [|m ms (Hb & Hsec & Hpos & Hle) _ IH]; [now cbn|].
  destruct IH as (IH1 & IH2 & IH3 & IH4).
  cbn [List.map combine List.filter forallb fst snd]. cbv zeta.
  rewrite (Dltb_pos_not_le _ Hpos). cbn [negb].
  unfold pair_ok at 1. cbn [fst snd]. rewrite Hle, Hsec, Z.eqb_refl.
  cbn [negb andb]. rewrite IH1, IH3, IH4.
  repeat split; try assumption. f_equal. symmetry. exact Hb.
Qed.

(** The manual strategy, given the lots and quantities of acceptable
    proposals that add up to the quantity of the sell, returns them. *)
Lemma manual_replay (sell : Transaction.t) (ms : list ParcelMatch.t) (db : DB) :
  Transaction.is_sell sell = true ->
  ms <> [] ->
  Forall (replayable sell) ms ->
  (Dsum (List.map ParcelMatch.matched_quantity ms) =? Transaction.quantity sell)%D
  = true ->
  match_ sell "manual" (Some (List.map ParcelMatch.parcel ms))
    (Some (List.map ParcelMatch.matched_quantity ms)) db = (Ok ms, db).
Proof.
  intros Hsell Hne Hall Hsum. unfold match_. rewrite Hsell. cbn [negb].
  change (String.eqb "manual" "manual") with true. cbv iota.
  unfold lift. f_equal. unfold _match_manual.
  destruct (replay_pairs sell ms Hall) as (Hf & Hok & Hb & Hq).
  assert (He1 : is_empty (Some (List.map ParcelMatch.parcel ms)) = false)
    by (destruct ms; [contradiction|reflexivity]).
  assert (He2 : is_empty (Some (List.map ParcelMatch.matched_quantity ms)) = false)
    by (destruct ms; [contradiction|reflexivity]).
  rewrite He1, He2. cbn [orb]. unfold default, id.
  rewrite !length_map, Nat.eqb_refl. cbn [negb].
  destruct (manual_loop_spec sell
              (combine (List.map ParcelMatch.parcel ms)
                 (List.map ParcelMatch.matched_quantity ms)) [] D0)
    as [Hrun _].
  cbv zeta in Hrun. rewrite Hf in Hrun. rewrite (Hrun Hok).
  cbn [app]. rewrite Hb, Hq. fold (Dsum (List.map ParcelMatch.matched_quantity ms)).
  rewrite Hsum. reflexivity.
Qed.

(** The quantities of the proposals of the automatic loop are on the grid
    of the lots and of the quantity asked. *)
Lemma auto_loop_grid (s : Z) (sell : Transaction.t) (lots : list Parcel.t) :
  forall matches remaining,
    Forall (fun p => on_grid s (Parcel.remaining_quantity p)) lots ->
    on_grid s remaining ->
    exists new rest,
      auto_loop sell lots matches remaining = (matches ++ new, rest)
      /\ Forall (fun m => on_grid s (ParcelMatch.matched_quantity m)) new.
Proof.
  induction lots as [|p lots IH]; intros matches remaining Hlots Hrem.
  - exists [], remaining. cbn. rewrite app_nil_r. split; [reflexivity|constructor].
  - cbn [auto_loop]. destruct (remaining <=? D0)%D.
    + exists [], remaining. rewrite app_nil_r. split; [reflexivity|constructor].
    + apply Forall_cons_iff in Hlots as [Hp Hlots].
      set (qty := Dmin (Parcel.remaining_quantity p) remaining).
      assert (Hq : on_grid s qty) by now apply Dmin_on_grid.
      destruct (IH (matches ++ [_build_match p sell qty]) (remaining - qty)%D
                  Hlots (Dsub_on_grid s _ _ Hrem Hq)) as (new & rest & Hrun & Hg).
      exists (_build_match p sell qty :: new), rest.
      rewrite Hrun, <- app_assoc. split; [reflexivity|].
      constructor; [exact Hq|exact Hg].
Qed.

(** What a successful automatic allocation returns, on a grid: proposals
    the manual strategy accepts, for distinct stored lots, whose quantities
    add up to the quantity of the sell without rounding. *)
Lemma match_auto_replayable (s : Z) (sell : Transaction.t) (strategy : string)
    (db db' : DB) (ms : list ParcelMatch.t) :
  0 <= s ->
  table_wf (parcel_table db) ->
  (forall k row, parcel_table db !! k = Some row ->
                 on_grid s (Parcel.remaining_quantity row)) ->
  on_grid s (Transaction.quantity sell) ->
  0 < units s (Transaction.quantity sell) < 10 ^ prec ->
  _match_auto sell (Transaction.quantity sell) strategy db = (Ok ms, db') ->
  db' = db
  /\ ms <> []
  /\ Forall (replayable sell) ms
  /\ (Dsum (List.map ParcelMatch.matched_quantity ms)
      =? Transaction.quantity sell)%D = true
  /\ List.NoDup (List.map ParcelMatch.parcel_id ms)
  /\ (forall m, In m ms ->
                parcel_table db !! ParcelMatch.parcel_id m
                = Some (ParcelMatch.parcel m))
  /\ Forall (fun m => on_grid s (ParcelMatch.matched_quantity m)) ms
  /\ total (List.map (matched_units s) ms) = units s (Transaction.quantity sell).
Proof.
  intros Hs Hwf Hgrid Hgq Hq Hrun.
  set (lots := available_parcels sell strategy db).
  pose proof (available_parcels_grid s sell strategy db Hgrid) as Hlots.
  fold lots in Hlots.
  unfold _match_auto, bind, query in Hrun. fold lots in Hrun.
  destruct (auto_loop sell lots [] (Transaction.quantity sell)) as [ms' rest']
    eqn:Hloop.
  destruct (D0 <? rest')%D eqn:Hrest; [discriminate|].
  injection Hrun as -> <-.
  destruct (auto_loop_spec s sell lots Hs [] (Transaction.quantity sell)
              Hlots Hgq ltac:(lia))
    as (new1 & rest1 & H1 & Hparcels & Hunits & Hbuilt & Hgrest & Hurest).
  destruct (auto_loop_shape sell lots [] (Transaction.quantity sell))
    as (new2 & rest2 & H2 & _ & _ & Hle & Hpos & _).
  destruct (auto_loop_grid s sell lots [] (Transaction.quantity sell))
    as (new3 & rest3 & H3 & Hgms).
  { eapply Forall_impl; [exact Hlots|]. now intros p [Hp _]. }
  { exact Hgq. }
  rewrite Hloop in H1, H2, H3. cbn [app] in H1, H2, H3.
  injection H1 as <- <-. injection H2 as <- <-. injection H3 as <- _.
  assert (Hcaps : Forall (fun c => 0 < c) (List.map (remaining_units s) lots)).
  { apply List.Forall_forall. intros c Hc.
    apply in_map_iff in Hc as (p & <- & Hp).
    rewrite List.Forall_forall in Hlots. now apply Hlots. }
  pose proof (greedy_total _ (units s (Transaction.quantity sell)) Hcaps
                ltac:(lia)) as Htot.
  rewrite <- Hunits in Htot, Hurest.
  rewrite (Dltb_units s D0 rest') in Hrest by (assumption || now apply on_grid_D0).
  rewrite units_D0 in Hrest. apply Z.ltb_ge in Hrest.
  assert (Hsum : total (List.map (matched_units s) ms)
                 = units s (Transaction.quantity sell)) by lia.
  assert (Hin : forall m, In m ms -> In (ParcelMatch.parcel m) lots).
  { intros m Hm. apply (In_take _ (length ms)). rewrite <- Hparcels.
    now apply in_map. }
  assert (Hreplay : Forall (replayable sell) ms).
  { apply List.Forall_forall. intros m Hm.
    rewrite List.Forall_forall in Hbuilt, Hle, Hpos.
    destruct (proj1 (proj1 (available_parcels_spec sell strategy db) _) (Hin m Hm))
      as [_ Hel].
    unfold eligible in Hel. apply andb_true_iff in Hel as [Hsec Hrem].
    repeat split; auto. now apply Z.eqb_eq. }
  split; [reflexivity|]. split.
  { intros ->. cbn in Hsum. lia. }
  split; [exact Hreplay|]. split; [|split; [|split; [|split; [exact Hgms|exact Hsum]]]].
  - destruct (fold_Dadd_grid s (List.map ParcelMatch.matched_quantity ms) D0
                (on_grid_D0 s Hs)) as [Hg Hu].
    + rewrite units_D0. lia.
    + apply List.Forall_forall. intros q Hqin.
      apply in_map_iff in Hqin as (m & <- & Hm).
      rewrite List.Forall_forall in Hgms, Hreplay.
      split; [now apply Hgms|]. apply units_pos; [now apply Hgms|].
      now destruct (Hreplay m Hm) as (_ & _ & H & _).
    + rewrite units_D0, List.map_map. fold (matched_units s).
      unfold matched_units in Hsum |- *. lia.
    + unfold Dsum. rewrite (Deqb_units s) by assumption.
      rewrite Hu, units_D0, List.map_map. apply Z.eqb_eq.
      unfold matched_units in Hsum. lia.
  - unfold ParcelMatch.parcel_id.
    rewrite <- (List.map_map ParcelMatch.parcel Parcel.pk), Hparcels.
    apply NoDup_map_take. now apply available_pks_NoDup.
  - intros m Hm.
    destruct (proj1 (proj1 (available_parcels_spec sell strategy db) _) (Hin m Hm))
      as [[k Hk] _].
    unfold ParcelMatch.parcel_id. now rewrite (Hwf k _ Hk).
Qed.

Lemma match_auto_only (sell : Transaction.t) (strategy : string) (db db' : DB)
    (ms : list ParcelMatch.t) :
  match_ sell strategy None None db = (Ok ms, db') ->
  Transaction.is_sell sell = true
  /\ _match_auto sell (Transaction.quantity sell) strategy db = (Ok ms, db').
Proof.
  unfold match_. destruct (Transaction.is_sell sell); cbn [negb]; [|discriminate].
  destruct (String.eqb strategy "manual"); [discriminate|].
  destruct (String.eqb strategy "fifo" || String.eqb strategy "lifo");
    [|discriminate].
  auto.
Qed.

(** X16.  With the quantities on a grid within the decimal precision and a
    sell of a quantity above zero, the proposals of an automatic
    allocation, given back to [match] as the lots and quantities of a
    manual allocation on the same database, are returned unchanged. *)
Theorem match_replay (s : Z) (sell : Transaction.t) (strategy : string)
    (db db' : DB) (ms : list ParcelMatch.t) :
  0 <= s ->
  table_wf (parcel_table db) ->
  (forall k row, parcel_table db !! k = Some row ->
                 on_grid s (Parcel.remaining_quantity row)) ->
  on_grid s (Transaction.quantity sell) ->
  0 < units s (Transaction.quantity sell) < 10 ^ prec ->
  match_ sell strategy None None db = (Ok ms, db') ->
  match_ sell "manual" (Some (List.map ParcelMatch.parcel ms))
    (Some (List.map ParcelMatch.matched_quantity ms)) db = (Ok ms, db).
Proof.
  intros Hs Hwf Hgrid Hgq Hq Hrun.
  apply match_auto_only in Hrun as [Hsell Hrun].
  destruct (match_auto_replayable s sell strategy db db' ms Hs Hwf Hgrid Hgq Hq Hrun)
    as (_ & Hne & Hall & Hsum & _).
  now apply manual_replay.
Qed.

(** The loop of [confirm_match] reads back the lots of proposals for
    stored lots. *)
Lemma rebuild_stored (ms : list ParcelMatch.t) (db : DB) :
  forall ps qs,
    (forall m, In m ms ->
               parcel_table db !! ParcelMatch.parcel_id m
               = Some (ParcelMatch.parcel m)) ->
    rebuild (to_pending ms) ps qs db
    = (Ok (ps ++ List.map ParcelMatch.parcel ms,
           qs ++ List.map ParcelMatch.matched_quantity ms), db).
Proof.
  induction ms as [|m ms IH]; intros ps qs Hall.
  - cbn. now rewrite !app_nil_r.
  - cbn [to_pending List.map rebuild]. unfold bind, ParcelObjects.get.
    rewrite (Hall m (or_introl eq_refl)).
    fold (to_pending ms). rewrite IH by (intros m' Hm'; apply Hall; now right).
    now rewrite <- !app_assoc.
Qed.

(** X17.  A preview of [auto_match] that is confirmed on the unchanged
    database is committed as previewed: with the quantities on a grid
    within the decimal precision and a sell of a quantity above zero,
    [confirm_match] computes the previewed proposals again, saves one
    allocation for each, debits their lots and empties the pending entry
    of the sell. *)
Theorem preview_confirms (s : Z) (transactions : gmap Z Transaction.t)
    (sell_id : Z) (strategy : option string)
    (sess sess' : gmap Z pending_matches)
    (db db' : DB) (ms : list ParcelMatch.t) (sell : Transaction.t)
    (shown : string) :
  0 <= s ->
  table_wf (parcel_table db) ->
  (forall k row, parcel_table db !! k = Some row ->
                 on_grid s (Parcel.remaining_quantity row)) ->
  on_grid s (Transaction.quantity sell) ->
  0 < units s (Transaction.quantity sell) < 10 ^ prec ->
  auto_match transactions sell_id strategy sess db
  = (Ok (Preview ms sell shown, sess'), db') ->
  db' = db
  /\ sess' !! sell_id = Some (to_pending ms)
  /\ exists saved,
       confirm_match transactions sell_id sess' db
       = (Ok (Confirmed saved sell, delete sell_id sess'),
          mkDB (debit_all ms (parcel_table db)) (parcel_match_table db ++ saved))
       /\ Forall2 persisted ms saved.
Proof.
  intros Hs Hwf Hgrid Hgq Hq Hview. unfold auto_match in Hview.
  destruct (transactions !! sell_id) as [sell0|] eqn:Hsell0; [|discriminate].
  destruct (match_ sell0 (default "fifo"%string strategy) None None db)
    as [[ms0|e] db0] eqn:Hrun; [|destruct e; discriminate].
  injection Hview as -> -> <- <- ->.
  apply match_auto_only in Hrun as [Hsell Hrun].
  destruct (match_auto_replayable s sell _ db db' ms Hs Hwf Hgrid Hgq Hq Hrun)
    as (-> & Hne & Hall & Hsum & Hnd & Hstored & _).
  split; [reflexivity|]. split; [apply lookup_insert_eq|].
  destruct (confirm_distinct_proposals ms db Hwf Hnd) as (saved & Hc & Hp).
  { intros m Hm. split; [now apply Hstored|].
    rewrite List.Forall_forall in Hall.
    now destruct (Hall m Hm) as (_ & _ & _ & H). }
  exists saved. split; [|exact Hp].
  unfold confirm_match. rewrite Hsell0, lookup_insert_eq.
  assert (Hpend : to_pending ms <> []) by (destruct ms; [contradiction|discriminate]).
  destruct (to_pending ms) as [|item items] eqn:Hitems; [contradiction|].
  rewrite <- Hitems.
  rewrite (rebuild_stored ms db [] [] Hstored). cbn [app].
  unfold bind. rewrite (manual_replay sell ms db Hsell Hne Hall Hsum), Hc.
  reflexivity.
Qed.

(** What the loop of [unmatched_sells] lists: the sells whose allocations
    add up to less than their quantity. *)
Lemma unmatched_loop_spec (db : DB) (sells : list Transaction.t) :
  forall unmatched,
    List.map transaction (unmatched_loop sells unmatched db)
    = List.map transaction unmatched
      ++ List.filter
           (fun sell =>
              (Dsum (List.map ParcelMatch.matched_quantity (parcel_matches sell db))
               <? Transaction.quantity sell)%D) sells.
Proof.
  induction sells as [|sell sells IH]; intros unmatched.
  - cbn. now rewrite app_nil_r.
  - cbn [unmatched_loop List.filter]. cbv zeta.
    destruct (Dsum _ <? Transaction.quantity sell)%D.
    + rewrite IH, List.map_app, <- app_assoc. reflexivity.
    + apply IH.
Qed.

Lemma sells_In (transactions : gmap Z Transaction.t) (sell : Transaction.t) :
  In sell (sells transactions)
  <-> Transaction.is_sell sell = true
      /\ exists k, transactions !! k = Some sell.
Proof.
  unfold sells. split.
  - intros Hin. eapply Permutation_in in Hin; [|apply sort_by_perm].
    apply filter_In in Hin as [Hin Hsell]. split; [exact Hsell|].
    apply in_map_iff in Hin as ([k x] & Hx & Hin). cbn in Hx. subst x.
    exists k. apply elem_of_map_to_list. now apply list_elem_of_In.
  - intros [Hsell [k Hk]]. eapply Permutation_in; [symmetry; apply sort_by_perm|].
    apply filter_In. split; [|exact Hsell].
    apply in_map_iff. exists (k, sell). split; [reflexivity|].
    apply list_elem_of_In. now apply elem_of_map_to_list.
Qed.

Lemma filter_none {A} (f : A -> bool) (l : list A) :
  Forall (fun x => f x = false) l -> List.filter f l = [].
Proof. induction 1 as [|x l Hx _ IH]; cbn; [reflexivity|]. now rewrite Hx. Qed.

Lemma filter_all {A} (f : A -> bool) (l : list A) :
  Forall (fun x => f x = true) l -> List.filter f l = l.
Proof. induction 1 as [|x l Hx _ IH]; cbn; [reflexivity|]. now rewrite Hx, IH. Qed.

(** X18.  A sell without allocations and with a quantity above zero is in
    the list of [unmatched_sells]; once the proposals of an automatic
    allocation for it are committed, with the quantities on a grid within
    the decimal precision, it is no longer in the list. *)
Theorem committed_sell_leaves_list (s : Z) (transactions : gmap Z Transaction.t)
    (sell : Transaction.t) (strategy : string) (db db' db2 : DB)
    (ms saved : list ParcelMatch.t) :
  0 <= s ->
  table_wf (parcel_table db) ->
  (forall k row, parcel_table db !! k = Some row ->
                 on_grid s (Parcel.remaining_quantity row)) ->
  on_grid s (Transaction.quantity sell) ->
  0 < units s (Transaction.quantity sell) < 10 ^ prec ->
  (exists k, transactions !! k = Some sell) ->
  Forall (fun m => Transaction.pk (ParcelMatch.sell_transaction m)
                   <> Transaction.pk sell) (parcel_match_table db) ->
  match_ sell strategy None None db = (Ok ms, db') ->
  confirm_matches ms db = (Ok saved, db2) ->
  exists before after,
    unmatched_sells transactions db = (Ok before, db)
    /\ unmatched_sells transactions db2 = (Ok after, db2)
    /\ In sell (List.map transaction before)
    /\ ~ In sell (List.map transaction after).
Proof.
  intros Hs Hwf Hgrid Hgq Hq Hstored Hnone Hrun Hcommit.
  apply match_auto_only in Hrun as [Hsell Hrun].
  destruct (match_auto_replayable s sell strategy db db' ms Hs Hwf Hgrid Hgq Hq Hrun)
    as (_ & _ & Hall & _ & _ & _ & Hgms & Hsum).
  apply (confirm_matches_ok_inv ms saved db db2 Hwf) in Hcommit
    as (_ & -> & Hp).
  exists (unmatched_loop (sells transactions) [] db).
  eexists. split; [reflexivity|]. split; [reflexivity|].
  rewrite !unmatched_loop_spec. cbn [List.map app].
  assert (Hold : List.filter
                   (fun m => Transaction.pk (ParcelMatch.sell_transaction m)
                             =? Transaction.pk sell) (parcel_match_table db) = []).
  { apply filter_none. eapply Forall_impl; [exact Hnone|].
    intros m Hm. now apply Z.eqb_neq. }
  split.
  - apply filter_In. split; [apply sells_In; auto|].
    unfold parcel_matches. rewrite Hold. cbn [sort_by List.map].
    change (Dsum []) with D0. rewrite Dltb_D0. apply Z.ltb_lt.
    rewrite (units_coef s _ Hgq) in Hq. unfold on_grid in Hgq.
    pose proof (pow10_pos (expo (Transaction.quantity sell) + s) ltac:(lia)). nia.
  - intros Hin. apply filter_In in Hin as [_ Htest].
    unfold parcel_matches in Htest. cbn [parcel_match_table] in Htest.
    rewrite List.filter_app, Hold in Htest. cbn [app] in Htest.
    assert (Hfields : Forall2 (fun m m' =>
                         ParcelMatch.sell_transaction m' = sell
                         /\ ParcelMatch.matched_quantity m'
                            = ParcelMatch.matched_quantity m) ms saved).
    { clear Htest Hgms Hsum Hrun.
      induction Hp as [|m m' ms saved [Hm _] _ IH]; constructor.
      - apply Forall_cons_iff in Hall as [(Hb & _) _].
        rewrite Hm. cbn [ParcelMatch.set_parcel ParcelMatch.sell_transaction
                         ParcelMatch.matched_quantity].
        split; [|reflexivity]. rewrite Hb. reflexivity.
      - apply IH. now apply Forall_cons_iff in Hall as [_ H]. }
    assert (Hmine : List.filter
                      (fun m => Transaction.pk (ParcelMatch.sell_transaction m)
                                =? Transaction.pk sell) saved = saved).
    { apply filter_all. clear -Hfields.
      induction Hfields as [|m m' ms saved [Hm _] _ IH]; constructor; [|exact IH].
      rewrite Hm. apply Z.eqb_refl. }
    rewrite Hmine in Htest.
    assert (Hqs : List.map ParcelMatch.matched_quantity saved
                  = List.map ParcelMatch.matched_quantity ms).
    { clear -Hfields.
      induction Hfields as [|m m' ms saved [_ Hm] _ IH]; [reflexivity|].
      cbn [List.map]. now rewrite Hm, IH. }
    set (sorted := sort_by ParcelMatchObjects.by_parcel_acquisition_date saved)
      in Htest.
    assert (Hperm : Permutation (List.map ParcelMatch.matched_quantity sorted)
                      (List.map ParcelMatch.matched_quantity ms)).
    { rewrite <- Hqs. apply Permutation_map, sort_by_perm. }
    assert (Hpos : Forall (fun q => on_grid s q /\ 0 < units s q)
                     (List.map ParcelMatch.matched_quantity ms)).
    { apply List.Forall_forall. intros q Hqin.
      apply in_map_iff in Hqin as (m & <- & Hm).
      rewrite List.Forall_forall in Hgms, Hall.
      split; [now apply Hgms|]. apply units_pos; [now apply Hgms|].
      now destruct (Hall m Hm) as (_ & _ & H & _). }
    assert (Htot : total (List.map (units s)
                            (List.map ParcelMatch.matched_quantity sorted))
                   = units s (Transaction.quantity sell)).
    { rewrite (total_perm _ _ (Permutation_map (units s) Hperm)), List.map_map.
      exact Hsum. }
    destruct (fold_Dadd_grid s (List.map ParcelMatch.matched_quantity sorted) D0
                (on_grid_D0 s Hs)) as [Hg Hu].
    + rewrite units_D0. lia.
    + rewrite Hperm. exact Hpos.
    + rewrite units_D0, Htot. lia.
    + unfold Dsum in Htest. rewrite (Dltb_units s) in Htest by assumption.
      rewrite Hu, units_D0, Htot in Htest. apply Z.ltb_lt in Htest. lia.
Qed.


End PreviewFacts.

(** ** The further properties on the sample data *)

Section Examples.
Import AllocSpec CommitSpec ManualSpec CommitFrame ForecastLines FySpec.
Import cgt matching forecasting reports views_matching.

Lemma match_proposals_sound_witness :
  match_ Samples.sell_60 "fifo" None None Samples.db0
  = (Ok Samples.proposals_60, Samples.db0)
  /\ Forall (fun m => (D0 <? ParcelMatch.matched_quantity m)%D = true
                      /\ (Parcel.remaining_quantity (ParcelMatch.parcel m)
                          <? ParcelMatch.matched_quantity m)%D = false)
            Samples.proposals_60.
Proof.
  assert (H : match_ Samples.sell_60 "fifo" None None Samples.db0
              = (Ok Samples.proposals_60, Samples.db0))
    by (vm_compute; reflexivity).
  split; [exact H|].
  destruct (match_proposals_sound Samples.sell_60 "fifo" None None Samples.db0
              Samples.db0 Samples.proposals_60 H) as [_ Hall].
  eapply Forall_impl; [exact Hall|].
  intros m (_ & _ & Hp & Hle). split; assumption.
Defined.

Lemma match_auto_whole_lots_witness :
  table_wf (parcel_table Samples.db0)
  /\ match_ Samples.sell_60 "fifo" None None Samples.db0
     = (Ok Samples.proposals_60, Samples.db0)
  /\ List.NoDup (List.map ParcelMatch.parcel_id Samples.proposals_60)
  /\ Forall (fun m => ParcelMatch.matched_quantity m
                      = Parcel.remaining_quantity (ParcelMatch.parcel m))
            (removelast Samples.proposals_60).
Proof.
  assert (H : match_ Samples.sell_60 "fifo" None None Samples.db0
              = (Ok Samples.proposals_60, Samples.db0))
    by (vm_compute; reflexivity).
  split; [exact db0_wf|]. split; [exact H|].
  exact (proj2 (match_auto_whole_lots Samples.sell_60 "fifo" Samples.db0
                  Samples.db0 Samples.proposals_60 db0_wf (or_introl eq_refl) H)).
Defined.


Lemma sample_commit :
  exists saved,
    confirm_matches Samples.proposals_60 Samples.db0 = (Ok saved, Samples.db1).
Proof.
  destruct (confirm_matches Samples.proposals_60 Samples.db0) as [r db'] eqn:Hc.
  assert (Hdb : Samples.db1 = db') by (unfold Samples.db1; now rewrite Hc).
  assert (Hok : is_ok r = true)
    by (change r with (fst (r, db')); rewrite <- Hc; vm_compute; reflexivity).
  destruct r as [saved|e]; [|discriminate]. exists saved. now rewrite Hdb.
Qed.

Lemma commit_frame_witness :
  table_wf (parcel_table Samples.db0)
  /\ exists saved,
       confirm_matches Samples.proposals_60 Samples.db0 = (Ok saved, Samples.db1)
       /\ (forall k, is_Some (parcel_table Samples.db1 !! k)
                     <-> is_Some (parcel_table Samples.db0 !! k))
       /\ parcel_match_table Samples.db1 = parcel_match_table Samples.db0 ++ saved
       /\ length saved = 2%nat.
Proof.
  split; [exact db0_wf|].
  destruct sample_commit as (saved & Hc). exists saved. split; [exact Hc|].
  destruct (commit_frame Samples.proposals_60 saved Samples.db0 Samples.db1
              db0_wf Hc) as (Hkeys & _ & _ & Htable & Hlen).
  auto.
Defined.


Lemma fy_windows_partition_witness :
  valid_date (Date.mkDate 2025 6 30)
  /\ get_fy_range 2025 = Some (Date.mkDate 2024 7 1, Date.mkDate 2025 6 30)
  /\ fy_of (Date.mkDate 2025 6 30) = 2025
  /\ Date.leb (Date.mkDate 2024 7 1) (Date.mkDate 2025 6 30)
     && Date.leb (Date.mkDate 2025 6 30) (Date.mkDate 2025 6 30) = true.
Proof.
  assert (Hd : valid_date (Date.mkDate 2025 6 30)) by reflexivity.
  assert (Hr : get_fy_range 2025
               = Some (Date.mkDate 2024 7 1, Date.mkDate 2025 6 30))
    by reflexivity.
  split; [exact Hd|]. split; [exact Hr|]. split; [reflexivity|].
  apply (fy_windows_partition 2025 _ _ _ Hd Hr). reflexivity.
Defined.

Lemma db1_dates_valid (m : ParcelMatch.t) :
  In m (parcel_match_table Samples.db1) -> valid_date (disposal_date m).
Proof.
  destruct sample_commit as (saved & Hc).
  destruct (confirm_matches_ok_inv Samples.proposals_60 saved Samples.db0
              Samples.db1 db0_wf Hc) as (_ & Htable & Hp).
  rewrite Htable. cbn [Samples.db0 parcel_match_table app]. intros Hin.
  assert (Hsell : Forall (fun m => ParcelMatch.sell_transaction m = Samples.sell_60)
                    saved).
  { clear Hin Hc Htable. revert Hp. generalize saved.
    assert (H60 : Forall (fun m => ParcelMatch.sell_transaction m = Samples.sell_60)
                    Samples.proposals_60) by (repeat constructor).
    revert H60. generalize Samples.proposals_60.
    intros ms Hms sv Hp. induction Hp as [|m0 s0 ms sv [Hm0 _] _ IH]; constructor.
    - apply Forall_cons_iff in Hms as [Hm _]. rewrite Hm0. exact Hm.
    - apply IH. now apply Forall_cons_iff in Hms as [_ Hms]. }
  rewrite List.Forall_forall in Hsell. unfold disposal_date.
  rewrite (Hsell m Hin). reflexivity.
Qed.

Lemma available_fys_have_summaries_witness :
  (forall m, In m (parcel_match_table Samples.db1) ->
             valid_date (disposal_date m))
  /\ exists entries,
       _get_available_fys Samples.db1 = (Ok entries, Samples.db1)
       /\ (In 2025 (List.map fy entries)
           <-> exists s, fy_summary 2025 Samples.db1 = (Ok s, Samples.db1)
                         /\ 0 < match_count s).
Proof.
  split; [exact db1_dates_valid|].
  destruct (available_fys_have_summaries Samples.db1 db1_dates_valid)
    as (entries & Hrun & _ & _ & _ & Hsum).
  exists entries. split; [exact Hrun|].
  apply Hsum. unfold Date.MINYEAR, Date.MAXYEAR. lia.
Defined.

Lemma sample_summary :
  exists s, fy_summary 2025 Samples.db1 = (Ok s, Samples.db1).
Proof.
  destruct (fy_summary 2025 Samples.db1) as [r db'] eqn:Hrun.
  assert (Hdb : db' = Samples.db1).
  { change db' with (snd (r, db')). rewrite <- Hrun. reflexivity. }
  assert (Hok : is_ok r = true).
  { change r with (fst (r, db')). rewrite <- Hrun. reflexivity. }
  destruct r as [s|e]; [|discriminate]. subst db'.
  exists s. reflexivity.
Qed.

Lemma fy_summary_signs_witness :
  exists s,
    fy_summary 2025 Samples.db1 = (Ok s, Samples.db1)
    /\ 0 <= coef (total_gains s) /\ coef (total_losses s) <= 0.
Proof.
  destruct sample_summary as (s & Hs). exists s. split; [exact Hs|].
  destruct (fy_summary_signs 2025 Samples.db1 Samples.db1 s Hs) as (Hg & Hl & _).
  split; assumption.
Defined.

Lemma fy_summary_counts_witness :
  exists s,
    fy_summary 2025 Samples.db1 = (Ok s, Samples.db1)
    /\ match_count s = total (List.map sec_match_count (per_security s)).
Proof.
  destruct sample_summary as (s & Hs). exists s. split; [exact Hs|].
  exact (proj1 (fy_summary_counts 2025 Samples.db1 Samples.db1 s Hs)).
Defined.

Lemma sample_forecast :
  exists report,
    forecast Samples.today Samples.bhp (mkDec 60 0) (mkDec 5500 (-2)) None
      Samples.db0 = (Ok report, Samples.db0).
Proof.
  destruct (forecast Samples.today Samples.bhp (mkDec 60 0) (mkDec 5500 (-2)) None
              Samples.db0) as [r db'] eqn:Hrun.
  assert (Hdb : db' = Samples.db0).
  { change db' with (snd (r, db')). rewrite <- Hrun. vm_compute. reflexivity. }
  assert (Hok : is_ok r = true).
  { change r with (fst (r, db')). rewrite <- Hrun. vm_compute. reflexivity. }
  destruct r as [report|e]; [|discriminate]. subst db'.
  exists report. reflexivity.
Qed.

Lemma forecast_lines_ordered_witness :
  table_wf (parcel_table Samples.db0)
  /\ exists report,
       forecast Samples.today Samples.bhp (mkDec 60 0) (mkDec 5500 (-2)) None
         Samples.db0 = (Ok report, Samples.db0)
       /\ StronglySorted (fun a b => (b <=? a)%D = true)
            (List.map cost_per_unit_aud (parcels_consumed (optimal report)))
       /\ List.NoDup (List.map parcel_id (parcels_consumed (fifo report))).
Proof.
  split; [exact db0_wf|].
  destruct sample_forecast as (report & Hrun). exists report.
  split; [exact Hrun|].
  destruct (forecast_lines_ordered Samples.today Samples.bhp (mkDec 60 0)
              (mkDec 5500 (-2)) None Samples.db0 Samples.db0 report db0_wf Hrun)
    as (_ & _ & Hopt & Hall).
  split; [exact Hopt|].
  exact (proj1 (Hall (fifo report) (or_introl eq_refl))).
Defined.

Lemma db0_rows_cost (k : Z) (row : Parcel.t) :
  parcel_table Samples.db0 !! k = Some row ->
  on_grid 0 (Parcel.remaining_quantity row)
  /\ on_grid 2 (Parcel.cost_per_unit_aud row)
  /\ 0 <= coef (Parcel.cost_per_unit_aud row).
Proof.
  cbn [Samples.db0 parcel_table]. intros H.
  apply lookup_insert_Some in H as [[_ <-]|[_ H]].
  { vm_compute. repeat split; congruence. }
  apply lookup_insert_Some in H as [[_ <-]|[_ H]].
  { vm_compute. repeat split; congruence. }
  rewrite lookup_empty in H. discriminate.
Qed.

Lemma db0_rows_grid (k : Z) (row : Parcel.t) :
  parcel_table Samples.db0 !! k = Some row ->
  on_grid 0 (Parcel.remaining_quantity row).
Proof. intros H. exact (proj1 (db0_rows_cost k row H)). Qed.

Lemma sample_on_grid_60 : on_grid 0 (mkDec 60 0).
Proof. vm_compute. congruence. Qed.

Lemma sample_on_grid_price : on_grid 2 (mkDec 5500 (-2)).
Proof. vm_compute. congruence. Qed.

Lemma sample_proceeds_fit :
  units 2 (mkDec 5500 (-2)) * units 0 (mkDec 60 0) < 10 ^ prec.
Proof. vm_compute. reflexivity. Qed.

Lemma sample_costs_fit :
  total (List.map (fun p => units 2 (Parcel.cost_per_unit_aud p)
                            * units 0 (Parcel.remaining_quantity p))
           (ParcelObjects.available Samples.bhp Samples.db0)) < 10 ^ prec.
Proof. vm_compute. reflexivity. Qed.

Lemma forecast_proceeds_agree_witness :
  exists report,
    forecast Samples.today Samples.bhp (mkDec 60 0) (mkDec 5500 (-2)) None
      Samples.db0 = (Ok report, Samples.db0)
    /\ (total_proceeds (lifo report) == mkDec 5500 (-2) * mkDec 60 0)%D.
Proof.
  destruct sample_forecast as (report & Hrun). exists report.
  split; [exact Hrun|].
  exact (proj1 (forecast_proceeds_agree 0 2 Samples.today Samples.bhp (mkDec 60 0)
                  (mkDec 5500 (-2)) None Samples.db0 Samples.db0 report
                  (Z.le_refl 0) (Z.lt_le_incl 0 2 eq_refl) db0_rows_grid
                  sample_on_grid_60 sample_on_grid_price sample_proceeds_fit
                  Hrun (lifo report) (or_intror (or_introl eq_refl)))).
Defined.

Lemma optimal_largest_cost_base_witness :
  exists report,
    forecast Samples.today Samples.bhp (mkDec 60 0) (mkDec 5500 (-2)) None
      Samples.db0 = (Ok report, Samples.db0)
    /\ (total_cost_base (fifo report) <=? total_cost_base (optimal report))%D
       = true.
Proof.
  destruct sample_forecast as (report & Hrun). exists report.
  split; [exact Hrun|].
  exact (optimal_largest_cost_base 0 2 Samples.today Samples.bhp (mkDec 60 0)
           (mkDec 5500 (-2)) None Samples.db0 Samples.db0 report
           (Z.le_refl 0) (Z.lt_le_incl 0 2 eq_refl) db0_rows_cost
           sample_on_grid_60 (eq_refl : units 0 (mkDec 60 0) < 10 ^ prec)
           sample_costs_fit Hrun (fifo report) (or_introl eq_refl)).
Defined.

Lemma optimal_smallest_gain_witness :
  exists report,
    forecast Samples.today Samples.bhp (mkDec 60 0) (mkDec 5500 (-2)) None
      Samples.db0 = (Ok report, Samples.db0)
    /\ (total_gain_loss (optimal report) <=? total_gain_loss (fifo report))%D
       = true.
Proof.
  destruct sample_forecast as (report & Hrun). exists report.
  split; [exact Hrun|].
  exact (optimal_smallest_gain 0 2 Samples.today Samples.bhp (mkDec 60 0)
           (mkDec 5500 (-2)) None Samples.db0 Samples.db0 report
           (Z.le_refl 0) (Z.lt_le_incl 0 2 eq_refl) db0_rows_cost
           sample_on_grid_60 sample_on_grid_price sample_proceeds_fit
           sample_costs_fit Hrun (fifo report) (or_introl eq_refl)).
Defined.

Lemma sample_match :
  match_ Samples.sell_60 "fifo" None None Samples.db0
  = (Ok Samples.proposals_60, Samples.db0).
Proof. vm_compute. reflexivity. Qed.

Lemma sample_sell_on_grid : on_grid 0 (Transaction.quantity Samples.sell_60).
Proof. vm_compute. congruence. Qed.

Lemma sample_sell_units :
  0 < units 0 (Transaction.quantity Samples.sell_60) < 10 ^ prec.
Proof. vm_compute. split; reflexivity. Qed.

Lemma match_replay_witness :
  match_ Samples.sell_60 "fifo" None None Samples.db0
  = (Ok Samples.proposals_60, Samples.db0)
  /\ match_ Samples.sell_60 "manual"
       (Some (List.map ParcelMatch.parcel Samples.proposals_60))
       (Some (List.map ParcelMatch.matched_quantity Samples.proposals_60))
       Samples.db0
     = (Ok Samples.proposals_60, Samples.db0).
Proof.
  split; [exact sample_match|].
  exact (match_replay 0 Samples.sell_60 "fifo" Samples.db0 Samples.db0
           Samples.proposals_60 (Z.le_refl 0) db0_wf db0_rows_grid
           sample_sell_on_grid sample_sell_units sample_match).
Defined.

Lemma sample_preview :
  auto_match (<[10 := Samples.sell_60]> ∅) 10 None ∅ Samples.db0
  = (Ok (Preview Samples.proposals_60 Samples.sell_60 "fifo",
         <[10 := to_pending Samples.proposals_60]> ∅), Samples.db0).
Proof. vm_compute. reflexivity. Qed.

Lemma preview_confirms_witness :
  auto_match (<[10 := Samples.sell_60]> ∅) 10 None ∅ Samples.db0
  = (Ok (Preview Samples.proposals_60 Samples.sell_60 "fifo",
         <[10 := to_pending Samples.proposals_60]> ∅), Samples.db0)
  /\ exists saved,
       confirm_match (<[10 := Samples.sell_60]> ∅) 10
         (<[10 := to_pending Samples.proposals_60]> ∅) Samples.db0
       = (Ok (Confirmed saved Samples.sell_60,
              delete 10 (<[10 := to_pending Samples.proposals_60]> ∅)),
          mkDB (debit_all Samples.proposals_60 (parcel_table Samples.db0))
               (parcel_match_table Samples.db0 ++ saved)).
Proof.
  split; [exact sample_preview|].
  destruct (preview_confirms 0 (<[10 := Samples.sell_60]> ∅) 10 None ∅
              (<[10 := to_pending Samples.proposals_60]> ∅) Samples.db0
              Samples.db0 Samples.proposals_60 Samples.sell_60 "fifo"
              (Z.le_refl 0) db0_wf db0_rows_grid sample_sell_on_grid
              sample_sell_units sample_preview)
    as (_ & _ & saved & Hc & _).
  exists saved. exact Hc.
Defined.

Lemma committed_sell_leaves_list_witness :
  exists saved before after,
    confirm_matches Samples.proposals_60 Samples.db0 = (Ok saved, Samples.db1)
    /\ unmatched_sells (<[10 := Samples.sell_60]> ∅) Samples.db0
       = (Ok before, Samples.db0)
    /\ unmatched_sells (<[10 := Samples.sell_60]> ∅) Samples.db1
       = (Ok after, Samples.db1)
    /\ In Samples.sell_60 (List.map transaction before)
    /\ ~ In Samples.sell_60 (List.map transaction after).
Proof.
  destruct sample_commit as (saved & Hc). exists saved.
  destruct (committed_sell_leaves_list 0 (<[10 := Samples.sell_60]> ∅)
              Samples.sell_60 "fifo" Samples.db0 Samples.db0 Samples.db1
              Samples.proposals_60 saved (Z.le_refl 0) db0_wf db0_rows_grid
              sample_sell_on_grid sample_sell_units
              (ex_intro _ 10 (lookup_insert_eq ∅ 10 Samples.sell_60))
              (List.Forall_nil _) sample_match Hc)
    as (before & after & H1 & H2 & H3 & H4).
  exists before, after. repeat split; assumption.
Defined.

End Examples.
